(** * A verification model of the [yt] player (src/index.js)

    The library embeds a video frame and talks to it through
    [postMessage].  This development embeds the program in three layers:

    - [JS]: the JavaScript values the program handles, object property
      access, object spread, [String(...)] and [JSON.stringify];
    - [Instance]: the private state of one [Player] object and its methods,
      as functions from the state to the new state and the list of
      effects performed (messages posted, console output, timers cleared,
      user callbacks invoked);
    - [Page]: the module-level state ([id], [messageHandlers],
      [attachedListeners]), the elements of the document, the interval
      timers, the constructor, [destroy], the window [message] listener and
      the events the browser delivers.

    Conventions.  Numbers are the integers of magnitude below 10^21, which
    [String(...)] and [JSON.stringify] write with all their digits (no
    statement below depends on a fractional value or on the digits of a
    larger one).  Strings are byte strings.  User callbacks are opaque: a
    callback is known by its identity, its invocation is recorded, and what
    its body does is outside the model. *)

From Stdlib Require Import ZArith String Ascii List DecimalString DecimalNat DecimalFacts.
From stdpp Require Import gmap strings list.

Open Scope string_scope.
Open Scope list_scope.
Set Warnings "-register-all".

(* ===================================================================== *)
(** ** JavaScript values                                                  *)
(* ===================================================================== *)

Module JS.

Inductive value : Type :=
| VUndefined
| VNull
| VBool (b : bool)
| VNum (n : Z)
| VStr (s : string)
| VArr (items : list value)
| VObj (fields : list (string * value)).

(** An object is the list of its own enumerable properties in definition
    order.  Reading a property takes its latest definition; writing
    replaces the value where the key is already defined and appends a new
    property otherwise. *)
Fixpoint assoc_get {A : Type} (k : string) (fs : list (string * A)) : option A :=
  match fs with
  | [] => None
  | (k', x) :: rest =>
      match assoc_get k rest with
      | Some y => Some y
      | None => if String.eqb k k' then Some x else None
      end
  end.

Definition assoc_has {A : Type} (k : string) (fs : list (string * A)) : bool :=
  match assoc_get k fs with Some _ => true | None => false end.

Definition assoc_set {A : Type} (k : string) (x : A) (fs : list (string * A))
  : list (string * A) :=
  if assoc_has k fs
  then map (fun kv => if String.eqb k (fst kv) then (fst kv, x) else kv) fs
  else fs ++ [(k, x)].

(** [v == null] *)
Definition nullish (v : value) : bool :=
  match v with
  | VUndefined | VNull => true
  | _ => false
  end.

(** [if (v)] *)
Definition truthy (v : value) : bool :=
  match v with
  | VUndefined | VNull => false
  | VBool b => b
  | VNum n => negb (Z.eqb n 0)
  | VStr s => negb (String.eqb s "")
  | VArr _ | VObj _ => true
  end.

(** [v === 'literal'] *)
Definition is_str (v : value) (lit : string) : bool :=
  match v with
  | VStr s => String.eqb s lit
  | _ => false
  end.

(** [v.k] for a key [k] that no built-in prototype defines ([id], [event],
    [info]): only an object can carry it.  On [null] and [undefined] the
    access throws; callers that can meet them test for it first. *)
Definition prop (v : value) (k : string) : value :=
  match v with
  | VObj fs => match assoc_get k fs with Some x => x | None => VUndefined end
  | _ => VUndefined
  end.

Definition dec_nat (n : nat) : string := NilZero.string_of_uint (Nat.to_uint n).
Definition dec_Z (n : Z) : string := NilZero.string_of_int (Z.to_int n).

Fixpoint join (sep : string) (parts : list string) : string :=
  match parts with
  | [] => ""
  | [p] => p
  | p :: rest => p +:+ sep +:+ join sep rest
  end.

(** [String(v)] *)
Fixpoint to_String (v : value) : string :=
  match v with
  | VUndefined => "undefined"
  | VNull => "null"
  | VBool true => "true"
  | VBool false => "false"
  | VNum n => dec_Z n
  | VStr s => s
  | VArr items =>
      join "," (map (fun x => if nullish x then "" else to_String x) items)
  | VObj _ => "[object Object]"
  end.

Definition chars (s : string) : list string :=
  map (fun c => String c EmptyString) (list_ascii_of_string s).

Definition indexed {A : Type} (l : list A) : list (string * A) :=
  imap (fun i x => (dec_nat i, x)) l.

(** The own enumerable properties that [{...v}] and [Object.entries(v)]
    visit. *)
Definition own_props (v : value) : list (string * value) :=
  match v with
  | VObj fs => fs
  | VArr items => indexed items
  | VStr s => indexed (map VStr (chars s))
  | _ => []
  end.

(** [{ ...acc, ...v }] continued from an object under construction: every
    own property of [v] is written in turn. *)
Definition spread (acc : list (string * value)) (v : value) : list (string * value) :=
  fold_left (fun o kv => assoc_set (fst kv) (snd kv) o) (own_props v) acc.

(** *** JSON.stringify *)

Definition dquote : string := String (ascii_of_nat 34) EmptyString.
Definition backslash : string := String (ascii_of_nat 92) EmptyString.

Definition hex_digit (n : nat) : string :=
  match n with
  | 0 => "0" | 1 => "1" | 2 => "2" | 3 => "3" | 4 => "4" | 5 => "5" | 6 => "6"
  | 7 => "7" | 8 => "8" | 9 => "9" | 10 => "a" | 11 => "b" | 12 => "c"
  | 13 => "d" | 14 => "e" | _ => "f"
  end.

Definition escape_char (c : ascii) : string :=
  let n := nat_of_ascii c in
  if Nat.eqb n 34 then backslash +:+ dquote
  else if Nat.eqb n 92 then backslash +:+ backslash
  else if Nat.eqb n 8 then backslash +:+ "b"
  else if Nat.eqb n 12 then backslash +:+ "f"
  else if Nat.eqb n 10 then backslash +:+ "n"
  else if Nat.eqb n 13 then backslash +:+ "r"
  else if Nat.eqb n 9 then backslash +:+ "t"
  else if Nat.ltb n 32
       then backslash +:+ "u00" +:+ hex_digit (n / 16) +:+ hex_digit (n mod 16)
  else String c EmptyString.

Fixpoint escape (s : string) : string :=
  match s with
  | EmptyString => ""
  | String c rest => escape_char c +:+ escape rest
  end.

Definition quote (s : string) : string := dquote +:+ escape s +:+ dquote.

(** [JSON.stringify] in two steps.  [to_json] is the traversal
    (SerializeJSONProperty): [None] is the [undefined] it yields for
    [undefined]; a property whose value is [undefined] is left out of an
    object, and in an array [undefined] is written [null].  [render]
    writes the text. *)
Inductive json : Type :=
| JNull
| JBool (b : bool)
| JNum (n : Z)
| JStr (s : string)
| JArr (items : list json)
| JObj (fields : list (string * json)).

Fixpoint to_json (v : value) : option json :=
  match v with
  | VUndefined => None
  | VNull => Some JNull
  | VBool b => Some (JBool b)
  | VNum n => Some (JNum n)
  | VStr s => Some (JStr s)
  | VArr items =>
      Some (JArr (map (fun x => match to_json x with
                                | Some j => j
                                | None => JNull
                                end) items))
  | VObj fs =>
      Some (JObj (concat (map (fun kv => match to_json (snd kv) with
                                         | Some j => [(fst kv, j)]
                                         | None => []
                                         end) fs)))
  end.

Fixpoint render (j : json) : string :=
  match j with
  | JNull => "null"
  | JBool true => "true"
  | JBool false => "false"
  | JNum n => dec_Z n
  | JStr s => quote s
  | JArr items => "[" +:+ join "," (map render items) +:+ "]"
  | JObj fs =>
      "{" +:+ join "," (map (fun kj => quote (fst kj) +:+ ":" +:+ render (snd kj)) fs) +:+ "}"
  end.

Definition stringify (v : value) : option string := render <$> to_json v.

(** The members [JSON.stringify] writes for an object with the properties
    [fs], and the text it returns for that object. *)
Definition json_members (fs : list (string * value)) : list (string * json) :=
  concat (map (fun kv => match to_json (snd kv) with
                         | Some j => [(fst kv, j)]
                         | None => []
                         end) fs).

Definition stringify_object (fs : list (string * value)) : string :=
  render (JObj (json_members fs)).

End JS.
Export JS.

(* ===================================================================== *)
(** ** One [Player] object                                                *)
(* ===================================================================== *)

Module Instance.

(** A user callback, known by its identity. *)
Definition Handler := nat.

(** [class PlayerEvent]; [target] is the address of the player object. *)
Record PlayerEvent := {
  target : nat;
  type : string;
  data : value
}.

(** What a method does besides updating the private fields. *)
Inductive Effect :=
| PostMessage (message targetOrigin : string)
    (* this.#iframe.contentWindow.postMessage(message, targetOrigin) *)
| ConsoleLog
    (* console.log(this.#iframe) *)
| ClearInterval (timer : nat)
| CallHandler (handler : Handler) (event : PlayerEvent).

(** [this.options], after the defaults are filled in.  The two object
    valued options are read by the program through [Object.entries] only:
    [opt_events] and [opt_playerVars] are the lists of pairs that
    [Object.entries(options.events)] and [Object.entries(options.playerVars)]
    return, in the order in which they return them (the engine lists the
    keys that are array indices first, in ascending order, and then the
    other keys in the order of their definition). *)
Record Options := {
  opt_id : string;
  opt_videoId : string;
  opt_width : value;
  opt_height : value;
  opt_title : string;
  opt_host : string;
  opt_events : list (string * Handler);
  opt_playerVars : list (string * value)
}.

(** The fields of a [Player]; elements are addresses in the document. *)
Record Player := {
  options : Options;
  player_id : string;                     (* this.id *)
  originalElement : nat;
  iframe : nat;
  messageQueue : list value;
  ready : bool;
  pollReadiness : option nat;
  info : value;
  events : gmap string (list Handler)
}.

Definition set_messageQueue (q : list value) (p : Player) : Player :=
  {| options := options p; player_id := player_id p;
     originalElement := originalElement p; iframe := iframe p;
     messageQueue := q; ready := ready p; pollReadiness := pollReadiness p;
     info := info p; events := events p |}.

Definition set_ready (b : bool) (p : Player) : Player :=
  {| options := options p; player_id := player_id p;
     originalElement := originalElement p; iframe := iframe p;
     messageQueue := messageQueue p; ready := b; pollReadiness := pollReadiness p;
     info := info p; events := events p |}.

Definition set_pollReadiness (t : option nat) (p : Player) : Player :=
  {| options := options p; player_id := player_id p;
     originalElement := originalElement p; iframe := iframe p;
     messageQueue := messageQueue p; ready := ready p; pollReadiness := t;
     info := info p; events := events p |}.

Definition set_info (v : value) (p : Player) : Player :=
  {| options := options p; player_id := player_id p;
     originalElement := originalElement p; iframe := iframe p;
     messageQueue := messageQueue p; ready := ready p; pollReadiness := pollReadiness p;
     info := v; events := events p |}.

Definition set_events (m : gmap string (list Handler)) (p : Player) : Player :=
  {| options := options p; player_id := player_id p;
     originalElement := originalElement p; iframe := iframe p;
     messageQueue := messageQueue p; ready := ready p; pollReadiness := pollReadiness p;
     info := info p; events := m |}.

(** A method body: the new fields and the effects, in order. *)
Definition Act := Player -> Player * list Effect.

Definition skip : Act := fun p => (p, []).

Definition seq (a b : Act) : Act :=
  fun p =>
    let r1 := a p in
    let r2 := b (fst r1) in
    (fst r2, snd r1 ++ snd r2).

Definition tell (e : Effect) : Act := fun p => (p, [e]).

Definition modify (f : Player -> Player) : Act := fun p => (f p, []).

Fixpoint for_each {A : Type} (f : A -> Act) (l : list A) : Act :=
  match l with
  | [] => skip
  | x :: rest => seq (f x) (for_each f rest)
  end.

Declare Scope act_scope.
Delimit Scope act_scope with act.
Bind Scope act_scope with Act.
Notation "a ;; b" := (seq a b%act)
  (at level 100, b at level 200, right associativity) : act_scope.
Open Scope act_scope.

(** What a method sees of its surroundings: its own address ([this]) and
    whether [this.#iframe.contentWindow] is there. *)
Record Env := {
  this : nat;
  contentWindow : bool
}.

(** [list.indexOf(handler)] then [list.splice(index, 1)] *)
Fixpoint remove_first (h : Handler) (l : list Handler) : list Handler :=
  match l with
  | [] => []
  | x :: rest => if Nat.eqb x h then rest else x :: remove_first h rest
  end.

(** The object literal [{ event: 'command', func, args }]. *)
Definition command_message (func : string) (args : value) : value :=
  VObj [("event", VStr "command"); ("func", VStr func); ("args", args)].

Definition listening_message : value := VObj [("event", VStr "listening")].

(** [{ ...data, id: this.id, channel: 'widget' }] *)
Definition payload (p : Player) (data : value) : list (string * value) :=
  assoc_set "channel" (VStr "widget")
    (assoc_set "id" (VStr (player_id p)) (spread [] data)).

Section Methods.

Variable env : Env.

Definition sendMessage (data : value) : Act :=
  fun p =>
    if negb (contentWindow env)
    then tell ConsoleLog p
    else tell (PostMessage (stringify_object (payload p data))
                           (opt_host (options p))) p.

Definition stopPolling : Act :=
  fun p =>
    match pollReadiness p with
    | Some t => (tell (ClearInterval t) ;; modify (set_pollReadiness None)) p
    | None => skip p
    end.

Definition emit (type : value) (data : value) : Act :=
  fun p =>
    match type with
    | VStr name =>
        match events p !! name with
        | Some list =>
            let event := {| target := this env; type := name; data := data |} in
            for_each (fun handler => tell (CallHandler handler event)) list p
        | None => skip p
        end
    | _ => skip p
    end.

Definition handleMessage (data : value) : Act :=
  (fun p =>
     if Nat.ltb 0 (length (messageQueue p))
     then (for_each sendMessage (messageQueue p) ;; modify (set_messageQueue [])) p
     else skip p) ;;
  stopPolling ;;
  modify (set_ready true) ;;
  (fun p =>
     if is_str (prop data "event") "initialDelivery"
     then modify (set_info (prop data "info")) p
     else if is_str (prop data "event") "infoDelivery"
     then
       let oldInfo := info p in
       modify (set_info (VObj (spread (spread [] oldInfo) (prop data "info")))) p
     else if is_str (prop data "event") "apiInfoDelivery"
     then skip p
     else emit (prop data "event") (prop data "info") p).

Definition sendCommand (func : string) (args : value) : Act :=
  fun p =>
    if ready p
    then sendMessage (command_message func args) p
    else modify (set_messageQueue (messageQueue p ++ [command_message func args])) p.

Definition addEventListener (name : string) (handler : Handler) : Act :=
  fun p =>
    match events p !! name with
    | Some list => modify (set_events (<[name := list ++ [handler]]> (events p))) p
    | None =>
        (modify (set_events (<[name := [handler]]> (events p))) ;;
         sendCommand "addEventListener" (VArr [VStr name])) p
    end.

Definition removeEventListener (name : string) (handler : Handler) : Act :=
  fun p =>
    match events p !! name with
    | None => skip p
    | Some list =>
        let list' := remove_first handler list in
        (modify (set_events (<[name := list']> (events p))) ;;
         (fun p1 =>
            if Nat.eqb (length list') 0
            then (sendCommand "removeEventListener" (VArr [VStr name]) ;;
                  modify (fun p2 => set_events (delete name (events p2)) p2)) p1
            else skip p1)) p
    end.

(** The playback methods; each is one call of [#sendCommand]. *)
Inductive Command :=
| loadVideoById (args : list value)
| cueVideoById (args : list value)
| loadVideoByUrl (args : list value)
| cueVideoByUrl (args : list value)
| playVideo
| pauseVideo
| stopVideo
| seekTo (seconds allowSeekAhead : value)
| mute
| unMute
| setVolume (volume : value)
| setPlaybackRate (suggestedRate : value)
| setLoop (loopPlaylists : value)
| setShuffle (shufflePlaylist : value).

Definition func_of (c : Command) : string :=
  match c with
  | loadVideoById _ => "loadVideoById"
  | cueVideoById _ => "cueVideoById"
  | loadVideoByUrl _ => "loadVideoByUrl"
  | cueVideoByUrl _ => "cueVideoByUrl"
  | playVideo => "playVideo"
  | pauseVideo => "pauseVideo"
  | stopVideo => "stopVideo"
  | seekTo _ _ => "seekTo"
  | mute => "mute"
  | unMute => "unMute"
  | setVolume _ => "setVolume"
  | setPlaybackRate _ => "setPlaybackRate"
  | setLoop _ => "setLoop"
  | setShuffle _ => "setShuffle"
  end.

(** The second argument the method passes to [#sendCommand]; [mute] and
    [unMute] pass none, so the parameter is [undefined]. *)
Definition args_of (c : Command) : value :=
  match c with
  | loadVideoById args | cueVideoById args
  | loadVideoByUrl args | cueVideoByUrl args => VArr args
  | playVideo | pauseVideo | stopVideo => VArr []
  | seekTo seconds allowSeekAhead => VArr [seconds; allowSeekAhead]
  | mute | unMute => VUndefined
  | setVolume x | setPlaybackRate x | setLoop x | setShuffle x => VArr [x]
  end.

Definition command (c : Command) : Act := sendCommand (func_of c) (args_of c).

End Methods.

(** The getters read [this.#info.<key>]; [None] is the [TypeError] of
    reading a property of [null] or [undefined]. *)
Definition getter (key : string) (p : Player) : option value :=
  if nullish (info p) then None else Some (prop (info p) key).

Definition getVolume := getter "volume".
Definition isMuted := getter "muted".
Definition getDuration := getter "duration".
Definition getPlayerState := getter "playerState".

End Instance.
Export Instance.

(* ===================================================================== *)
(** ** The page: document, timers, module state, constructor and router   *)
(* ===================================================================== *)

Module Page.

(** An element of the document.  [isConnected] says whether it is in the
    document; a frame has a [contentWindow] exactly while it is.
    [loadListeners] lists the players whose [emitListening] closure was
    added with [addEventListener('load', ...)], in the order added. *)
Record Element := {
  tagName : string;
  attributes : list (string * string);
  parentNode : option nat;
  isConnected : bool;
  loadListeners : list nat
}.

Definition set_attributes (x : list (string * string)) (el : Element) : Element :=
  {| tagName := tagName el; attributes := x; parentNode := parentNode el;
     isConnected := isConnected el; loadListeners := loadListeners el |}.

Definition set_position (parent : option nat) (connected : bool) (el : Element) : Element :=
  {| tagName := tagName el; attributes := attributes el; parentNode := parent;
     isConnected := connected; loadListeners := loadListeners el |}.

Definition set_loadListeners (x : list nat) (el : Element) : Element :=
  {| tagName := tagName el; attributes := attributes el; parentNode := parentNode el;
     isConnected := isConnected el; loadListeners := x |}.

(** What the outside observes, in order. *)
Inductive Output :=
| Posted (frame : nat) (message targetOrigin : string)
| Logged (frame : nat)
| Called (handler : Handler) (event : PlayerEvent).

Record World := {
  next_id : nat;                            (* let id = 0 *)
  messageHandlers : gmap string nat;        (* id -> the player its closure calls *)
  attachedListeners : gset string;
  windowListeners : nat;                    (* 'message' listeners on window *)
  heap : list Player;
  document : list Element;
  intervals : gmap nat nat;                 (* running timer -> the player it probes for *)
  next_timer : nat;
  trace : list Output
}.

Definition set_next_id (x : nat) (w : World) : World :=
  {| next_id := x; messageHandlers := messageHandlers w;
     attachedListeners := attachedListeners w; windowListeners := windowListeners w;
     heap := heap w; document := document w; intervals := intervals w;
     next_timer := next_timer w; trace := trace w |}.

Definition set_messageHandlers (x : gmap string nat) (w : World) : World :=
  {| next_id := next_id w; messageHandlers := x;
     attachedListeners := attachedListeners w; windowListeners := windowListeners w;
     heap := heap w; document := document w; intervals := intervals w;
     next_timer := next_timer w; trace := trace w |}.

Definition set_attachedListeners (x : gset string) (w : World) : World :=
  {| next_id := next_id w; messageHandlers := messageHandlers w;
     attachedListeners := x; windowListeners := windowListeners w;
     heap := heap w; document := document w; intervals := intervals w;
     next_timer := next_timer w; trace := trace w |}.

Definition set_windowListeners (x : nat) (w : World) : World :=
  {| next_id := next_id w; messageHandlers := messageHandlers w;
     attachedListeners := attachedListeners w; windowListeners := x;
     heap := heap w; document := document w; intervals := intervals w;
     next_timer := next_timer w; trace := trace w |}.

Definition set_heap (x : list Player) (w : World) : World :=
  {| next_id := next_id w; messageHandlers := messageHandlers w;
     attachedListeners := attachedListeners w; windowListeners := windowListeners w;
     heap := x; document := document w; intervals := intervals w;
     next_timer := next_timer w; trace := trace w |}.

Definition set_document (x : list Element) (w : World) : World :=
  {| next_id := next_id w; messageHandlers := messageHandlers w;
     attachedListeners := attachedListeners w; windowListeners := windowListeners w;
     heap := heap w; document := x; intervals := intervals w;
     next_timer := next_timer w; trace := trace w |}.

Definition set_intervals (x : gmap nat nat) (w : World) : World :=
  {| next_id := next_id w; messageHandlers := messageHandlers w;
     attachedListeners := attachedListeners w; windowListeners := windowListeners w;
     heap := heap w; document := document w; intervals := x;
     next_timer := next_timer w; trace := trace w |}.

Definition set_next_timer (x : nat) (w : World) : World :=
  {| next_id := next_id w; messageHandlers := messageHandlers w;
     attachedListeners := attachedListeners w; windowListeners := windowListeners w;
     heap := heap w; document := document w; intervals := intervals w;
     next_timer := x; trace := trace w |}.

Definition set_trace (x : list Output) (w : World) : World :=
  {| next_id := next_id w; messageHandlers := messageHandlers w;
     attachedListeners := attachedListeners w; windowListeners := windowListeners w;
     heap := heap w; document := document w; intervals := intervals w;
     next_timer := next_timer w; trace := x |}.

(** *** Document operations *)

Definition update_element (e : nat) (f : Element -> Element) (w : World) : World :=
  match document w !! e with
  | Some el => set_document (<[e := f el]> (document w)) w
  | None => w
  end.

Definition setAttribute (e : nat) (name val : string) : World -> World :=
  update_element e (fun el => set_attributes (assoc_set name val (attributes el)) el).

(** [parent.replaceChild(newChild, oldChild)] for the parent of
    [oldChild]: the new child takes the place of the old one, which leaves
    the tree. *)
Definition replaceChild (newChild oldChild : nat) (w : World) : World :=
  match document w !! oldChild with
  | Some old =>
      update_element oldChild (set_position None false)
        (update_element newChild (set_position (parentNode old) (isConnected old)) w)
  | None => w
  end.

Definition has_contentWindow (w : World) (frame : nat) : bool :=
  match document w !! frame with
  | Some el => isConnected el
  | None => false
  end.

Fixpoint find_by_id (s : string) (els : list Element) (i : nat) : option nat :=
  match els with
  | [] => None
  | el :: rest =>
      if isConnected el && bool_decide (assoc_get "id" (attributes el) = Some s)
      then Some i
      else find_by_id s rest (S i)
  end.

(** [document.getElementById(s)]; the order of the store stands for the
    order of the tree.  An element whose [id] attribute is empty has no
    identifier, so the empty string finds nothing. *)
Definition getElementById (w : World) (s : string) : option nat :=
  if String.eqb s "" then None else find_by_id s (document w) 0.

(** *** Embed URL and frame construction *)

Definition hex_upper (n : nat) : string :=
  match n with
  | 10 => "A" | 11 => "B" | 12 => "C" | 13 => "D" | 14 => "E" | 15 => "F"
  | _ => hex_digit n
  end.

(** The [application/x-www-form-urlencoded] serializer of
    [URLSearchParams]. *)
Definition urlencode_char (c : ascii) : string :=
  let n := nat_of_ascii c in
  if Nat.eqb n 32 then "+"
  else if (Nat.eqb n 42 || Nat.eqb n 45 || Nat.eqb n 46 || Nat.eqb n 95
           || (Nat.leb 48 n && Nat.leb n 57)
           || (Nat.leb 65 n && Nat.leb n 90)
           || (Nat.leb 97 n && Nat.leb n 122))%bool
  then String c EmptyString
  else "%" +:+ hex_upper (n / 16) +:+ hex_upper (n mod 16).

Fixpoint urlencode (s : string) : string :=
  match s with
  | EmptyString => ""
  | String c rest => urlencode_char c +:+ urlencode rest
  end.

(** [params.set(name, val)]: the first pair of that name takes the value
    and the others go; without one the pair is appended. *)
Fixpoint params_set (name val : string) (l : list (string * string)) : list (string * string) :=
  match l with
  | [] => [(name, val)]
  | (k, x) :: rest =>
      if String.eqb k name
      then (k, val) :: List.filter (fun kv => negb (String.eqb (fst kv) name)) rest
      else (k, x) :: params_set name val rest
  end.

Definition params_toString (l : list (string * string)) : string :=
  join "&" (map (fun kv => urlencode (fst kv) +:+ "=" +:+ urlencode (snd kv)) l).

(** [getEmbedUrl(options)]; [opt_playerVars] is
    [Object.entries(options.playerVars)]. *)
Definition getEmbedUrl (options : Options) : string :=
  let params :=
    map (fun kv => (fst kv, to_String (snd kv)))
        (List.filter (fun kv => negb (nullish (snd kv))) (opt_playerVars options)) in
  let params := params_set "enablejsapi" "1" params in
  opt_host options +:+ "/embed/" +:+ opt_videoId options +:+ "?" +:+ params_toString params.

Definition createIframe (options : Options) : Element :=
  let attrs := assoc_set "frameborder" "0" [] in
  let attrs := assoc_set "allowfullscreen" "1" attrs in
  let attrs := assoc_set "title" ("YouTube " +:+ opt_title options) attrs in
  let attrs := if truthy (opt_width options)
               then assoc_set "width" (to_String (opt_width options)) attrs
               else attrs in
  let attrs := if truthy (opt_height options)
               then assoc_set "height" (to_String (opt_height options)) attrs
               else attrs in
  let attrs := assoc_set "src" (getEmbedUrl options) attrs in
  {| tagName := "IFRAME"; attributes := attrs; parentNode := None;
     isConnected := false; loadListeners := [] |}.

(** *** Running a method of a player of the heap *)

Definition apply_effect (frame : nat) (w : World) (e : Effect) : World :=
  match e with
  | PostMessage message targetOrigin =>
      set_trace (trace w ++ [Posted frame message targetOrigin]) w
  | ConsoleLog => set_trace (trace w ++ [Logged frame]) w
  | ClearInterval t => set_intervals (delete t (intervals w)) w
  | CallHandler handler event => set_trace (trace w ++ [Called handler event]) w
  end.

Definition run_on (a : nat) (method : Env -> Act) (w : World) : World :=
  match heap w !! a with
  | Some p =>
      let env := {| this := a; contentWindow := has_contentWindow w (iframe p) |} in
      let r := method env p in
      fold_left (apply_effect (iframe p)) (snd r) (set_heap (<[a := fst r]> (heap w)) w)
  | None => w
  end.

(** [const emitListening = () => this.#sendMessage({ event: 'listening' })] *)
Definition emitListening (env : Env) : Act := sendMessage env listening_message.

(** *** The constructor *)

(** The [options] argument; [None] (for the dimensions: a value [== null])
    is a property that is absent, [undefined] or [null].  An object given
    for [events] or [playerVars] is listed as in [Options]: by the pairs
    that [Object.entries] returns for it. *)
Record PlayerOptions := {
  arg_id : option string;
  arg_videoId : option string;
  arg_width : value;
  arg_height : value;
  arg_title : option string;
  arg_host : option string;
  arg_events : option (list (string * Handler));
  arg_playerVars : option (list (string * value))
}.

(** [{ ...defaults, ...options }] followed by [this.options[key] ??= value]
    for every default. *)
Definition resolve_options (counter : nat) (arg : PlayerOptions) : Options :=
  {| opt_id := default ("c" +:+ dec_nat counter) (arg_id arg);
     opt_videoId := default "" (arg_videoId arg);
     opt_width := if nullish (arg_width arg) then VNum 640 else arg_width arg;
     opt_height := if nullish (arg_height arg) then VNum 390 else arg_height arg;
     opt_title := default "video player" (arg_title arg);
     opt_host := default "https://www.youtube.com" (arg_host arg);
     opt_events := default [] (arg_events arg);
     opt_playerVars := default [] (arg_playerVars arg) |}.

Inductive Target :=
| TargetId (s : string)
| TargetElement (e : nat)
| TargetNull.

(** [typeof target === 'string' ? document.getElementById(target) : target];
    a reference to no element of the store stands for [null]. *)
Definition resolve_target (w : World) (target : Target) : option nat :=
  match target with
  | TargetId s => getElementById w s
  | TargetElement e => match document w !! e with Some _ => Some e | None => None end
  | TargetNull => None
  end.

Inductive Error :=
| TargetError                 (* new Error('target must be an element') *)
| DuplicateError (id : string) (* new Error(`Duplicate player id: ${id}`) *)
| TypeError.

Definition attachGlobalListener (host : string) (w : World) : World :=
  let hasListener := Nat.ltb 0 (size (attachedListeners w)) in
  let w1 := set_attachedListeners ({[host]} ∪ attachedListeners w) w in
  if hasListener then w1 else set_windowListeners (S (windowListeners w1)) w1.

(** The frame the player controls: the target itself when it is a frame,
    a new one otherwise, put in the place of the target when the target
    has a parent. *)
Definition obtain_frame (options : Options) (element : nat) (w : World) : nat * World :=
  match document w !! element with
  | Some el =>
      if String.eqb (tagName el) "IFRAME"
      then (element, w)
      else (length (document w),
            set_document (document w ++ [createIframe options]) w)
  | None => (element, w)
  end.

Definition place_frame (iframe element : nat) (w : World) : World :=
  if Nat.eqb iframe element then w
  else match document w !! element with
       | Some el => match parentNode el with
                    | Some _ => replaceChild iframe element w
                    | None => w
                    end
       | None => w
       end.

Definition new_player (options : Options) (element iframe : nat) : Player :=
  {| options := options; player_id := opt_id options;
     originalElement := element; iframe := iframe;
     messageQueue := []; ready := false; pollReadiness := None;
     info := VObj []; events := ∅ |}.

(** [emitListening(); this.#pollReadiness = setInterval(emitListening, 100);
    iframe.addEventListener('load', emitListening)] *)
Definition begin_handshake (self : nat) (frame : nat) (w : World) : World :=
  let w1 := run_on self emitListening w in
  let t := next_timer w1 in
  let w2 := set_next_timer (S t) (set_intervals (<[t := self]> (intervals w1)) w1) in
  let w3 := run_on self (fun _ => modify (set_pollReadiness (Some t))) w2 in
  update_element frame (fun el => set_loadListeners (loadListeners el ++ [self]) el) w3.

Definition register_events (self : nat) (l : list (string * Handler)) : World -> World :=
  run_on self (fun env => for_each (fun nh => addEventListener env (fst nh) (snd nh)) l).

(** [new Player(target, options)].  The object takes its place in the heap
    once its target is resolved: before that nothing refers to it.  The
    result is the address of the new player, or the error thrown; what was
    done before a throw stays done. *)
Definition construct (target : Target) (arg : PlayerOptions) (w : World)
  : World * (Error + nat) :=
  let options := resolve_options (next_id w) arg in
  let w := set_next_id (S (next_id w)) w in
  match resolve_target w target with
  | None => (w, inl TargetError)
  | Some element =>
      let fw := obtain_frame options element w in
      let frame := fst fw in
      let w := setAttribute frame "id" ("widget" +:+ opt_id options) (snd fw) in
      let w := place_frame frame element w in
      let self := length (heap w) in
      let w := set_heap (heap w ++ [new_player options element frame]) w in
      let w := begin_handshake self frame w in
      let w := register_events self (opt_events options) w in
      let w := attachGlobalListener (opt_host options) w in
      match messageHandlers w !! opt_id options with
      | Some _ => (w, inl (DuplicateError (opt_id options)))
      | None =>
          (set_messageHandlers (<[opt_id options := self]> (messageHandlers w)) w,
           inr self)
      end
  end.

(** [destroy()]; reading [replaceChild] of a [parentNode] that is [null]
    throws before the handler is deleted. *)
Definition destroy (a : nat) (w : World) : World * (Error + unit) :=
  match heap w !! a with
  | None => (w, inr tt)
  | Some p =>
      let w1 := run_on a (fun _ => stopPolling) w in
      if Nat.eqb (iframe p) (originalElement p)
      then (set_messageHandlers (delete (player_id p) (messageHandlers w1)) w1, inr tt)
      else
        match document w1 !! iframe p with
        | Some el =>
            match parentNode el with
            | Some _ =>
                let w2 := replaceChild (originalElement p) (iframe p) w1 in
                (set_messageHandlers (delete (player_id p) (messageHandlers w2)) w2,
                 inr tt)
            | None => (w1, inl TypeError)
            end
        | None => (w1, inl TypeError)
        end
  end.

(** [setSize(width, height)] *)
Definition setSize (a : nat) (width height : value) (w : World) : World :=
  match heap w !! a with
  | Some p =>
      setAttribute (iframe p) "height" (to_String height)
        (setAttribute (iframe p) "width" (to_String width) w)
  | None => w
  end.

(** *** The router *)

(** A [message] event on the window.  [parsed] is [JSON.parse(event.data)],
    [None] when it throws. *)
Record MessageEvent := {
  origin : string;
  parsed : option value
}.

(** The listener that [attachGlobalListener] adds.  [data.id] of [null]
    throws inside the listener and nothing is done. *)
Definition listener (event : MessageEvent) (w : World) : World :=
  if bool_decide (origin event ∈ attachedListeners w)
  then
    match parsed event with
    | None => w
    | Some data =>
        if nullish data then w
        else
          match prop data "id" with
          | VStr i =>
              match messageHandlers w !! i with
              | Some a => run_on a (fun env => handleMessage env data) w
              | None => w
              end
          | _ => w
          end
    end
  else w.

Definition dispatch_message (event : MessageEvent) (w : World) : World :=
  Nat.iter (windowListeners w) (listener event) w.

(** The [load] event of an element runs its listeners in order; the
    browser fires it only on a frame that is in the document. *)
Definition dispatch_load (e : nat) (w : World) : World :=
  match document w !! e with
  | Some el =>
      if isConnected el
      then fold_left (fun w' a => run_on a emitListening w') (loadListeners el) w
      else w
  | None => w
  end.

Definition fire_timer (t : nat) (w : World) : World :=
  match intervals w !! t with
  | Some a => run_on a emitListening w
  | None => w
  end.

(** *** What can happen on the page *)

Inductive Event :=
| New (target : Target) (arg : PlayerOptions)
| Destroy (a : nat)
| Invoke (a : nat) (c : Command)
| AddEventListener (a : nat) (name : string) (handler : Handler)
| RemoveEventListener (a : nat) (name : string) (handler : Handler)
| SetSize (a : nat) (width height : value)
| Message (event : MessageEvent)
| Tick (t : nat)
| Load (e : nat)
| Move (e : nat) (parent : option nat) (connected : bool).

Definition step (w : World) (ev : Event) : World :=
  match ev with
  | New target arg => fst (construct target arg w)
  | Destroy a => fst (destroy a w)
  | Invoke a c => run_on a (fun env => command env c) w
  | AddEventListener a name handler =>
      run_on a (fun env => addEventListener env name handler) w
  | RemoveEventListener a name handler =>
      run_on a (fun env => removeEventListener env name handler) w
  | SetSize a width height => setSize a width height w
  | Message event => dispatch_message event w
  | Tick t => fire_timer t w
  | Load e => dispatch_load e w
  | Move e parent connected => update_element e (set_position parent connected) w
  end.

Definition run (evs : list Event) (w : World) : World := fold_left step evs w.

(** The page before any player exists. *)
Definition initial (doc : list Element) : World :=
  {| next_id := 0; messageHandlers := ∅; attachedListeners := ∅;
     windowListeners := 0; heap := []; document := doc; intervals := ∅;
     next_timer := 0; trace := [] |}.

Definition no_listeners (doc : list Element) : Prop :=
  Forall (fun el => loadListeners el = []) doc.

Definition reachable (w : World) : Prop :=
  exists doc evs, no_listeners doc /\ w = run evs (initial doc).

End Page.
Export Page.

(* ===================================================================== *)
(** ** Notions used in the statements                                     *)
(* ===================================================================== *)

(** The effect of one [#sendMessage]. *)
Definition transmit (env : Env) (p : Player) (data : value) : Effect :=
  if contentWindow env
  then PostMessage (stringify_object (payload p data)) (opt_host (options p))
  else ConsoleLog.

(** The part of [#handleMessage] that does not depend on the kind of the
    message: flush, stop polling, become ready. *)
Definition flushed (p : Player) : Player :=
  set_ready true (set_pollReadiness None (set_messageQueue [] p)).

Definition flush_effects (env : Env) (p : Player) : list Effect :=
  map (transmit env p) (messageQueue p) ++
  match pollReadiness p with
  | Some t => [ClearInterval t]
  | None => []
  end.

Definition deliver (env : Env) (data : value) : Act :=
  fun p =>
    if is_str (prop data "event") "initialDelivery"
    then modify (set_info (prop data "info")) p
    else if is_str (prop data "event") "infoDelivery"
    then modify (set_info (VObj (spread (spread [] (info p)) (prop data "info")))) p
    else if is_str (prop data "event") "apiInfoDelivery"
    then skip p
    else emit env (prop data "event") (prop data "info") p.

(** A page with one placeholder element in the document, and a caller
    that passes no option at all. *)
Definition placeholder : Element :=
  {| tagName := "DIV"; attributes := [("id", "player")]; parentNode := Some 100;
     isConnected := true; loadListeners := [] |}.

Definition no_options : PlayerOptions :=
  {| arg_id := None; arg_videoId := None; arg_width := VUndefined;
     arg_height := VUndefined; arg_title := None; arg_host := None;
     arg_events := None; arg_playerVars := None |}.

(** A message of the remote player for the player [i]. *)
Definition remote_message (i event : string) (info : value) : MessageEvent :=
  {| origin := "https://www.youtube.com";
     parsed := Some (VObj [("id", VStr i); ("event", VStr event); ("info", info)]) |}.

(** A ready player whose frame is in the document. *)
Definition sample_player : Player :=
  {| options := resolve_options 0 no_options; player_id := "c0";
     originalElement := 0; iframe := 1; messageQueue := []; ready := true;
     pollReadiness := None; info := VObj [("volume", VNum 50)]; events := ∅ |}.

Definition in_document : Env := {| this := 0; contentWindow := true |}.

(** What the effects of a method of the player with the frame [frame] add
    to the trace. *)
Definition outputs (frame : nat) (effs : list Effect) : list Output :=
  concat (map (fun e => match e with
                        | PostMessage message targetOrigin => [Posted frame message targetOrigin]
                        | ConsoleLog => [Logged frame]
                        | ClearInterval _ => []
                        | CallHandler handler event => [Called handler event]
                        end) effs).

(** The second document has the load listeners of the first, and no
    listener on an element that the first does not have. *)
Definition doc_extends (doc doc' : list Element) : Prop :=
  forall e,
    loadListeners <$> doc' !! e = loadListeners <$> doc !! e \/
    (doc !! e = None /\ loadListeners <$> doc' !! e = Some []).

(** What the first [emitListening()] of a new player adds to the trace:
    the probe when its frame [el] is in the document, the frame on the
    console otherwise. *)
Definition first_probe (options : Options) (element frame : nat) (el : Element) : Output :=
  if isConnected el
  then Posted frame
         (stringify_object (payload (new_player options element frame) listening_message))
         (opt_host options)
  else Logged frame.

(** The page right after the handshake of a new player has begun: the
    player is in the heap with its timer, the timer runs, the first probe
    is in the trace and the load listener is on the frame. *)
Definition handshaken (options : Options) (element frame : nat) (el : Element)
    (wa : World) : World :=
  {| next_id := next_id wa; messageHandlers := messageHandlers wa;
     attachedListeners := attachedListeners wa; windowListeners := windowListeners wa;
     heap := heap wa ++
             [set_pollReadiness (Some (next_timer wa)) (new_player options element frame)];
     document := <[frame := set_loadListeners (loadListeners el ++ [length (heap wa)]) el]>
                   (document wa);
     intervals := <[next_timer wa := length (heap wa)]> (intervals wa);
     next_timer := S (next_timer wa);
     trace := trace wa ++ [first_probe options element frame el] |}.

(** *** Invariants *)

(** No event name is kept with an empty list of handlers. *)
Definition events_wf (p : Player) : Prop :=
  forall name l, events p !! name = Some l -> l <> [].

(** A ready player has no timer and nothing queued. *)
Definition ready_inv (p : Player) : Prop :=
  ready p = true -> pollReadiness p = None /\ messageQueue p = [].

Definition player_inv (p : Player) : Prop := ready_inv p /\ events_wf p.

(** The fields that are set once, by the constructor. *)
Definition same_identity (p p' : Player) : Prop :=
  options p' = options p /\ player_id p' = player_id p /\
  iframe p' = iframe p /\ originalElement p' = originalElement p.

(** What every method other than the constructor respects: the fields set
    by the constructor stay, the invariant of the player stays, a ready
    player stays ready, and the timer field keeps its timer unless that
    timer is cleared. *)
Definition polite (method : Env -> Act) : Prop :=
  forall env p,
    same_identity p (fst (method env p)) /\
    (player_inv p -> player_inv (fst (method env p))) /\
    (ready p = true -> ready (fst (method env p)) = true) /\
    (forall t, pollReadiness p = Some t ->
               ClearInterval t ∉ snd (method env p) ->
               pollReadiness (fst (method env p)) = Some t).


Record world_inv (w : World) : Prop := {
  inv_players : forall a p, heap w !! a = Some p -> player_inv p;
  inv_timers : forall t a, intervals w !! t = Some a ->
                 exists p, heap w !! a = Some p /\ pollReadiness p = Some t;
  inv_origins : forall h, h ∈ attachedListeners w ->
                  exists a p, heap w !! a = Some p /\ opt_host (options p) = h;
  inv_window : windowListeners w = if bool_decide (attachedListeners w = ∅) then 0 else 1;
  inv_frames : forall a p, heap w !! a = Some p ->
                 exists el, document w !! iframe p = Some el /\ a ∈ loadListeners el;
  inv_listeners : forall e el a, document w !! e = Some el -> a ∈ loadListeners el ->
                    exists p, heap w !! a = Some p /\ iframe p = e;
  inv_nodup : forall e el, document w !! e = Some el -> NoDup (loadListeners el)
}.

(** The page after [new Player('player')] on a page with the
    placeholder. *)
Definition sample_page : World :=
  run [New (TargetId "player") no_options] (initial [placeholder]).

(** A page with two placeholders and two players: the first keeps the
    default host and registers a callback for [onReady], the second is
    configured with another host. *)
Definition second_placeholder : Element :=
  {| tagName := "DIV"; attributes := [("id", "other")]; parentNode := Some 100;
     isConnected := true; loadListeners := [] |}.

Definition with_callback : PlayerOptions :=
  {| arg_id := None; arg_videoId := None; arg_width := VUndefined;
     arg_height := VUndefined; arg_title := None; arg_host := None;
     arg_events := Some [("onReady", 7)]; arg_playerVars := None |}.

Definition other_host : PlayerOptions :=
  {| arg_id := None; arg_videoId := None; arg_width := VUndefined;
     arg_height := VUndefined; arg_title := None;
     arg_host := Some "https://www.youtube-nocookie.com";
     arg_events := None; arg_playerVars := None |}.

Definition two_hosts_page : World :=
  run [New (TargetId "player") with_callback; New (TargetId "other") other_host]
      (initial [placeholder; second_placeholder]).



(** Every player of the first page is a player of the second, with the
    fields the constructor gave it, and ready if it was. *)
Definition carries (w w' : World) : Prop :=
  forall a p,
    heap w !! a = Some p ->
    exists p', heap w' !! a = Some p' /\ same_identity p p' /\
               (ready p = true -> ready p' = true).

(** The probe that the [emitListening] closure of the player [p] posts. *)
Definition probe (p : Player) : Output :=
  Posted (iframe p) (stringify_object (payload p listening_message))
         (opt_host (options p)).

(** *** The rest of the public surface *)

(** [getIframe()] *)
Definition getIframe (p : Player) : nat := iframe p.

(** [getVideoId()]: [this.#info.videoData?.video_id].  [None] is the
    [TypeError] of reading [videoData] of [null] or [undefined]; the
    optional chain turns a missing [videoData] into [undefined]. *)
Definition getVideoId (p : Player) : option value :=
  if nullish (info p) then None
  else if nullish (prop (info p) "videoData") then Some VUndefined
  else Some (prop (prop (info p) "videoData") "video_id").

(** The pairs held by the [URLSearchParams] of [getEmbedUrl] when it is
    written into the URL. *)
Definition embed_params (options : Options) : list (string * string) :=
  params_set "enablejsapi" "1"
    (map (fun kv => (fst kv, to_String (snd kv)))
         (List.filter (fun kv => negb (nullish (snd kv))) (opt_playerVars options))).

(** The handlers kept under a name, none when the name is not kept. *)
Definition handlers_of (p : Player) (name : string) : list Handler :=
  default [] (events p !! name).

(** The message that subscribes to the events of a name. *)
Definition subscribe (name : string) : value :=
  command_message "addEventListener" (VArr [VStr name]).

(** What one firing of the probe of the player [p] adds to the trace of
    the page [w]. *)
Definition probe_entry (w : World) (p : Player) : Output :=
  if has_contentWindow w (iframe p) then probe p else Logged (iframe p).

(** Every construction of the run leaves the identifier to the library. *)
Definition default_ids (evs : list Event) : Prop :=
  Forall (fun ev => match ev with
                    | New _ arg => arg_id arg = None
                    | _ => True
                    end) evs.

(** The identifiers in the router are among those handed out so far. *)
Definition ids_handed_out (w : World) : Prop :=
  forall i a, messageHandlers w !! i = Some a ->
              exists n, n < next_id w /\ i = "c" +:+ dec_nat n.

(** A call of the command surface or of the event subscription of the
    player [a]. *)
Definition api_call (a : nat) (ev : Event) : Prop :=
  match ev with
  | Invoke b _ | AddEventListener b _ _ | RemoveEventListener b _ _ => b = a
  | _ => False
  end.

(** Splits the four parts of [polite]. *)
Ltac polite_split := split; [|split; [|split]].

(* ===================================================================== *)
(** ** Properties of the value layer                                      *)
(* ===================================================================== *)

Lemma assoc_get_app {A : Type} (k : string) (a b : list (string * A)) :
  assoc_get k (a ++ b) =
  match assoc_get k b with
  | Some y => Some y
  | None => assoc_get k a
  end.
Proof.
  induction a as [|[k1 x1] a IH]; simpl.
  - destruct (assoc_get k b); reflexivity.
  - rewrite IH. destruct (assoc_get k b); reflexivity.
Qed.

Lemma assoc_get_replace {A : Type} (k k' : string) (x : A) (fs : list (string * A)) :
  assoc_get k (map (fun kv => if String.eqb k' (fst kv) then (fst kv, x) else kv) fs) =
  if String.eqb k k'
  then match assoc_get k' fs with Some _ => Some x | None => None end
  else assoc_get k fs.
Proof.
  induction fs as [|[k1 x1] fs IH]; simpl.
  - destruct (String.eqb k k'); reflexivity.
  - rewrite IH. clear IH.
    destruct (String.eqb_spec k' k1) as [E1|E1]; simpl;
      destruct (String.eqb_spec k k1) as [E2|E2];
      destruct (String.eqb_spec k k') as [E3|E3];
      try congruence; subst;
      repeat match goal with
             | |- context [assoc_get ?a ?l] => destruct (assoc_get a l)
             end; try reflexivity; try congruence.
Qed.

Lemma assoc_get_set {A : Type} (k k' : string) (x : A) (fs : list (string * A)) :
  assoc_get k (assoc_set k' x fs) =
  if String.eqb k k' then Some x else assoc_get k fs.
Proof.
  unfold assoc_set, assoc_has.
  destruct (assoc_get k' fs) eqn:E.
  - rewrite assoc_get_replace, E. reflexivity.
  - rewrite assoc_get_app. simpl.
    destruct (String.eqb k k') eqn:Ekk; [reflexivity|reflexivity].
Qed.

Lemma assoc_get_fold_set (k : string) (l acc : list (string * value)) :
  assoc_get k (fold_left (fun o kv => assoc_set (fst kv) (snd kv) o) l acc) =
  match assoc_get k l with
  | Some y => Some y
  | None => assoc_get k acc
  end.
Proof.
  revert acc. induction l as [|[k1 x1] l IH]; intros acc; simpl.
  - reflexivity.
  - rewrite IH, assoc_get_set.
    destruct (assoc_get k l); [reflexivity|].
    destruct (String.eqb k k1); reflexivity.
Qed.

(** [JSON.stringify] of an object is the text of its members. *)
Lemma stringify_VObj (fs : list (string * value)) :
  stringify (VObj fs) = Some (stringify_object fs).
Proof. reflexivity. Qed.

(** Reading a property of [{ ...acc, ...v }]: the properties of [v] win. *)
Lemma assoc_get_spread (k : string) (acc : list (string * value)) (v : value) :
  assoc_get k (spread acc v) =
  match assoc_get k (own_props v) with
  | Some y => Some y
  | None => assoc_get k acc
  end.
Proof. unfold spread. apply assoc_get_fold_set. Qed.

(* ===================================================================== *)
(** ** Properties of one player                                           *)
(* ===================================================================== *)

Lemma for_each_tell {A : Type} (f : A -> Effect) (l : list A) (p : Player) :
  for_each (fun x => tell (f x)) l p = (p, map f l).
Proof.
  induction l as [|x l IH]; simpl; [reflexivity|].
  unfold seq. simpl. rewrite IH. reflexivity.
Qed.

Lemma sendMessage_fields (env : Env) (data : value) (p : Player) :
  fst (sendMessage env data p) = p.
Proof. unfold sendMessage. destruct (contentWindow env); reflexivity. Qed.

Lemma sendMessage_eq (env : Env) (data : value) (p : Player) :
  sendMessage env data p = (p, [transmit env p data]).
Proof. unfold sendMessage, transmit. destruct (contentWindow env); reflexivity. Qed.

Lemma for_each_sendMessage (env : Env) (l : list value) (p : Player) :
  for_each (sendMessage env) l p = (p, map (transmit env p) l).
Proof.
  induction l as [|x l IH]; simpl; [reflexivity|].
  unfold seq. rewrite sendMessage_eq. simpl. rewrite IH. reflexivity.
Qed.

Lemma handleMessage_eq (env : Env) (data : value) (p : Player) :
  handleMessage env data p =
  (fst (deliver env data (flushed p)),
   flush_effects env p ++ snd (deliver env data (flushed p))).
Proof.
  unfold handleMessage, flush_effects, flushed, deliver, seq, stopPolling.
  destruct p as [o i oe fr q r pr inf evs]; simpl.
  destruct q as [|m q]; simpl.
  - destruct pr; simpl; reflexivity.
  - rewrite sendMessage_eq. simpl.
    rewrite for_each_sendMessage. simpl.
    destruct pr; simpl; rewrite ?app_nil_r, <- ?app_assoc; reflexivity.
Qed.

Lemma emit_fields (env : Env) (type data : value) (p : Player) :
  fst (emit env type data p) = p.
Proof.
  unfold emit. destruct type; try reflexivity.
  destruct (events p !! s); [|reflexivity].
  rewrite for_each_tell. reflexivity.
Qed.

(** C4. An [infoDelivery] message merges its [info] into the cached
    snapshot: the new snapshot is an object in which every field of the
    message has the message's value and every other field keeps the value
    it had.  An [initialDelivery] message replaces the snapshot by its
    [info]. *)
Theorem infoDelivery_merges_and_initialDelivery_replaces
    (env : Env) (data : value) (p : Player) :
  (prop data "event" = VStr "infoDelivery" ->
   exists fs,
     info (fst (handleMessage env data p)) = VObj fs /\
     forall k,
       assoc_get k fs =
       match assoc_get k (own_props (prop data "info")) with
       | Some v => Some v
       | None => assoc_get k (own_props (info p))
       end) /\
  (prop data "event" = VStr "initialDelivery" ->
   info (fst (handleMessage env data p)) = prop data "info").
Proof.
  rewrite handleMessage_eq. simpl. unfold deliver. split; intros H; rewrite H; simpl.
  - eexists. split; [reflexivity|]. intros k.
    rewrite !assoc_get_spread. simpl.
    destruct (assoc_get k (own_props (prop data "info"))); [reflexivity|].
    destruct (assoc_get k (own_props (info p))); reflexivity.
  - reflexivity.
Qed.

Lemma infoDelivery_merges_witness :
  getVolume (fst (handleMessage in_document
                    (VObj [("event", VStr "infoDelivery");
                           ("info", VObj [("muted", VBool true)])])
                    sample_player)) = Some (VNum 50) /\
  isMuted (fst (handleMessage in_document
                    (VObj [("event", VStr "infoDelivery");
                           ("info", VObj [("muted", VBool true)])])
                    sample_player)) = Some (VBool true).
Proof.
  destruct (proj1 (infoDelivery_merges_and_initialDelivery_replaces in_document
                     (VObj [("event", VStr "infoDelivery");
                            ("info", VObj [("muted", VBool true)])])
                     sample_player) eq_refl) as [fs [Hfs Hget]].
  unfold getVolume, isMuted, getter, prop. rewrite Hfs. simpl.
  rewrite !Hget. split; reflexivity.
Defined.

(** The three ways a call of [#sendCommand] can go. *)
Lemma sendCommand_cases (env : Env) (func : string) (args : value) (p : Player) :
  (ready p = false ->
   sendCommand env func args p =
   (set_messageQueue (messageQueue p ++ [command_message func args]) p, [])) /\
  (ready p = true -> contentWindow env = true ->
   sendCommand env func args p =
   (p, [PostMessage (stringify_object (payload p (command_message func args)))
                    (opt_host (options p))])) /\
  (ready p = true -> contentWindow env = false ->
   sendCommand env func args p = (p, [ConsoleLog])).
Proof.
  unfold sendCommand, sendMessage.
  repeat split; intros Hr; try intros Hw; rewrite Hr; try rewrite Hw; reflexivity.
Qed.

(** C3, as the code has it.  A command issued through the command surface
    is appended to the queue when the player is not ready and is handed to
    [#sendMessage] when it is, never both.  [#sendMessage] posts it when
    the frame has a content window; when it has none, the frame is written
    to the console and the command is gone. *)
Theorem command_queued_or_handed_to_sendMessage
    (env : Env) (c : Command) (p : Player) :
  (ready p = false ->
   command env c p =
   (set_messageQueue (messageQueue p ++ [command_message (func_of c) (args_of c)]) p,
    [])) /\
  (ready p = true -> contentWindow env = true ->
   command env c p =
   (p, [PostMessage
          (stringify_object (payload p (command_message (func_of c) (args_of c))))
          (opt_host (options p))])) /\
  (ready p = true -> contentWindow env = false ->
   command env c p = (p, [ConsoleLog])).
Proof. apply sendCommand_cases. Qed.

Lemma command_queued_or_handed_to_sendMessage_witness :
  command in_document playVideo sample_player =
  (sample_player,
   [PostMessage
      (stringify_object (payload sample_player (command_message "playVideo" (VArr []))))
      "https://www.youtube.com"]).
Proof.
  apply (proj1 (proj2 (command_queued_or_handed_to_sendMessage
                         in_document playVideo sample_player)));
    reflexivity.
Defined.

(** C3 fails as stated: a player is made for a placeholder, the remote end
    answers, the player is destroyed (its frame leaves the document) and
    [playVideo] is called.  The player is ready, the command is not
    queued, and nothing is posted: the frame is logged instead. *)
Lemma command_after_destroy_is_dropped :
  let w := run [New (TargetId "player") no_options;
                Message (remote_message "c0" "onReady" VNull);
                Destroy 0] (initial [placeholder]) in
  let w' := step w (Invoke 0 playVideo) in
  ready <$> heap w !! 0 = Some true /\
  messageQueue <$> heap w !! 0 = Some [] /\
  messageQueue <$> heap w' !! 0 = Some [] /\
  trace w' = trace w ++ [Logged 1].
Proof. vm_compute. repeat split. Qed.

(** The members of the two kinds of message that the program writes. *)
Lemma listening_wire_format (p : Player) :
  json_members (payload p listening_message) =
  [("event", JStr "listening"); ("id", JStr (player_id p)); ("channel", JStr "widget")].
Proof. reflexivity. Qed.

Lemma command_wire_format (p : Player) (func : string) (args : list value) :
  json_members (payload p (command_message func (VArr args))) =
  [("event", JStr "command"); ("func", JStr func);
   ("args", JArr (map (fun x => match to_json x with
                                | Some j => j
                                | None => JNull
                                end) args));
   ("id", JStr (player_id p)); ("channel", JStr "widget")].
Proof. reflexivity. Qed.

(** C7, at the failing input.  [mute()] and [unMute()] call [#sendCommand]
    without a second argument, so [args] is [undefined] and
    [JSON.stringify] leaves the property out: the message posted for them
    has the members [event], [func], [id] and [channel] and no [args]. *)
Theorem mute_message_has_no_args (env : Env) (c : Command) (p : Player) :
  c = mute \/ c = unMute ->
  ready p = true ->
  contentWindow env = true ->
  command env c p =
  (p, [PostMessage
         (render (JObj [("event", JStr "command"); ("func", JStr (func_of c));
                        ("id", JStr (player_id p)); ("channel", JStr "widget")]))
         (opt_host (options p))]).
Proof.
  intros Hc Hr Hw.
  unfold command.
  rewrite (proj1 (proj2 (sendCommand_cases env (func_of c) (args_of c) p)) Hr Hw).
  destruct Hc as [-> | ->]; reflexivity.
Qed.

Lemma mute_message_has_no_args_witness :
  command in_document mute sample_player =
  (sample_player,
   [PostMessage
      (render (JObj [("event", JStr "command"); ("func", JStr "mute");
                     ("id", JStr "c0"); ("channel", JStr "widget")]))
      "https://www.youtube.com"]).
Proof.
  apply (mute_message_has_no_args in_document mute sample_player);
    [left; reflexivity | reflexivity | reflexivity].
Defined.

(** C8 fails as stated: a player made for a placeholder with no option at
    all gets a frame created by the library, and that frame has a [width]
    and a [height] attribute. *)
Lemma frame_without_given_dimensions_has_them :
  let w := fst (construct (TargetId "player") no_options (initial [placeholder])) in
  exists p el,
    heap w !! 0 = Some p /\
    iframe p <> originalElement p /\
    document w !! iframe p = Some el /\
    assoc_get "width" (attributes el) = Some "640" /\
    assoc_get "height" (attributes el) = Some "390".
Proof.
  vm_compute. eexists. eexists. repeat split; try reflexivity. discriminate.
Qed.

(* ===================================================================== *)
(** ** Every method is polite                                             *)
(* ===================================================================== *)

Lemma same_identity_refl (p : Player) : same_identity p p.
Proof. repeat split. Qed.

Lemma same_identity_trans (p q r : Player) :
  same_identity p q -> same_identity q r -> same_identity p r.
Proof. unfold same_identity. intros (?&?&?&?) (?&?&?&?). repeat split; congruence. Qed.

Lemma polite_seq (m1 m2 : Env -> Act) :
  polite m1 -> polite m2 -> polite (fun env => (m1 env ;; m2 env)).
Proof.
  intros H1 H2 env p. unfold seq. simpl.
  destruct (H1 env p) as (I1 & P1 & R1 & T1).
  destruct (H2 env (fst (m1 env p))) as (I2 & P2 & R2 & T2).
  polite_split.
  - eapply same_identity_trans; eauto.
  - intros H. apply P2, P1, H.
  - auto.
  - intros t Ht Hn. apply T2.
    + apply T1; [exact Ht|]. intros Hin. apply Hn. apply elem_of_app. left. exact Hin.
    + intros Hin. apply Hn. apply elem_of_app. right. exact Hin.
Qed.

(** A method that leaves the fields alone and clears no timer. *)
Lemma polite_pure (m : Env -> Act) :
  (forall env p, fst (m env p) = p) ->
  (forall env p t, ClearInterval t ∉ snd (m env p)) ->
  polite m.
Proof.
  intros Hf Hc env p. rewrite Hf. polite_split; auto using same_identity_refl.
Qed.

Lemma polite_skip : polite (fun _ => skip).
Proof.
  apply polite_pure; [reflexivity|]. intros env p t Hin. simpl in Hin. inversion Hin.
Qed.

Lemma polite_for_each {A : Type} (f : Env -> A -> Act) (l : list A) :
  (forall x, polite (fun env => f env x)) ->
  polite (fun env => for_each (f env) l).
Proof.
  intros Hf. induction l as [|x l IH]; simpl.
  - apply polite_skip.
  - apply (polite_seq (fun env => f env x) (fun env => for_each (f env) l)); auto.
Qed.

Lemma polite_sendMessage (data : value) : polite (fun env => sendMessage env data).
Proof.
  apply polite_pure.
  - intros env p. apply sendMessage_fields.
  - intros env p t Hin. rewrite sendMessage_eq in Hin. simpl in Hin.
    apply list_elem_of_singleton in Hin. unfold transmit in Hin.
    destruct (contentWindow env); discriminate.
Qed.

Lemma polite_emitListening : polite emitListening.
Proof. apply polite_sendMessage. Qed.

Lemma polite_stopPolling : polite (fun _ => stopPolling).
Proof.
  intros env p. unfold stopPolling.
  destruct (pollReadiness p) as [t|] eqn:Hp; simpl.
  - polite_split.
    + repeat split.
    + intros [Hi He]. split; [|exact He].
      intros Hr. destruct (Hi Hr) as [Hn _]. congruence.
    + auto.
    + intros t' Ht Hn. exfalso. apply Hn. inversion Ht. subst.
      apply list_elem_of_singleton. reflexivity.
  - polite_split; auto using same_identity_refl. congruence.
Qed.

Lemma deliver_fields (env : Env) (data : value) (q : Player) :
  fst (deliver env data q) = q \/ exists v, fst (deliver env data q) = set_info v q.
Proof.
  unfold deliver.
  destruct (is_str (prop data "event") "initialDelivery"); [right; eexists; reflexivity|].
  destruct (is_str (prop data "event") "infoDelivery"); [right; eexists; reflexivity|].
  destruct (is_str (prop data "event") "apiInfoDelivery"); [left; reflexivity|].
  left. apply emit_fields.
Qed.

Lemma handleMessage_fields (env : Env) (data : value) (p : Player) :
  let p' := fst (handleMessage env data p) in
  ready p' = true /\ pollReadiness p' = None /\ messageQueue p' = [] /\
  events p' = events p /\ same_identity p p'.
Proof.
  cbv zeta. rewrite handleMessage_eq. simpl.
  destruct (deliver_fields env data (flushed p)) as [-> | [v ->]];
    repeat split.
Qed.

Lemma polite_handleMessage (data : value) : polite (fun env => handleMessage env data).
Proof.
  intros env p.
  destruct (handleMessage_fields env data p) as (Hr & Hp & Hq & He & Hi).
  polite_split.
  - exact Hi.
  - intros [_ Hw]. split.
    + intros _. split; assumption.
    + intros name l. rewrite He. apply Hw.
  - intros _. exact Hr.
  - intros t Ht Hn. exfalso. apply Hn.
    rewrite handleMessage_eq. simpl. unfold flush_effects. rewrite Ht.
    apply elem_of_app. left. apply elem_of_app. right.
    apply list_elem_of_singleton. reflexivity.
Qed.

Lemma polite_sendCommand (func : string) (args : value) :
  polite (fun env => sendCommand env func args).
Proof.
  intros env p. unfold sendCommand.
  destruct (ready p) eqn:Hr.
  - pose proof (polite_sendMessage (command_message func args) env p) as (I & P & R & T).
    polite_split; auto.
  - simpl. polite_split.
    + repeat split.
    + intros [Hi He]. split; [|exact He]. intros Hr'. simpl in Hr'. congruence.
    + intros Hr'. congruence.
    + intros t Ht _. exact Ht.
Qed.

Lemma polite_command (c : Command) : polite (fun env => command env c).
Proof. apply polite_sendCommand. Qed.

Lemma polite_set_events (m : gmap string (list Handler)) (p : Player) :
  (events_wf p -> forall name l, m !! name = Some l -> l <> []) ->
  same_identity p (set_events m p) /\
  (player_inv p -> player_inv (set_events m p)) /\
  (ready p = true -> ready (set_events m p) = true) /\
  (forall t, pollReadiness p = Some t -> pollReadiness (set_events m p) = Some t).
Proof.
  intros Hm. polite_split.
  - repeat split.
  - intros [Hi He]. split; [exact Hi | exact (Hm He)].
  - auto.
  - auto.
Qed.

Lemma polite_after_set_events (m : gmap string (list Handler)) (method : Env -> Act)
    (env : Env) (p : Player) :
  (events_wf p -> forall name l, m !! name = Some l -> l <> []) ->
  polite method ->
  same_identity p (fst (method env (set_events m p))) /\
  (player_inv p -> player_inv (fst (method env (set_events m p)))) /\
  (ready p = true -> ready (fst (method env (set_events m p))) = true) /\
  (forall t, pollReadiness p = Some t ->
             ClearInterval t ∉ snd (method env (set_events m p)) ->
             pollReadiness (fst (method env (set_events m p))) = Some t).
Proof.
  intros Hm Hp.
  destruct (polite_set_events m p Hm) as (I1 & P1 & R1 & T1).
  destruct (Hp env (set_events m p)) as (I2 & P2 & R2 & T2).
  polite_split.
  - exact (same_identity_trans _ _ _ I1 I2).
  - intros H. apply P2, P1, H.
  - intros H. apply R2, R1, H.
  - intros t Ht Hn. apply T2; auto.
Qed.

Lemma polite_addEventListener (name : string) (handler : Handler) :
  polite (fun env => addEventListener env name handler).
Proof.
  intros env p. unfold addEventListener.
  destruct (events p !! name) as [list|] eqn:He.
  - apply (polite_after_set_events _ (fun _ => skip) env p); [|apply polite_skip].
    intros Hw n l. rewrite lookup_insert. case_decide.
    + intros [= <-]. destruct list; discriminate.
    + apply Hw.
  - apply (polite_after_set_events _
             (fun env => sendCommand env "addEventListener" (VArr [VStr name])) env p);
      [|apply polite_sendCommand].
    intros Hw n l. rewrite lookup_insert. case_decide.
    + intros [= <-]. discriminate.
    + apply Hw.
Qed.

Lemma polite_removeEventListener (name : string) (handler : Handler) :
  polite (fun env => removeEventListener env name handler).
Proof.
  intros env p. unfold removeEventListener.
  destruct (events p !! name) as [list|] eqn:He.
  - destruct (remove_first handler list) as [|h' rest] eqn:Hl.
    + (* the list becomes empty: the command goes out and the name is deleted *)
      unfold seq. simpl.
      pose proof (polite_sendCommand "removeEventListener" (VArr [VStr name]) env
                    (set_events (<[name := []]> (events p)) p)) as (I & P & R & T).
      set (r := sendCommand env "removeEventListener" (VArr [VStr name])
                  (set_events (<[name := []]> (events p)) p)) in *.
      assert (Hev : events (fst r) = <[name := []]> (events p)).
      { unfold r, sendCommand. simpl. destruct (ready p); [|reflexivity].
        rewrite sendMessage_fields. reflexivity. }
      assert (Hq : ready p = true -> messageQueue (fst r) = messageQueue p).
      { intros Hr. unfold r, sendCommand. simpl. rewrite Hr.
        rewrite sendMessage_fields. reflexivity. }
      assert (Hpoll : pollReadiness (fst r) = pollReadiness p).
      { unfold r, sendCommand. simpl. destruct (ready p); [|reflexivity].
        rewrite sendMessage_fields. reflexivity. }
      assert (Hrd : ready (fst r) = ready p).
      { unfold r, sendCommand. simpl. destruct (ready p) eqn:E; [|exact E].
        rewrite sendMessage_fields. exact E. }
      polite_split.
      * destruct I as (?&?&?&?). repeat split; simpl; assumption.
      * intros [Hi Hw]. split.
        -- intros Hr. simpl in Hr. rewrite Hrd in Hr. simpl.
           destruct (Hi Hr) as [Hp Hqq]. split; [congruence|].
           rewrite (Hq Hr). exact Hqq.
        -- intros n l. simpl. rewrite Hev. rewrite lookup_delete.
           case_decide; [discriminate|]. rewrite lookup_insert_ne by assumption.
           apply Hw.
      * intros Hr. simpl. congruence.
      * intros t Ht Hn. simpl. congruence.
    + simpl. unfold seq. simpl.
      destruct (polite_set_events (<[name := h' :: rest]> (events p)) p) as (I & P & R & T).
      { intros Hw n l. rewrite lookup_insert. case_decide.
        - intros [= <-]. discriminate.
        - apply Hw. }
      polite_split; auto.
  - exact (polite_skip env p).
Qed.

(* ===================================================================== *)
(** ** Running methods on the page                                        *)
(* ===================================================================== *)

Section ApplyEffects.

Variable frame : nat.

Lemma apply_effects_fields (effs : list Effect) (w : World) :
  let w' := fold_left (apply_effect frame) effs w in
  heap w' = heap w /\ document w' = document w /\
  messageHandlers w' = messageHandlers w /\
  attachedListeners w' = attachedListeners w /\
  windowListeners w' = windowListeners w /\
  next_id w' = next_id w /\ next_timer w' = next_timer w.
Proof.
  revert w. induction effs as [|e effs IH]; intros w; simpl.
  - repeat split.
  - destruct (IH (apply_effect frame w e)) as (H1 & H2 & H3 & H4 & H5 & H6 & H7).
    rewrite H1, H2, H3, H4, H5, H6, H7.
    destruct e; repeat split.
Qed.

Lemma apply_effects_trace (effs : list Effect) (w : World) :
  trace (fold_left (apply_effect frame) effs w) = trace w ++ outputs frame effs.
Proof.
  revert w. induction effs as [|e effs IH]; intros w; simpl.
  - rewrite app_nil_r. reflexivity.
  - rewrite IH. unfold outputs. simpl.
    destruct e; simpl; rewrite <- ?app_assoc; reflexivity.
Qed.

Lemma apply_effects_intervals (effs : list Effect) (w : World) (t a : nat) :
  intervals (fold_left (apply_effect frame) effs w) !! t = Some a ->
  intervals w !! t = Some a /\ ClearInterval t ∉ effs.
Proof.
  revert w. induction effs as [|e effs IH]; intros w; simpl.
  - intros H. split; [exact H|]. apply not_elem_of_nil.
  - intros H. destruct (IH _ H) as [H1 H2].
    destruct e; simpl in H1;
      try (split; [exact H1|]; intros Hin; apply elem_of_cons in Hin;
           destruct Hin as [Hin|Hin]; [discriminate|contradiction]).
    rewrite lookup_delete in H1. case_decide; [discriminate|].
    split; [exact H1|].
    intros Hin. apply elem_of_cons in Hin. destruct Hin as [Hin|Hin]; [|contradiction].
    congruence.
Qed.

Lemma apply_effects_intervals_keep (effs : list Effect) (w : World) (t : nat) :
  intervals w !! t = None ->
  intervals (fold_left (apply_effect frame) effs w) !! t = None.
Proof.
  intros Hn. destruct (intervals (fold_left (apply_effect frame) effs w) !! t) eqn:E;
    [|reflexivity].
  apply apply_effects_intervals in E. destruct E as [E _]. congruence.
Qed.

End ApplyEffects.

Lemma run_on_eq (a : nat) (method : Env -> Act) (w : World) (p : Player) :
  heap w !! a = Some p ->
  run_on a method w =
  fold_left (apply_effect (iframe p))
    (snd (method {| this := a; contentWindow := has_contentWindow w (iframe p) |} p))
    (set_heap (<[a := fst (method {| this := a;
                                      contentWindow := has_contentWindow w (iframe p) |} p)]>
                 (heap w)) w).
Proof. intros H. unfold run_on. rewrite H. reflexivity. Qed.

Lemma run_on_none (a : nat) (method : Env -> Act) (w : World) :
  heap w !! a = None -> run_on a method w = w.
Proof. intros H. unfold run_on. rewrite H. reflexivity. Qed.

(** What a method run on the page leaves alone. *)
Lemma run_on_fields (a : nat) (method : Env -> Act) (w : World) :
  let w' := run_on a method w in
  document w' = document w /\
  messageHandlers w' = messageHandlers w /\
  attachedListeners w' = attachedListeners w /\
  windowListeners w' = windowListeners w /\
  next_id w' = next_id w /\ next_timer w' = next_timer w /\
  length (heap w') = length (heap w).
Proof.
  cbv zeta. destruct (heap w !! a) as [p|] eqn:Hp.
  - rewrite (run_on_eq _ _ _ _ Hp).
    match goal with
    | |- context [fold_left (apply_effect ?f) ?effs ?w0] =>
        destruct (apply_effects_fields f effs w0) as (H1 & H2 & H3 & H4 & H5 & H6 & H7)
    end.
    rewrite H1, H2, H3, H4, H5, H6, H7. simpl.
    rewrite length_insert. repeat split.
  - rewrite (run_on_none _ _ _ Hp). repeat split.
Qed.

(** The players after a method has run: the one it ran on is updated. *)
Lemma run_on_heap (a : nat) (method : Env -> Act) (w : World) (a' : nat) :
  heap (run_on a method w) !! a' =
  match heap w !! a' with
  | Some p =>
      if decide (a' = a)
      then Some (fst (method {| this := a;
                                contentWindow := has_contentWindow w (iframe p) |} p))
      else Some p
  | None => None
  end.
Proof.
  destruct (heap w !! a) as [p|] eqn:Hp.
  - rewrite (run_on_eq _ _ _ _ Hp).
    match goal with
    | |- context [fold_left (apply_effect ?f) ?effs ?w0] =>
        destruct (apply_effects_fields f effs w0) as (H1 & _)
    end.
    rewrite H1. simpl.
    destruct (decide (a' = a)) as [->|Hne].
    + rewrite Hp. rewrite list_lookup_insert_eq; [reflexivity|].
      apply lookup_lt_Some in Hp. exact Hp.
    + rewrite list_lookup_insert_ne by congruence.
      destruct (heap w !! a'); reflexivity.
  - rewrite (run_on_none _ _ _ Hp).
    destruct (heap w !! a') eqn:E; [|reflexivity].
    destruct (decide (a' = a)) as [->|Hne]; [congruence|reflexivity].
Qed.

Lemma run_on_trace (a : nat) (method : Env -> Act) (w : World) (p : Player) :
  heap w !! a = Some p ->
  trace (run_on a method w) =
  trace w ++ outputs (iframe p)
    (snd (method {| this := a; contentWindow := has_contentWindow w (iframe p) |} p)).
Proof.
  intros Hp. rewrite (run_on_eq _ _ _ _ Hp). rewrite apply_effects_trace. reflexivity.
Qed.

Lemma run_on_forward (a : nat) (method : Env -> Act) (w : World) (a' : nat) (p : Player) :
  polite method ->
  heap w !! a' = Some p ->
  exists p',
    heap (run_on a method w) !! a' = Some p' /\
    same_identity p p' /\
    (player_inv p -> player_inv p') /\
    (ready p = true -> ready p' = true).
Proof.
  intros Hpol Hp. rewrite run_on_heap, Hp.
  destruct (decide (a' = a)) as [->|Hne].
  - eexists. split; [reflexivity|].
    destruct (Hpol {| this := a; contentWindow := has_contentWindow w (iframe p) |} p)
      as (I & P & R & T).
    split; [exact I|split; [exact P|exact R]].
  - exists p. split; [reflexivity|]. split; [apply same_identity_refl|]. auto.
Qed.

Lemma run_on_backward (a : nat) (method : Env -> Act) (w : World) (a' : nat) (p' : Player) :
  polite method ->
  heap (run_on a method w) !! a' = Some p' ->
  exists p,
    heap w !! a' = Some p /\
    same_identity p p' /\
    (player_inv p -> player_inv p').
Proof.
  intros Hpol Hp'. rewrite run_on_heap in Hp'.
  destruct (heap w !! a') as [p|] eqn:Hp; [|discriminate].
  exists p. split; [reflexivity|].
  destruct (decide (a' = a)) as [->|Hne]; inversion Hp'; subst.
  - destruct (Hpol {| this := a; contentWindow := has_contentWindow w (iframe p) |} p)
      as (I & P & R & T).
    split; assumption.
  - split; [apply same_identity_refl|auto].
Qed.

Lemma run_on_intervals (a : nat) (method : Env -> Act) (w : World) (t a' : nat) :
  polite method ->
  intervals (run_on a method w) !! t = Some a' ->
  intervals w !! t = Some a' /\
  forall p, heap w !! a' = Some p -> pollReadiness p = Some t ->
            exists p', heap (run_on a method w) !! a' = Some p' /\
                       pollReadiness p' = Some t.
Proof.
  intros Hpol Ht.
  destruct (heap w !! a) as [q|] eqn:Hq.
  - rewrite (run_on_eq _ _ _ _ Hq) in Ht.
    apply apply_effects_intervals in Ht. simpl in Ht. destruct Ht as [Ht Hn].
    split; [exact Ht|]. intros p Hp Hpoll.
    rewrite run_on_heap, Hp.
    destruct (decide (a' = a)) as [->|Hne].
    + eexists. split; [reflexivity|].
      assert (p = q) by congruence. subst q.
      destruct (Hpol {| this := a; contentWindow := has_contentWindow w (iframe p) |} p)
        as (I & P & R & T).
      apply T; assumption.
    + exists p. split; [reflexivity|assumption].
  - rewrite (run_on_none _ _ _ Hq) in *. split; [exact Ht|].
    intros p Hp Hpoll. exists p. split; assumption.
Qed.

(** The invariant of the page is kept by every polite method. *)
Lemma run_on_inv (a : nat) (method : Env -> Act) (w : World) :
  polite method -> world_inv w -> world_inv (run_on a method w).
Proof.
  intros Hpol [Hpl Htm Hor Hwin Hfr Hls Hnd].
  destruct (run_on_fields a method w) as (Hdoc & Hmh & Hat & Hwl & _ & _ & _).
  constructor.
  - intros a' p' Hp'.
    destruct (run_on_backward _ _ _ _ _ Hpol Hp') as (p & Hp & _ & Hinv).
    apply Hinv. eapply Hpl. exact Hp.
  - intros t a' Ht.
    destruct (run_on_intervals _ _ _ _ _ Hpol Ht) as [Ht0 Hkeep].
    destruct (Htm _ _ Ht0) as (p & Hp & Hpoll).
    apply (Hkeep p Hp Hpoll).
  - intros h Hh. rewrite Hat in Hh.
    destruct (Hor h Hh) as (a0 & p0 & Hp0 & Hhost).
    destruct (run_on_forward a method w a0 p0 Hpol Hp0) as (p' & Hp' & (Ho & _) & _).
    exists a0, p'. split; [exact Hp'|]. rewrite Ho. exact Hhost.
  - rewrite Hwl, Hat. exact Hwin.
  - intros a' p' Hp'.
    destruct (run_on_backward _ _ _ _ _ Hpol Hp') as (p & Hp & (_ & _ & Hi & _) & _).
    rewrite Hdoc, Hi. apply (Hfr a' p Hp).
  - intros e el a' He Hin. rewrite Hdoc in He.
    destruct (Hls e el a' He Hin) as (p & Hp & Hi).
    destruct (run_on_forward a method w a' p Hpol Hp) as (p' & Hp' & (_ & _ & Hi' & _) & _).
    exists p'. split; [exact Hp'|]. congruence.
  - intros e el He. rewrite Hdoc in He. apply (Hnd e el He).
Qed.

(** *** Changes of the document *)

Lemma doc_extends_refl (doc : list Element) : doc_extends doc doc.
Proof. intros e. left. reflexivity. Qed.

Lemma doc_extends_trans (d1 d2 d3 : list Element) :
  doc_extends d1 d2 -> doc_extends d2 d3 -> doc_extends d1 d3.
Proof.
  intros H12 H23 e.
  destruct (H23 e) as [H|[Hn H]].
  - rewrite H. apply H12.
  - right. split; [|exact H].
    destruct (H12 e) as [H'|[Hn' _]]; [|exact Hn'].
    rewrite Hn in H'. simpl in H'. destruct (d1 !! e); [discriminate|reflexivity].
Qed.

Lemma update_element_document (e : nat) (f : Element -> Element) (w : World) (e' : nat) :
  document (update_element e f w) !! e' =
  if decide (e' = e) then f <$> document w !! e' else document w !! e'.
Proof.
  unfold update_element.
  destruct (document w !! e) as [el|] eqn:He; simpl.
  - destruct (decide (e' = e)) as [->|Hne].
    + rewrite He. simpl. apply list_lookup_insert_eq. apply lookup_lt_Some in He. exact He.
    + apply list_lookup_insert_ne. congruence.
  - destruct (decide (e' = e)) as [->|Hne]; [rewrite He|]; reflexivity.
Qed.

Lemma update_element_fields (e : nat) (f : Element -> Element) (w : World) :
  let w' := update_element e f w in
  heap w' = heap w /\ intervals w' = intervals w /\
  messageHandlers w' = messageHandlers w /\
  attachedListeners w' = attachedListeners w /\
  windowListeners w' = windowListeners w /\
  next_id w' = next_id w /\ next_timer w' = next_timer w /\
  trace w' = trace w /\ length (document w') = length (document w).
Proof.
  cbv zeta. unfold update_element. destruct (document w !! e); simpl;
    rewrite ?length_insert; repeat split.
Qed.

Lemma update_element_extends (e : nat) (f : Element -> Element) (w : World) :
  (forall el, loadListeners (f el) = loadListeners el) ->
  doc_extends (document w) (document (update_element e f w)).
Proof.
  intros Hf e'. left. rewrite update_element_document.
  destruct (decide (e' = e)); [|reflexivity].
  destruct (document w !! e'); simpl; [rewrite Hf|]; reflexivity.
Qed.

(** The invariant looks at the document through its load listeners
    only. *)
Lemma world_inv_document (w w' : World) :
  world_inv w ->
  heap w' = heap w -> intervals w' = intervals w ->
  attachedListeners w' = attachedListeners w ->
  windowListeners w' = windowListeners w ->
  doc_extends (document w) (document w') ->
  world_inv w'.
Proof.
  intros [Hpl Htm Hor Hwin Hfr Hls Hnd] Hh Hi Ha Hw Hd.
  constructor.
  - rewrite Hh. exact Hpl.
  - rewrite Hh, Hi. exact Htm.
  - rewrite Hh, Ha. exact Hor.
  - rewrite Hw, Ha. exact Hwin.
  - rewrite Hh. intros a p Hp. destruct (Hfr a p Hp) as (el & Hel & Hin).
    destruct (Hd (iframe p)) as [H|[Hn _]]; [|congruence].
    rewrite Hel in H. simpl in H.
    destruct (document w' !! iframe p) as [el'|]; [|discriminate].
    exists el'. split; [reflexivity|]. simpl in H. inversion H. congruence.
  - rewrite Hh. intros e el' a He Hin.
    destruct (Hd e) as [H|[Hn H]]; rewrite He in H; simpl in H.
    + destruct (document w !! e) as [el|] eqn:Hel; [|discriminate].
      simpl in H. inversion H. apply (Hls e el a Hel). congruence.
    + inversion H. rewrite H1 in Hin. inversion Hin.
  - intros e el' He.
    destruct (Hd e) as [H|[Hn H]]; rewrite He in H; simpl in H.
    + destruct (document w !! e) as [el|] eqn:Hel; [|discriminate].
      simpl in H. inversion H. rewrite H1. apply (Hnd e el Hel).
    + inversion H. rewrite H1. apply NoDup_nil_2.
Qed.

(* ===================================================================== *)
(** ** The constructor, step by step                                      *)
(* ===================================================================== *)

Lemma resolve_target_next_id (x : nat) (w : World) (target : Target) :
  resolve_target (set_next_id x w) target = resolve_target w target.
Proof. destruct target; reflexivity. Qed.

Lemma find_by_id_some (s : string) (els : list Element) (i e : nat) :
  find_by_id s els i = Some e -> exists el, els !! (e - i) = Some el /\ i <= e.
Proof.
  revert i. induction els as [|el els IH]; intros i; simpl; [discriminate|].
  destruct (isConnected el && bool_decide (assoc_get "id" (attributes el) = Some s)).
  - intros [= <-]. exists el. rewrite Nat.sub_diag. split; [reflexivity|lia].
  - intros H. destruct (IH _ H) as (el' & Hel & Hle).
    exists el'. split; [|lia].
    replace (e - i) with (S (e - S i)) by lia. exact Hel.
Qed.

Lemma resolve_target_some (w : World) (target : Target) (element : nat) :
  resolve_target w target = Some element -> is_Some (document w !! element).
Proof.
  destruct target as [s|e|]; simpl; [| |discriminate].
  - unfold getElementById. destruct (String.eqb s ""); [discriminate|]. intros H.
    destruct (find_by_id_some _ _ _ _ H) as (el & Hel & _).
    rewrite Nat.sub_0_r in Hel. eauto.
  - destruct (document w !! e) eqn:E; [|discriminate]. intros [= <-]. eauto.
Qed.

(** The world once the frame is chosen, named and put in place. *)
Lemma frame_prepared (options : Options) (element : nat) (name val : string) (w : World) :
  is_Some (document w !! element) ->
  let fw := obtain_frame options element w in
  let wa := place_frame (fst fw) element (setAttribute (fst fw) name val (snd fw)) in
  heap wa = heap w /\ intervals wa = intervals w /\
  messageHandlers wa = messageHandlers w /\
  attachedListeners wa = attachedListeners w /\
  windowListeners wa = windowListeners w /\
  next_id wa = next_id w /\ next_timer wa = next_timer w /\
  trace wa = trace w /\
  doc_extends (document w) (document wa) /\
  is_Some (document wa !! fst fw).
Proof.
  intros [el Hel]. cbv zeta.
  set (fw := obtain_frame options element w).
  assert (H1 : heap (snd fw) = heap w /\ intervals (snd fw) = intervals w /\
               messageHandlers (snd fw) = messageHandlers w /\
               attachedListeners (snd fw) = attachedListeners w /\
               windowListeners (snd fw) = windowListeners w /\
               next_id (snd fw) = next_id w /\ next_timer (snd fw) = next_timer w /\
               trace (snd fw) = trace w /\
               doc_extends (document w) (document (snd fw)) /\
               is_Some (document (snd fw) !! fst fw)).
  { unfold fw, obtain_frame. rewrite Hel.
    destruct (String.eqb (tagName el) "IFRAME"); simpl.
    - repeat split; eauto using doc_extends_refl.
    - repeat split.
      + intros e. destruct (document w !! e) as [x|] eqn:Hx.
        * left. erewrite lookup_app_l_Some by exact Hx. reflexivity.
        * apply lookup_ge_None in Hx.
          destruct (decide (e = length (document w))) as [->|Hne].
          -- right. split; [reflexivity|].
             rewrite list_lookup_middle by reflexivity. reflexivity.
          -- left.
             rewrite (proj2 (lookup_ge_None _ _)); [reflexivity|].
             rewrite length_app; simpl; lia.
      + rewrite list_lookup_middle by reflexivity. eauto. }
  destruct H1 as (A1 & A2 & A3 & A4 & A5 & A6 & A7 & A8 & A9 & A10).
  set (w1 := setAttribute (fst fw) name val (snd fw)).
  assert (H2 : heap w1 = heap w /\ intervals w1 = intervals w /\
               messageHandlers w1 = messageHandlers w /\
               attachedListeners w1 = attachedListeners w /\
               windowListeners w1 = windowListeners w /\
               next_id w1 = next_id w /\ next_timer w1 = next_timer w /\
               trace w1 = trace w /\
               doc_extends (document w) (document w1) /\
               is_Some (document w1 !! fst fw)).
  { unfold w1, setAttribute.
    match goal with
    | |- context [update_element ?e ?f ?w0] =>
        destruct (update_element_fields e f w0) as (B1 & B2 & B3 & B4 & B5 & B6 & B7 & B8 & B9);
        pose proof (update_element_extends e f w0 (fun _ => eq_refl)) as B10;
        pose proof (update_element_document e f w0 e) as B11
    end.
    rewrite B1, B2, B3, B4, B5, B6, B7, B8.
    repeat split; try assumption.
    - eapply doc_extends_trans; eassumption.
    - rewrite B11. rewrite decide_True by reflexivity.
      destruct A10 as [x ->]. simpl. eauto. }
  clearbody w1. clear A1 A2 A3 A4 A5 A6 A7 A8 A9 A10.
  destruct H2 as (A1 & A2 & A3 & A4 & A5 & A6 & A7 & A8 & A9 & A10).
  unfold place_frame.
  destruct (Nat.eqb (fst fw) element); [repeat split; assumption|].
  destruct (document w1 !! element) as [old|] eqn:Hold; [|repeat split; assumption].
  destruct (parentNode old); [|repeat split; assumption].
  unfold replaceChild. rewrite Hold.
  match goal with
  | |- context [update_element ?e1 ?f1 (update_element ?e2 ?f2 ?w0)] =>
      destruct (update_element_fields e2 f2 w0) as (B1 & B2 & B3 & B4 & B5 & B6 & B7 & B8 & B9);
      pose proof (update_element_extends e2 f2 w0 (fun _ => eq_refl)) as B10;
      pose proof (update_element_document e2 f2 w0) as B11;
      destruct (update_element_fields e1 f1 (update_element e2 f2 w0))
        as (C1 & C2 & C3 & C4 & C5 & C6 & C7 & C8 & C9);
      pose proof (update_element_extends e1 f1 (update_element e2 f2 w0) (fun _ => eq_refl)) as C10;
      pose proof (update_element_document e1 f1 (update_element e2 f2 w0)) as C11
  end.
  rewrite C1, C2, C3, C4, C5, C6, C7, C8, B1, B2, B3, B4, B5, B6, B7, B8.
  repeat split; try assumption.
  - eapply doc_extends_trans; [eassumption|].
    eapply doc_extends_trans; eassumption.
  - rewrite C11, B11. destruct A10 as [x Hx].
    repeat case_decide; rewrite Hx; simpl; eauto.
Qed.

Lemma begin_handshake_eq (options : Options) (element frame : nat) (el : Element)
    (wa : World) :
  document wa !! frame = Some el ->
  begin_handshake (length (heap wa)) frame
    (set_heap (heap wa ++ [new_player options element frame]) wa) =
  handshaken options element frame el wa.
Proof.
  intros Hel. unfold begin_handshake.
  set (np := new_player options element frame).
  set (w0 := set_heap (heap wa ++ [np]) wa).
  assert (H0 : heap w0 !! length (heap wa) = Some np).
  { unfold w0. simpl. apply list_lookup_middle. reflexivity. }
  rewrite (run_on_eq _ _ _ _ H0).
  unfold emitListening. rewrite sendMessage_eq. simpl fst. simpl snd.
  assert (Hid : <[length (heap wa) := np]> (heap w0) = heap w0).
  { apply list_insert_id. exact H0. }
  rewrite Hid.
  assert (Hw0 : set_heap (heap w0) w0 = w0) by (destruct wa; reflexivity).
  rewrite Hw0. simpl fold_left.
  unfold run_on, update_element, handshaken, first_probe, transmit, has_contentWindow.
  destruct wa as [nid mh al wl hp doc iv nt tr]. simpl in *.
  rewrite Hel. simpl.
  destruct (isConnected el); simpl;
    rewrite list_lookup_middle by reflexivity; simpl;
    rewrite Hel; simpl;
    rewrite insert_app_r_alt by lia; rewrite Nat.sub_diag; simpl; reflexivity.
Qed.

Lemma lookup_snoc_cases {A : Type} (l : list A) (x y : A) (i : nat) :
  (l ++ [x]) !! i = Some y ->
  (i < length l /\ l !! i = Some y) \/ (i = length l /\ y = x).
Proof.
  intros H. apply lookup_snoc_Some in H. destruct H as [[? ?]|[? ?]]; [left|right]; auto.
Qed.

Lemma handshaken_inv (options : Options) (element frame : nat) (el : Element)
    (wa : World) :
  world_inv wa ->
  document wa !! frame = Some el ->
  world_inv (handshaken options element frame el wa).
Proof.
  intros [Hpl Htm Hor Hwin Hfr Hls Hnd] Hel.
  assert (Hlt : frame < length (document wa)) by (apply lookup_lt_Some in Hel; exact Hel).
  constructor; simpl.
  - intros a p Hp. apply lookup_snoc_cases in Hp. destruct Hp as [[_ Hp]|[_ ->]].
    + apply (Hpl a p Hp).
    + split.
      * intros Hr. simpl in Hr. discriminate.
      * intros name l. simpl. rewrite lookup_empty. discriminate.
  - intros t a. rewrite lookup_insert. destruct (decide (next_timer wa = t)) as [Hd|Hd].
    + intros Heq. inversion Heq. subst. eexists. split.
      * apply list_lookup_middle. reflexivity.
      * reflexivity.
    + intros Ht. destruct (Htm t a Ht) as (p & Hp & Hpoll).
      exists p. split; [apply lookup_app_l_Some; exact Hp|exact Hpoll].
  - intros h Hh. destruct (Hor h Hh) as (a & p & Hp & Hhost).
    exists a, p. split; [apply lookup_app_l_Some; exact Hp|exact Hhost].
  - exact Hwin.
  - intros a p Hp. apply lookup_snoc_cases in Hp. destruct Hp as [[_ Hp]|[-> ->]].
    + destruct (Hfr a p Hp) as (el0 & Hel0 & Hin).
      destruct (decide (iframe p = frame)) as [Heq|Hne].
      * rewrite Heq. rewrite list_lookup_insert_eq by exact Hlt.
        eexists. split; [reflexivity|]. simpl.
        apply elem_of_app. left. congruence.
      * rewrite list_lookup_insert_ne by congruence.
        exists el0. split; assumption.
    + simpl. rewrite list_lookup_insert_eq by exact Hlt.
      eexists. split; [reflexivity|]. simpl.
      apply elem_of_app. right. apply list_elem_of_singleton. reflexivity.
  - intros e el' a He Hin.
    destruct (decide (e = frame)) as [->|Hne].
    + rewrite list_lookup_insert_eq in He by exact Hlt. inversion He. subst el'.
      simpl in Hin. apply elem_of_app in Hin. destruct Hin as [Hin|Hin].
      * destruct (Hls frame el a Hel Hin) as (p & Hp & Hi).
        exists p. split; [apply lookup_app_l_Some; exact Hp|exact Hi].
      * apply list_elem_of_singleton in Hin. subst a.
        eexists. split; [apply list_lookup_middle; reflexivity|reflexivity].
    + rewrite list_lookup_insert_ne in He by congruence.
      destruct (Hls e el' a He Hin) as (p & Hp & Hi).
      exists p. split; [apply lookup_app_l_Some; exact Hp|exact Hi].
  - intros e el' He.
    destruct (decide (e = frame)) as [->|Hne].
    + rewrite list_lookup_insert_eq in He by exact Hlt. inversion He. simpl.
      apply NoDup_app. split; [apply (Hnd frame el Hel)|]. split; [|apply NoDup_singleton].
      intros a Hin Hself. apply list_elem_of_singleton in Hself. subst a.
      destruct (Hls frame el _ Hel Hin) as (p & Hp & _).
      apply lookup_lt_Some in Hp. lia.
    + rewrite list_lookup_insert_ne in He by congruence. apply (Hnd e el' He).
Qed.

Lemma attachGlobalListener_fields (host : string) (w : World) :
  let w' := attachGlobalListener host w in
  heap w' = heap w /\ document w' = document w /\ intervals w' = intervals w /\
  messageHandlers w' = messageHandlers w /\ trace w' = trace w /\
  next_id w' = next_id w /\ next_timer w' = next_timer w /\
  attachedListeners w' = {[host]} ∪ attachedListeners w.
Proof.
  cbv zeta. unfold attachGlobalListener.
  destruct (Nat.ltb 0 (size (attachedListeners w))); repeat split.
Qed.

Lemma attachGlobalListener_inv (host : string) (w : World) :
  world_inv w ->
  (exists a p, heap w !! a = Some p /\ opt_host (options p) = host) ->
  world_inv (attachGlobalListener host w).
Proof.
  intros [Hpl Htm Hor Hwin Hfr Hls Hnd] Hhost.
  destruct (attachGlobalListener_fields host w) as (H1 & H2 & H3 & H4 & H5 & H6 & H7 & H8).
  constructor; rewrite ?H1, ?H2, ?H3, ?H8; try assumption.
  - intros h Hh. apply elem_of_union in Hh. destruct Hh as [Hh|Hh].
    + apply elem_of_singleton in Hh. subst h. exact Hhost.
    + apply Hor. exact Hh.
  - rewrite bool_decide_eq_false_2.
    2:{ intros He. apply empty_union_L in He. destruct He as [He _].
        assert (host ∈ ({[host]} : gset string)) as Hin by (apply elem_of_singleton; reflexivity).
        rewrite He in Hin. apply not_elem_of_empty in Hin. exact Hin. }
    unfold attachGlobalListener.
    destruct (Nat.ltb 0 (size (attachedListeners w))) eqn:Hs; simpl.
    + rewrite Hwin. apply Nat.ltb_lt in Hs.
      rewrite bool_decide_eq_false_2; [reflexivity|].
      intros He. rewrite He, size_empty in Hs. lia.
    + rewrite Hwin. apply Nat.ltb_ge in Hs.
      assert (size (attachedListeners w) = 0) as Hz by lia.
      apply size_empty_inv in Hz. apply leibniz_equiv in Hz.
      rewrite bool_decide_eq_true_2 by exact Hz. reflexivity.
Qed.

Lemma world_inv_same (w w' : World) :
  world_inv w ->
  heap w' = heap w -> intervals w' = intervals w ->
  attachedListeners w' = attachedListeners w ->
  windowListeners w' = windowListeners w ->
  document w' = document w ->
  world_inv w'.
Proof.
  intros Hinv Hh Hi Ha Hw Hd.
  apply (world_inv_document w w' Hinv Hh Hi Ha Hw).
  rewrite Hd. apply doc_extends_refl.
Qed.

(** The invariant holds whatever the constructor does. *)
Lemma construct_inv (target : Target) (arg : PlayerOptions) (w : World) :
  world_inv w -> world_inv (fst (construct target arg w)).
Proof.
  intros Hinv. unfold construct.
  set (options := resolve_options (next_id w) arg).
  set (w0 := set_next_id (S (next_id w)) w).
  assert (Hinv0 : world_inv w0) by (apply (world_inv_same w); auto).
  destruct (resolve_target w0 target) as [element|] eqn:Ht; [|exact Hinv0].
  pose proof (resolve_target_some _ _ _ Ht) as Hsome.
  destruct (frame_prepared options element "id" ("widget" +:+ opt_id options) w0 Hsome)
    as (A1 & A2 & A3 & A4 & A5 & A6 & A7 & A8 & A9 & [el Hel]).
  set (frame := fst (obtain_frame options element w0)) in *.
  set (wa := place_frame frame element
               (setAttribute frame "id" ("widget" +:+ opt_id options)
                  (snd (obtain_frame options element w0)))) in *.
  assert (Hinva : world_inv wa) by (apply (world_inv_document w0); auto).
  rewrite (begin_handshake_eq options element frame el wa Hel).
  pose proof (handshaken_inv options element frame el wa Hinva Hel) as Hinvh.
  set (wh := handshaken options element frame el wa) in *.
  set (we := register_events (length (heap wa)) (opt_events options) wh).
  assert (Hinve : world_inv we).
  { unfold we, register_events. apply run_on_inv; [|exact Hinvh].
    apply (polite_for_each (fun env nh => addEventListener env (fst nh) (snd nh))).
    intros x. apply polite_addEventListener. }
  assert (Hself : exists a p, heap we !! a = Some p /\
                              opt_host (Instance.options p) = opt_host options).
  { assert (Hh : heap wh !! length (heap wa) =
                 Some (set_pollReadiness (Some (next_timer wa))
                         (new_player options element frame))).
    { unfold wh, handshaken. simpl. apply list_lookup_middle. reflexivity. }
    unfold we, register_events.
    match goal with
    | |- context [run_on ?a ?m wh] =>
        destruct (run_on_forward a m wh _ _
                    (polite_for_each (fun env nh => addEventListener env (fst nh) (snd nh))
                       (opt_events options) (fun x => polite_addEventListener (fst x) (snd x)))
                    Hh) as (p' & Hp' & (Ho & _) & _)
    end.
    exists (length (heap wa)), p'. split; [exact Hp'|]. rewrite Ho. reflexivity. }
  pose proof (attachGlobalListener_inv (opt_host options) we Hinve Hself) as Hinvg.
  destruct (messageHandlers (attachGlobalListener (opt_host options) we) !! opt_id options);
    simpl; [exact Hinvg|].
  apply (world_inv_same _ _ Hinvg); reflexivity.
Qed.

(* ===================================================================== *)
(** ** The invariant holds on every reachable page                        *)
(* ===================================================================== *)

Lemma replaceChild_fields (newChild oldChild : nat) (w : World) :
  let w' := replaceChild newChild oldChild w in
  heap w' = heap w /\ intervals w' = intervals w /\
  messageHandlers w' = messageHandlers w /\
  attachedListeners w' = attachedListeners w /\
  windowListeners w' = windowListeners w /\
  trace w' = trace w /\
  doc_extends (document w) (document w').
Proof.
  cbv zeta. unfold replaceChild.
  destruct (document w !! oldChild) as [old|];
    [|repeat split; apply doc_extends_refl].
  match goal with
  | |- context [update_element ?e1 ?f1 (update_element ?e2 ?f2 ?w0)] =>
      destruct (update_element_fields e2 f2 w0) as (B1 & B2 & B3 & B4 & B5 & B6 & B7 & B8 & B9);
      pose proof (update_element_extends e2 f2 w0 (fun _ => eq_refl)) as B10;
      destruct (update_element_fields e1 f1 (update_element e2 f2 w0))
        as (C1 & C2 & C3 & C4 & C5 & C6 & C7 & C8 & C9);
      pose proof (update_element_extends e1 f1 (update_element e2 f2 w0) (fun _ => eq_refl)) as C10
  end.
  rewrite C1, C2, C3, C4, C5, C8, B1, B2, B3, B4, B5, B8.
  repeat split. eapply doc_extends_trans; eassumption.
Qed.

Lemma update_element_inv (e : nat) (f : Element -> Element) (w : World) :
  (forall el, loadListeners (f el) = loadListeners el) ->
  world_inv w -> world_inv (update_element e f w).
Proof.
  intros Hf Hinv.
  destruct (update_element_fields e f w) as (B1 & B2 & B3 & B4 & B5 & B6 & B7 & B8 & B9).
  apply (world_inv_document w); auto.
  apply update_element_extends. exact Hf.
Qed.

Lemma destroy_inv (a : nat) (w : World) :
  world_inv w -> world_inv (fst (destroy a w)).
Proof.
  intros Hinv. unfold destroy.
  destruct (heap w !! a) as [p|]; [|exact Hinv].
  pose proof (run_on_inv a (fun _ => stopPolling) w polite_stopPolling Hinv) as Hinv1.
  set (w1 := run_on a (fun _ => stopPolling) w) in *.
  destruct (Nat.eqb (iframe p) (originalElement p)); simpl.
  - apply (world_inv_same w1); auto.
  - destruct (document w1 !! iframe p) as [el|]; [|exact Hinv1].
    destruct (parentNode el); [|exact Hinv1]. simpl.
    destruct (replaceChild_fields (originalElement p) (iframe p) w1)
      as (A1 & A2 & A3 & A4 & A5 & A6 & A7).
    apply (world_inv_document w1); auto.
Qed.

Lemma setSize_inv (a : nat) (width height : value) (w : World) :
  world_inv w -> world_inv (setSize a width height w).
Proof.
  intros Hinv. unfold setSize. destruct (heap w !! a); [|exact Hinv].
  unfold setAttribute. apply update_element_inv; [reflexivity|].
  apply update_element_inv; [reflexivity|exact Hinv].
Qed.

Lemma listener_inv (event : MessageEvent) (w : World) :
  world_inv w -> world_inv (listener event w).
Proof.
  intros Hinv. unfold listener.
  destruct (bool_decide (origin event ∈ attachedListeners w)); [|exact Hinv].
  destruct (parsed event) as [data|]; [|exact Hinv].
  destruct (nullish data); [exact Hinv|].
  destruct (prop data "id"); try exact Hinv.
  destruct (messageHandlers w !! s); [|exact Hinv].
  apply run_on_inv; [apply polite_handleMessage|exact Hinv].
Qed.

Lemma dispatch_message_inv (event : MessageEvent) (w : World) :
  world_inv w -> world_inv (dispatch_message event w).
Proof.
  intros Hinv. unfold dispatch_message.
  induction (windowListeners w) as [|n IH]; simpl; [exact Hinv|].
  apply listener_inv. exact IH.
Qed.

Lemma dispatch_load_inv (e : nat) (w : World) :
  world_inv w -> world_inv (dispatch_load e w).
Proof.
  intros Hinv. unfold dispatch_load.
  destruct (document w !! e) as [el|]; [|exact Hinv].
  destruct (isConnected el); [|exact Hinv].
  generalize (loadListeners el). intros l. revert w Hinv.
  induction l as [|a l IH]; intros w Hinv; simpl; [exact Hinv|].
  apply IH. apply run_on_inv; [apply polite_emitListening|exact Hinv].
Qed.

Lemma step_inv (w : World) (ev : Event) :
  world_inv w -> world_inv (step w ev).
Proof.
  intros Hinv. destruct ev; simpl.
  - apply construct_inv. exact Hinv.
  - apply destroy_inv. exact Hinv.
  - apply run_on_inv; [apply polite_command|exact Hinv].
  - apply run_on_inv; [apply polite_addEventListener|exact Hinv].
  - apply run_on_inv; [apply polite_removeEventListener|exact Hinv].
  - apply setSize_inv. exact Hinv.
  - apply dispatch_message_inv. exact Hinv.
  - unfold fire_timer. destruct (intervals w !! t); [|exact Hinv].
    apply run_on_inv; [apply polite_emitListening|exact Hinv].
  - apply dispatch_load_inv. exact Hinv.
  - apply update_element_inv; [reflexivity|exact Hinv].
Qed.

Lemma run_inv (evs : list Event) (w : World) :
  world_inv w -> world_inv (run evs w).
Proof.
  revert w. induction evs as [|ev evs IH]; intros w Hinv; simpl; [exact Hinv|].
  apply IH. apply step_inv. exact Hinv.
Qed.

Lemma initial_inv (doc : list Element) :
  no_listeners doc -> world_inv (initial doc).
Proof.
  intros Hdoc. constructor; simpl.
  - intros a p H. rewrite lookup_nil in H. discriminate.
  - intros t a H. rewrite lookup_empty in H. discriminate.
  - intros h H. apply not_elem_of_empty in H. contradiction.
  - reflexivity.
  - intros a p H. rewrite lookup_nil in H. discriminate.
  - intros e el a He Hin.
    assert (Hl : loadListeners el = []).
    { unfold no_listeners in Hdoc. rewrite Forall_forall in Hdoc.
      apply Hdoc. apply list_elem_of_lookup. eauto. }
    rewrite Hl in Hin. inversion Hin.
  - intros e el He.
    assert (Hl : loadListeners el = []).
    { unfold no_listeners in Hdoc. rewrite Forall_forall in Hdoc.
      apply Hdoc. apply list_elem_of_lookup. eauto. }
    rewrite Hl. apply NoDup_nil_2.
Qed.

Lemma reachable_inv (w : World) : reachable w -> world_inv w.
Proof.
  intros (doc & evs & Hdoc & ->). apply run_inv, initial_inv, Hdoc.
Qed.

Lemma reachable_step (w : World) (ev : Event) :
  reachable w -> reachable (step w ev).
Proof.
  intros (doc & evs & Hdoc & ->). exists doc, (evs ++ [ev]). split; [exact Hdoc|].
  unfold run. rewrite fold_left_app. reflexivity.
Qed.

Lemma reachable_run (evs : list Event) (w : World) :
  reachable w -> reachable (run evs w).
Proof.
  revert w. induction evs as [|ev evs IH]; intros w Hw; simpl; [exact Hw|].
  apply IH. apply reachable_step. exact Hw.
Qed.

(** The constructor, once its target is resolved: the frame is prepared
    (world [wa]), the handshake begins, the initial callbacks are
    registered, the origin is trusted, and only then is the identifier
    looked up. *)
Lemma construct_resolved (target : Target) (arg : PlayerOptions) (w : World)
    (element : nat) :
  resolve_target w target = Some element ->
  exists wa frame el,
    heap wa = heap w /\ intervals wa = intervals w /\
    messageHandlers wa = messageHandlers w /\
    attachedListeners wa = attachedListeners w /\
    windowListeners wa = windowListeners w /\
    next_timer wa = next_timer w /\ trace wa = trace w /\
    doc_extends (document w) (document wa) /\
    document wa !! frame = Some el /\
    construct target arg w =
    let options := resolve_options (next_id w) arg in
    let self := length (heap w) in
    let wg := attachGlobalListener (opt_host options)
                (register_events self (opt_events options)
                   (handshaken options element frame el wa)) in
    match messageHandlers w !! opt_id options with
    | Some _ => (wg, inl (DuplicateError (opt_id options)))
    | None =>
        (set_messageHandlers (<[opt_id options := self]> (messageHandlers w)) wg,
         inr self)
    end.
Proof.
  intros Ht. unfold construct.
  set (options := resolve_options (next_id w) arg).
  set (w0 := set_next_id (S (next_id w)) w).
  assert (Ht0 : resolve_target w0 target = Some element)
    by (unfold w0; rewrite resolve_target_next_id; exact Ht).
  rewrite Ht0.
  pose proof (resolve_target_some _ _ _ Ht0) as Hsome.
  destruct (frame_prepared options element "id" ("widget" +:+ opt_id options) w0 Hsome)
    as (A1 & A2 & A3 & A4 & A5 & A6 & A7 & A8 & A9 & [el Hel]).
  set (frame := fst (obtain_frame options element w0)) in *.
  set (wa := place_frame frame element
               (setAttribute frame "id" ("widget" +:+ opt_id options)
                  (snd (obtain_frame options element w0)))) in *.
  exists wa, frame, el.
  repeat (split; [assumption|]).
  rewrite (begin_handshake_eq options element frame el wa Hel).
  cbv zeta. rewrite A1. simpl heap.
  match goal with
  | |- context [attachGlobalListener ?h ?we] =>
      destruct (attachGlobalListener_fields h we) as (_ & _ & _ & G & _)
  end.
  match goal with
  | |- context [register_events ?a ?l ?wh] =>
      destruct (run_on_fields a
                  (fun env => for_each (fun nh => addEventListener env (fst nh) (snd nh)) l) wh)
        as (_ & R & _)
  end.
  unfold register_events in *. rewrite G, R. simpl messageHandlers. rewrite A3.
  reflexivity.
Qed.

(* ===================================================================== *)
(** ** Players persist                                                    *)
(* ===================================================================== *)

Lemma carries_refl (w : World) : carries w w.
Proof.
  intros a p Hp. exists p. split; [exact Hp|]. split; [apply same_identity_refl|auto].
Qed.

Lemma carries_trans (w1 w2 w3 : World) :
  carries w1 w2 -> carries w2 w3 -> carries w1 w3.
Proof.
  intros H12 H23 a p Hp.
  destruct (H12 a p Hp) as (p2 & Hp2 & I2 & R2).
  destruct (H23 a p2 Hp2) as (p3 & Hp3 & I3 & R3).
  exists p3. split; [exact Hp3|]. split; [exact (same_identity_trans _ _ _ I2 I3)|auto].
Qed.

Lemma carries_same_heap (w w' : World) : heap w' = heap w -> carries w w'.
Proof.
  intros Hh a p Hp. exists p. rewrite Hh.
  split; [exact Hp|]. split; [apply same_identity_refl|auto].
Qed.

Lemma carries_run_on (a : nat) (method : Env -> Act) (w : World) :
  polite method -> carries w (run_on a method w).
Proof.
  intros Hpol a' p Hp.
  destruct (run_on_forward a method w a' p Hpol Hp) as (p' & Hp' & I & _ & R).
  exists p'. auto.
Qed.

Lemma polite_register (l : list (string * Handler)) :
  polite (fun env => for_each (fun nh => addEventListener env (fst nh) (snd nh)) l).
Proof.
  apply (polite_for_each (fun env nh => addEventListener env (fst nh) (snd nh))).
  intros x. apply polite_addEventListener.
Qed.

Lemma construct_unresolved (target : Target) (arg : PlayerOptions) (w : World) :
  resolve_target w target = None ->
  construct target arg w = (set_next_id (S (next_id w)) w, inl TargetError).
Proof.
  intros H. unfold construct. rewrite resolve_target_next_id, H. reflexivity.
Qed.

Lemma carries_construct (target : Target) (arg : PlayerOptions) (w : World) :
  carries w (fst (construct target arg w)).
Proof.
  destruct (resolve_target w target) as [element|] eqn:Ht.
  - destruct (construct_resolved target arg w element Ht)
      as (wa & frame & el & A1 & _ & _ & _ & _ & _ & _ & _ & Hel & ->).
    cbv zeta.
    set (options := resolve_options (next_id w) arg).
    set (wh := handshaken options element frame el wa).
    set (we := register_events (length (heap w)) (opt_events options) wh).
    assert (H1 : carries w wh).
    { intros a p Hp. exists p. unfold wh, handshaken. simpl. rewrite A1.
      split; [apply lookup_app_l_Some; exact Hp|].
      split; [apply same_identity_refl|auto]. }
    assert (H2 : carries wh we).
    { unfold we, register_events. apply carries_run_on. apply polite_register. }
    destruct (attachGlobalListener_fields (opt_host options) we) as (G & _).
    assert (H3 : carries w (attachGlobalListener (opt_host options) we)).
    { eapply carries_trans; [exact H1|]. eapply carries_trans; [exact H2|].
      apply carries_same_heap. exact G. }
    destruct (messageHandlers w !! opt_id options); simpl; [exact H3|].
    eapply carries_trans; [exact H3|]. apply carries_same_heap. reflexivity.
  - rewrite (construct_unresolved _ _ _ Ht). simpl.
    apply carries_same_heap. reflexivity.
Qed.

Lemma carries_destroy (a : nat) (w : World) : carries w (fst (destroy a w)).
Proof.
  unfold destroy. destruct (heap w !! a) as [p|]; [|apply carries_refl].
  pose proof (carries_run_on a (fun _ => stopPolling) w polite_stopPolling) as H1.
  set (w1 := run_on a (fun _ => stopPolling) w) in *.
  destruct (Nat.eqb (iframe p) (originalElement p)); simpl.
  - eapply carries_trans; [exact H1|]. apply carries_same_heap. reflexivity.
  - destruct (document w1 !! iframe p) as [el|]; [|exact H1].
    destruct (parentNode el); [|exact H1]. simpl.
    destruct (replaceChild_fields (originalElement p) (iframe p) w1) as (A1 & _).
    eapply carries_trans; [exact H1|]. apply carries_same_heap. exact A1.
Qed.

Lemma carries_listener (event : MessageEvent) (w : World) :
  carries w (listener event w).
Proof.
  unfold listener.
  destruct (bool_decide (origin event ∈ attachedListeners w)); [|apply carries_refl].
  destruct (parsed event) as [data|]; [|apply carries_refl].
  destruct (nullish data); [apply carries_refl|].
  destruct (prop data "id"); try apply carries_refl.
  destruct (messageHandlers w !! s); [|apply carries_refl].
  apply carries_run_on. apply polite_handleMessage.
Qed.

Lemma carries_step (w : World) (ev : Event) : carries w (step w ev).
Proof.
  destruct ev; simpl.
  - apply carries_construct.
  - apply carries_destroy.
  - apply carries_run_on, polite_command.
  - apply carries_run_on, polite_addEventListener.
  - apply carries_run_on, polite_removeEventListener.
  - unfold setSize. destruct (heap w !! a); [|apply carries_refl].
    apply carries_same_heap. unfold setAttribute.
    match goal with
    | |- context [update_element ?e1 ?f1 (update_element ?e2 ?f2 ?w0)] =>
        destruct (update_element_fields e2 f2 w0) as (B1 & _);
        destruct (update_element_fields e1 f1 (update_element e2 f2 w0)) as (C1 & _)
    end.
    congruence.
  - unfold dispatch_message. generalize (windowListeners w). intros n.
    induction n as [|n IH]; simpl; [apply carries_refl|].
    eapply carries_trans; [exact IH|]. apply carries_listener.
  - unfold fire_timer. destruct (intervals w !! t); [|apply carries_refl].
    apply carries_run_on, polite_emitListening.
  - unfold dispatch_load.
    destruct (document w !! e) as [el|]; [|apply carries_refl].
    destruct (isConnected el); [|apply carries_refl].
    generalize (loadListeners el). intros l.
    assert (H : forall w0, carries w w0 ->
                carries w (fold_left (fun w' a => run_on a emitListening w') l w0)).
    { induction l as [|a l IH]; intros w0 H0; simpl; [exact H0|].
      apply IH. eapply carries_trans; [exact H0|].
      apply carries_run_on, polite_emitListening. }
    apply H. apply carries_refl.
  - apply carries_same_heap.
    destruct (update_element_fields e (set_position parent connected) w) as (B1 & _).
    exact B1.
Qed.

Lemma carries_run (evs : list Event) (w : World) : carries w (run evs w).
Proof.
  revert w. induction evs as [|ev evs IH]; intros w; simpl; [apply carries_refl|].
  eapply carries_trans; [apply carries_step|apply IH].
Qed.

(** On a page that satisfies the invariant no timer probes for a ready
    player. *)
Lemma ready_has_no_timer (w : World) (a : nat) (p : Player) :
  world_inv w -> heap w !! a = Some p -> ready p = true ->
  pollReadiness p = None /\ messageQueue p = [] /\
  forall t, intervals w !! t <> Some a.
Proof.
  intros [Hpl Htm _ _ _ _ _] Hp Hr.
  destruct (Hpl a p Hp) as [Hi _]. destruct (Hi Hr) as [Hn Hq].
  split; [exact Hn|]. split; [exact Hq|].
  intros t Ht. destruct (Htm t a Ht) as (p' & Hp' & Hpoll). congruence.
Qed.

(** A ready player stays ready, without timer and with an empty queue,
    whatever happens on the page. *)
Lemma ready_forever (w : World) (a : nat) (p : Player) (evs : list Event) :
  reachable w -> heap w !! a = Some p -> ready p = true ->
  exists p',
    heap (run evs w) !! a = Some p' /\ same_identity p p' /\ ready p' = true /\
    pollReadiness p' = None /\ messageQueue p' = [] /\
    forall t, intervals (run evs w) !! t <> Some a.
Proof.
  intros Hw Hp Hr.
  destruct (carries_run evs w a p Hp) as (p' & Hp' & I & R).
  exists p'. split; [exact Hp'|]. split; [exact I|]. split; [auto|].
  apply (ready_has_no_timer (run evs w) a p'); auto.
  apply reachable_inv, reachable_run, Hw.
Qed.

(** The window has exactly one [message] listener once an origin is
    trusted, so a message of a trusted origin for a registered identifier
    is handled once, by the player registered under it. *)
Lemma message_delivery (w : World) (event : MessageEvent) (data : value)
    (i : string) (a : nat) :
  world_inv w ->
  origin event ∈ attachedListeners w ->
  parsed event = Some data ->
  nullish data = false ->
  prop data "id" = VStr i ->
  messageHandlers w !! i = Some a ->
  step w (Message event) = run_on a (fun env => handleMessage env data) w.
Proof.
  intros Hinv Ho Hp Hn Hid Hh. simpl. unfold dispatch_message.
  rewrite (inv_window w Hinv).
  rewrite bool_decide_eq_false_2.
  2:{ intros He. rewrite He in Ho. apply not_elem_of_empty in Ho. exact Ho. }
  simpl. unfold listener.
  rewrite bool_decide_eq_true_2 by exact Ho.
  rewrite Hp, Hn, Hid, Hh. reflexivity.
Qed.

(* ===================================================================== *)
(** ** Queue and readiness                                                *)
(* ===================================================================== *)

Lemma outputs_app (frame : nat) (e1 e2 : list Effect) :
  outputs frame (e1 ++ e2) = outputs frame e1 ++ outputs frame e2.
Proof. unfold outputs. rewrite map_app, concat_app. reflexivity. Qed.

Lemma outputs_transmit (frame : nat) (env : Env) (p : Player) (q : list value) :
  outputs frame (map (transmit env p) q) =
  map (fun m => if contentWindow env
                then Posted frame (stringify_object (payload p m)) (opt_host (options p))
                else Logged frame) q.
Proof.
  induction q as [|m q IH]; [reflexivity|].
  simpl. unfold outputs in *. simpl. rewrite IH.
  unfold transmit. destruct (contentWindow env); reflexivity.
Qed.

Lemma outputs_deliver (frame : nat) (env : Env) (data : value) (p : Player) :
  forall o, o ∈ outputs frame (snd (deliver env data p)) ->
            exists handler event, o = Called handler event.
Proof.
  intros o. unfold deliver.
  destruct (is_str (prop data "event") "initialDelivery"); [simpl; inversion 1|].
  destruct (is_str (prop data "event") "infoDelivery"); [simpl; inversion 1|].
  destruct (is_str (prop data "event") "apiInfoDelivery"); [simpl; inversion 1|].
  unfold emit.
  destruct (prop data "event") as [| | | |s| |];
    try (simpl; intros Hin; inversion Hin; fail).
  destruct (events p !! s) as [hs|]; [|simpl; inversion 1].
  rewrite for_each_tell. simpl.
  induction hs as [|h hs IH]; [inversion 1|].
  unfold outputs in *. simpl. intros Hin. apply elem_of_cons in Hin.
  destruct Hin as [->|Hin]; [eauto|apply IH; exact Hin].
Qed.

Lemma outputs_flush (frame : nat) (env : Env) (p : Player) :
  outputs frame (flush_effects env p) = outputs frame (map (transmit env p) (messageQueue p)).
Proof.
  unfold flush_effects. rewrite outputs_app.
  destruct (pollReadiness p); unfold outputs; simpl; rewrite app_nil_r; reflexivity.
Qed.

(** A command issued to a player that is not ready only extends its queue. *)
Lemma invoke_not_ready (w : World) (a : nat) (p : Player) (c : Command) :
  heap w !! a = Some p -> ready p = false ->
  step w (Invoke a c) =
  set_heap (<[a := set_messageQueue
                     (messageQueue p ++ [command_message (func_of c) (args_of c)]) p]>
              (heap w)) w.
Proof.
  intros Hp Hr. simpl. rewrite (run_on_eq _ _ _ _ Hp).
  unfold command.
  rewrite (proj1 (sendCommand_cases _ (func_of c) (args_of c) p) Hr). reflexivity.
Qed.

Lemma invoke_all_not_ready (cs : list Command) (w : World) (a : nat) (p : Player) :
  heap w !! a = Some p -> ready p = false ->
  heap (run (map (Invoke a) cs) w) !! a =
    Some (set_messageQueue
            (messageQueue p ++ map (fun c => command_message (func_of c) (args_of c)) cs) p) /\
  trace (run (map (Invoke a) cs) w) = trace w.
Proof.
  revert w p. induction cs as [|c cs IH]; intros w p Hp Hr.
  - simpl. rewrite app_nil_r. split; [|reflexivity].
    rewrite Hp. destruct p; reflexivity.
  - change (run (map (Invoke a) (c :: cs)) w)
      with (run (map (Invoke a) cs) (step w (Invoke a c))).
    rewrite (invoke_not_ready w a p c Hp Hr).
    set (p1 := set_messageQueue
                 (messageQueue p ++ [command_message (func_of c) (args_of c)]) p).
    set (w1 := set_heap (<[a := p1]> (heap w)) w).
    assert (Hp1 : heap w1 !! a = Some p1).
    { unfold w1. simpl. apply list_lookup_insert_eq. apply lookup_lt_Some in Hp. exact Hp. }
    destruct (IH w1 p1 Hp1 Hr) as [Hq Ht].
    split; [|rewrite Ht; reflexivity].
    rewrite Hq. unfold p1. simpl. rewrite <- app_assoc. reflexivity.
Qed.

(** The page after a message was handled by the player [a]. *)
Lemma handled_trace (w : World) (a : nat) (p : Player) (data : value) :
  heap w !! a = Some p ->
  exists calls,
    trace (run_on a (fun env => handleMessage env data) w) =
    trace w ++
    map (fun m => if has_contentWindow w (iframe p)
                  then Posted (iframe p) (stringify_object (payload p m))
                         (opt_host (options p))
                  else Logged (iframe p)) (messageQueue p) ++
    calls /\
    forall o, o ∈ calls -> exists handler event, o = Called handler event.
Proof.
  intros Hp. rewrite (run_on_trace _ _ _ _ Hp), handleMessage_eq. simpl snd.
  rewrite outputs_app, outputs_flush, outputs_transmit. simpl contentWindow.
  eexists. split; [reflexivity|]. apply outputs_deliver.
Qed.

Lemma handled_player (w : World) (a : nat) (p : Player) (data : value) :
  heap w !! a = Some p ->
  exists p1,
    heap (run_on a (fun env => handleMessage env data) w) !! a = Some p1 /\
    ready p1 = true /\ pollReadiness p1 = None /\ messageQueue p1 = [] /\
    same_identity p p1.
Proof.
  intros Hp. rewrite run_on_heap, Hp. rewrite decide_True by reflexivity.
  eexists. split; [reflexivity|].
  destruct (handleMessage_fields
              {| this := a; contentWindow := has_contentWindow w (iframe p) |} data p)
    as (H1 & H2 & H3 & _ & H5).
  auto.
Qed.

(** A command issued to a ready player goes to the frame at once. *)
Lemma invoke_ready (w : World) (a : nat) (p : Player) (c : Command) :
  heap w !! a = Some p -> ready p = true ->
  heap (step w (Invoke a c)) = heap w /\
  trace (step w (Invoke a c)) =
  trace w ++
  [if has_contentWindow w (iframe p)
   then Posted (iframe p)
          (stringify_object (payload p (command_message (func_of c) (args_of c))))
          (opt_host (options p))
   else Logged (iframe p)].
Proof.
  intros Hp Hr. simpl. rewrite (run_on_eq _ _ _ _ Hp).
  unfold command.
  pose proof (sendCommand_cases
                {| this := a; contentWindow := has_contentWindow w (iframe p) |}
                (func_of c) (args_of c) p)
    as (_ & H1 & H2).
  destruct (has_contentWindow w (iframe p)) eqn:Hw.
  - rewrite (H1 Hr eq_refl).
    simpl. rewrite list_insert_id by exact Hp. split; reflexivity.
  - rewrite (H2 Hr eq_refl).
    simpl. rewrite list_insert_id by exact Hp. split; reflexivity.
Qed.

Lemma sample_page_reachable : reachable sample_page.
Proof.
  exists [placeholder], [New (TargetId "player") no_options].
  split; [|reflexivity]. constructor; [reflexivity|constructor].
Qed.

Lemma sample_page_trusts_default_host :
  "https://www.youtube.com" ∈ attachedListeners sample_page.
Proof. apply (bool_decide_unpack _). vm_compute. exact I. Qed.

Lemma sample_page_player :
  heap sample_page !! 0 =
  Some (set_pollReadiness (Some 0) (new_player (resolve_options 0 no_options) 0 1)).
Proof. vm_compute. reflexivity. Qed.

(** C1, as the code has it.  For a player [a] of a reachable page:
    commands issued while it is not ready are appended to its queue in the
    order issued, and nothing is sent; when a message for it is handled,
    every queued message is handed to [#sendMessage] once, in queue order
    and before any callback runs -- posted when the frame has a content
    window, and otherwise the frame is logged and the message is gone --
    and from then on the queue is empty, whatever happens; a command
    issued to the ready player goes to [#sendMessage] at once and the heap
    (so the queue) is untouched. *)
Theorem queued_commands_are_flushed_in_order (w : World) (a : nat) (p : Player) :
  reachable w ->
  heap w !! a = Some p ->
  (ready p = false ->
   forall cs,
     heap (run (map (Invoke a) cs) w) !! a =
       Some (set_messageQueue
               (messageQueue p ++
                map (fun c => command_message (func_of c) (args_of c)) cs) p) /\
     trace (run (map (Invoke a) cs) w) = trace w) /\
  (forall event data i,
     origin event ∈ attachedListeners w ->
     parsed event = Some data ->
     nullish data = false ->
     prop data "id" = VStr i ->
     messageHandlers w !! i = Some a ->
     (exists calls,
        trace (step w (Message event)) =
        trace w ++
        map (fun m => if has_contentWindow w (iframe p)
                      then Posted (iframe p) (stringify_object (payload p m))
                             (opt_host (options p))
                      else Logged (iframe p)) (messageQueue p) ++
        calls /\
        forall o, o ∈ calls -> exists handler ev, o = Called handler ev) /\
     (forall evs, exists p',
        heap (run evs (step w (Message event))) !! a = Some p' /\
        ready p' = true /\ messageQueue p' = [])) /\
  (ready p = true ->
   forall c,
     heap (step w (Invoke a c)) = heap w /\
     trace (step w (Invoke a c)) =
     trace w ++
     [if has_contentWindow w (iframe p)
      then Posted (iframe p)
             (stringify_object (payload p (command_message (func_of c) (args_of c))))
             (opt_host (options p))
      else Logged (iframe p)]).
Proof.
  intros Hw Hp. split; [|split].
  - intros Hr cs. apply invoke_all_not_ready; assumption.
  - intros event data i Ho Hd Hn Hi Hh.
    rewrite (message_delivery w event data i a (reachable_inv w Hw) Ho Hd Hn Hi Hh).
    split; [apply handled_trace; exact Hp|].
    intros evs.
    destruct (handled_player w a p data Hp) as (p1 & Hp1 & Hr1 & _ & _ & _).
    assert (Hw1 : reachable (run_on a (fun env => handleMessage env data) w)).
    { rewrite <- (message_delivery w event data i a (reachable_inv w Hw) Ho Hd Hn Hi Hh).
      apply reachable_step. exact Hw. }
    destruct (ready_forever _ a p1 evs Hw1 Hp1 Hr1) as (p' & Hp' & _ & Hr' & _ & Hq' & _).
    exists p'. auto.
  - intros Hr c. apply invoke_ready; assumption.
Qed.

Lemma queued_commands_are_flushed_in_order_witness :
  heap (run (map (Invoke 0) [playVideo; mute]) sample_page) !! 0 =
    Some (set_messageQueue
            ([] ++ map (fun c => command_message (func_of c) (args_of c)) [playVideo; mute])
            (set_pollReadiness (Some 0) (new_player (resolve_options 0 no_options) 0 1))) /\
  trace (run (map (Invoke 0) [playVideo; mute]) sample_page) = trace sample_page.
Proof.
  apply (proj1 (queued_commands_are_flushed_in_order sample_page 0
                  (set_pollReadiness (Some 0) (new_player (resolve_options 0 no_options) 0 1))
                  sample_page_reachable sample_page_player)).
  reflexivity.
Defined.

(** C1 fails as stated: two commands are queued, the page takes the frame
    out of the document (a re-render, say) while the answer of the remote
    end is on its way, and then the answer arrives.
    The queue is emptied, the frame is logged twice, and neither command
    is posted. *)
Lemma queued_commands_lost_without_window :
  let w0 := run [Invoke 0 playVideo; Invoke 0 (setVolume (VNum 30)); Move 1 None false]
              sample_page in
  let w1 := step w0 (Message (remote_message "c0" "onReady" VNull)) in
  messageQueue <$> heap w0 !! 0 =
    Some [command_message "playVideo" (VArr []);
          command_message "setVolume" (VArr [VNum 30])] /\
  ready <$> heap w0 !! 0 = Some false /\
  messageQueue <$> heap w1 !! 0 = Some [] /\
  ready <$> heap w1 !! 0 = Some true /\
  trace w1 = trace w0 ++ [Logged 1; Logged 1].
Proof. vm_compute. repeat split. Qed.

(** C5.  Once a message for the player [a] has been handled, then
    whatever happens on the page afterwards -- commands, further messages,
    timers, frame loads, [destroy], other players -- the player is ready,
    its timer field is empty, no running timer probes for it, and its
    queue is empty. *)
Theorem readiness_is_monotonic (w : World) (a : nat) (p : Player)
    (event : MessageEvent) (data : value) (i : string) :
  reachable w ->
  heap w !! a = Some p ->
  origin event ∈ attachedListeners w ->
  parsed event = Some data ->
  nullish data = false ->
  prop data "id" = VStr i ->
  messageHandlers w !! i = Some a ->
  forall evs, exists p',
    heap (run evs (step w (Message event))) !! a = Some p' /\
    ready p' = true /\
    pollReadiness p' = None /\
    messageQueue p' = [] /\
    forall t, intervals (run evs (step w (Message event))) !! t <> Some a.
Proof.
  intros Hw Hp Ho Hd Hn Hi Hh evs.
  assert (Hw1 : reachable (step w (Message event))) by (apply reachable_step; exact Hw).
  rewrite (message_delivery w event data i a (reachable_inv w Hw) Ho Hd Hn Hi Hh) in *.
  destruct (handled_player w a p data Hp) as (p1 & Hp1 & Hr1 & _ & _ & _).
  destruct (ready_forever _ a p1 evs Hw1 Hp1 Hr1) as (p' & Hp' & _ & Hr' & Hn' & Hq' & Ht').
  exists p'. auto.
Qed.

Lemma readiness_is_monotonic_witness :
  exists p',
    heap (run [Invoke 0 playVideo; Tick 0; Load 1; Destroy 0]
            (step sample_page (Message (remote_message "c0" "onReady" VNull)))) !! 0 =
      Some p' /\
    ready p' = true /\
    pollReadiness p' = None /\
    messageQueue p' = [] /\
    forall t,
      intervals (run [Invoke 0 playVideo; Tick 0; Load 1; Destroy 0]
                   (step sample_page (Message (remote_message "c0" "onReady" VNull)))) !! t
      <> Some 0.
Proof.
  apply (readiness_is_monotonic sample_page 0
           (set_pollReadiness (Some 0) (new_player (resolve_options 0 no_options) 0 1))
           (remote_message "c0" "onReady" VNull)
           (VObj [("id", VStr "c0"); ("event", VStr "onReady"); ("info", VNull)])
           "c0" sample_page_reachable).
  - exact sample_page_player.
  - exact sample_page_trusts_default_host.
  - reflexivity.
  - reflexivity.
  - reflexivity.
  - vm_compute. reflexivity.
Defined.

(* ===================================================================== *)
(** ** The router                                                         *)
(* ===================================================================== *)

Lemma untrusted_message_ignored (w : World) (event : MessageEvent) :
  origin event ∉ attachedListeners w -> step w (Message event) = w.
Proof.
  intros Ho. simpl. unfold dispatch_message.
  induction (windowListeners w) as [|n IH]; simpl; [reflexivity|].
  rewrite IH. unfold listener. rewrite bool_decide_eq_false_2 by exact Ho. reflexivity.
Qed.

Lemma listener_attached (event : MessageEvent) (w : World) :
  attachedListeners (listener event w) = attachedListeners w.
Proof.
  unfold listener.
  destruct (bool_decide (origin event ∈ attachedListeners w)); [|reflexivity].
  destruct (parsed event) as [data|]; [|reflexivity].
  destruct (nullish data); [reflexivity|].
  destruct (prop data "id"); try reflexivity.
  destruct (messageHandlers w !! s); [|reflexivity].
  apply run_on_fields.
Qed.

Lemma construct_attached (target : Target) (arg : PlayerOptions) (w : World)
    (element : nat) :
  resolve_target w target = Some element ->
  attachedListeners (fst (construct target arg w)) =
  {[opt_host (resolve_options (next_id w) arg)]} ∪ attachedListeners w.
Proof.
  intros Ht.
  destruct (construct_resolved target arg w element Ht)
    as (wa & frame & el & _ & _ & _ & A4 & _ & _ & _ & _ & _ & ->).
  cbv zeta.
  match goal with
  | |- context [attachGlobalListener ?h ?we] =>
      destruct (attachGlobalListener_fields h we) as (_ & _ & _ & _ & _ & _ & _ & G)
  end.
  match goal with
  | |- context [register_events ?a ?l ?wh] =>
      destruct (run_on_fields a
                  (fun env => for_each (fun nh => addEventListener env (fst nh) (snd nh)) l) wh)
        as (_ & _ & R & _)
  end.
  unfold register_events in *.
  destruct (messageHandlers w !! opt_id (resolve_options (next_id w) arg));
    cbn [fst attachedListeners set_messageHandlers];
    rewrite G, R; cbn [attachedListeners handshaken]; rewrite A4; reflexivity.
Qed.

(** The set of trusted origins never loses a member. *)
Lemma step_attached (w : World) (ev : Event) :
  attachedListeners w ⊆ attachedListeners (step w ev).
Proof.
  assert (Heq : forall w', attachedListeners w' = attachedListeners w ->
                           attachedListeners w ⊆ attachedListeners w').
  { intros w' ->. reflexivity. }
  destruct ev as [target arg|a|a c|a name handler|a name handler|a width height
                  |event|t|e|e parent connected]; simpl.
  - destruct (resolve_target w target) as [element|] eqn:Ht.
    + rewrite (construct_attached target arg w element Ht). apply union_subseteq_r.
    + rewrite (construct_unresolved _ _ _ Ht). reflexivity.
  - apply Heq. unfold destroy. destruct (heap w !! a) as [p|]; [|reflexivity].
    destruct (run_on_fields a (fun _ => stopPolling) w) as (_ & _ & R & _).
    destruct (Nat.eqb (iframe p) (originalElement p)); simpl; [exact R|].
    destruct (document (run_on a (fun _ => stopPolling) w) !! iframe p) as [el|]; [|exact R].
    destruct (parentNode el); [|exact R]. simpl.
    destruct (replaceChild_fields (originalElement p) (iframe p)
                (run_on a (fun _ => stopPolling) w)) as (_ & _ & _ & A & _).
    congruence.
  - apply Heq. apply run_on_fields.
  - apply Heq. apply run_on_fields.
  - apply Heq. apply run_on_fields.
  - apply Heq. unfold setSize. destruct (heap w !! a); [|reflexivity].
    unfold setAttribute.
    match goal with
    | |- context [update_element ?e1 ?f1 (update_element ?e2 ?f2 ?w0)] =>
        destruct (update_element_fields e2 f2 w0) as (_ & _ & _ & B & _);
        destruct (update_element_fields e1 f1 (update_element e2 f2 w0)) as (_ & _ & _ & C & _)
    end.
    congruence.
  - apply Heq. unfold dispatch_message. generalize (windowListeners w). intros n.
    induction n as [|n IH]; simpl; [reflexivity|].
    rewrite listener_attached. exact IH.
  - apply Heq. unfold fire_timer. destruct (intervals w !! t); [|reflexivity].
    apply run_on_fields.
  - apply Heq. unfold dispatch_load.
    destruct (document w !! e) as [el|]; [|reflexivity].
    destruct (isConnected el); [|reflexivity].
    generalize (loadListeners el). intros l.
    assert (H : forall w0, attachedListeners w0 = attachedListeners w ->
                attachedListeners (fold_left (fun w' a => run_on a emitListening w') l w0) =
                attachedListeners w).
    { induction l as [|a' l IH]; intros w0 H0; simpl; [exact H0|].
      apply IH. rewrite <- H0. apply run_on_fields. }
    apply H. reflexivity.
  - apply Heq. apply update_element_fields.
Qed.

Lemma two_hosts_page_reachable : reachable two_hosts_page.
Proof.
  exists [placeholder; second_placeholder],
         [New (TargetId "player") with_callback; New (TargetId "other") other_host].
  split; [|reflexivity].
  constructor; [reflexivity|]. constructor; [reflexivity|constructor].
Qed.

(** C2, as the code has it.  The origin of a message is looked up in one
    set shared by all players: a message whose origin is not in the set
    changes nothing (no callback runs, no player becomes ready); on a
    reachable page every member of the set is the configured host of some
    player constructed so far; the set never loses a member; and a
    construction whose target resolves adds its host to it.  A message
    whose origin is in the set is routed by its identifier alone: the
    player registered under the identifier handles it and is ready
    afterwards, whatever host that player is configured with. *)
Theorem origin_is_checked_against_the_shared_set (w : World) :
  (forall event, origin event ∉ attachedListeners w -> step w (Message event) = w) /\
  (reachable w ->
   forall h, h ∈ attachedListeners w ->
             exists a p, heap w !! a = Some p /\ opt_host (options p) = h) /\
  (forall ev, attachedListeners w ⊆ attachedListeners (step w ev)) /\
  (forall target arg element,
     resolve_target w target = Some element ->
     attachedListeners (step w (New target arg)) =
     {[opt_host (resolve_options (next_id w) arg)]} ∪ attachedListeners w) /\
  (reachable w ->
   forall event data i a,
     origin event ∈ attachedListeners w ->
     parsed event = Some data ->
     nullish data = false ->
     prop data "id" = VStr i ->
     messageHandlers w !! i = Some a ->
     step w (Message event) = run_on a (fun env => handleMessage env data) w /\
     forall p,
       heap w !! a = Some p ->
       exists p',
         heap (step w (Message event)) !! a = Some p' /\
         ready p' = true /\ same_identity p p').
Proof.
  split; [|split; [|split; [|split]]].
  - intros event. apply untrusted_message_ignored.
  - intros Hw. apply (inv_origins w (reachable_inv w Hw)).
  - apply step_attached.
  - intros target arg element. apply construct_attached.
  - intros Hw event data i a Ho Hd Hn Hi Hh.
    pose proof (message_delivery w event data i a (reachable_inv w Hw) Ho Hd Hn Hi Hh)
      as Hstep.
    split; [exact Hstep|].
    intros p Hp. rewrite Hstep.
    destruct (handled_player w a p data Hp) as (p1 & H1 & Hr & _ & _ & Hid).
    exists p1. auto.
Qed.

Lemma origin_is_checked_against_the_shared_set_witness :
  step sample_page
    (Message {| origin := "https://example.org";
                parsed := Some (VObj [("id", VStr "c0"); ("event", VStr "onReady")]) |}) =
  sample_page /\
  step two_hosts_page
    (Message {| origin := "https://www.youtube-nocookie.com";
                parsed := Some (VObj [("id", VStr "c0"); ("event", VStr "onReady")]) |}) =
  run_on 0
    (fun env => handleMessage env (VObj [("id", VStr "c0"); ("event", VStr "onReady")]))
    two_hosts_page.
Proof.
  split.
  - apply (proj1 (origin_is_checked_against_the_shared_set sample_page)).
    apply (bool_decide_unpack _). vm_compute. exact I.
  - apply (proj1 (proj2 (proj2 (proj2 (proj2
             (origin_is_checked_against_the_shared_set two_hosts_page))))
             two_hosts_page_reachable
             {| origin := "https://www.youtube-nocookie.com";
                parsed := Some (VObj [("id", VStr "c0"); ("event", VStr "onReady")]) |}
             (VObj [("id", VStr "c0"); ("event", VStr "onReady")]) "c0" 0
             ltac:(apply (bool_decide_unpack _); vm_compute; exact I)
             eq_refl eq_refl eq_refl
             ltac:(vm_compute; reflexivity))).
Defined.

(** C2 fails as stated: the first player is configured with the default
    host, the second with another host.  A message whose origin is the
    host of the second player and whose identifier is that of the first
    is handled by the first player: it becomes ready and its [onReady]
    callback runs. *)
Lemma message_from_host_of_another_player_is_accepted :
  let event := {| origin := "https://www.youtube-nocookie.com";
                  parsed := Some (VObj [("id", VStr "c0"); ("event", VStr "onReady")]) |} in
  let w' := step two_hosts_page (Message event) in
  opt_host <$> (options <$> heap two_hosts_page !! 0) = Some "https://www.youtube.com" /\
  ready <$> heap two_hosts_page !! 0 = Some false /\
  ready <$> heap w' !! 0 = Some true /\
  last (trace w') = Some (Called 7 {| target := 0; type := "onReady"; data := VUndefined |}).
Proof. vm_compute. repeat split. Qed.

(* ===================================================================== *)
(** ** Construction with an identifier that is taken                      *)
(* ===================================================================== *)

(** Registering a callback on a player that is not ready. *)
Lemma addEventListener_not_ready (env : Env) (name : string) (handler : Handler)
    (p : Player) :
  ready p = false ->
  snd (addEventListener env name handler p) = [] /\
  ready (fst (addEventListener env name handler p)) = false /\
  pollReadiness (fst (addEventListener env name handler p)) = pollReadiness p /\
  iframe (fst (addEventListener env name handler p)) = iframe p /\
  (exists hs, events (fst (addEventListener env name handler p)) !! name = Some hs /\
              handler ∈ hs) /\
  (forall n hs0 h0,
     events p !! n = Some hs0 -> h0 ∈ hs0 ->
     exists hs', events (fst (addEventListener env name handler p)) !! n = Some hs' /\
                 h0 ∈ hs').
Proof.
  intros Hr. unfold addEventListener.
  destruct (events p !! name) as [hs|] eqn:He.
  - simpl. repeat split; try assumption.
    + exists (hs ++ [handler]). split; [apply lookup_insert_eq|].
      apply elem_of_app. right. apply list_elem_of_singleton. reflexivity.
    + intros n hs0 h0 Hn Hin. rewrite lookup_insert.
      destruct (decide (name = n)) as [<-|Hne].
      * exists (hs ++ [handler]). split; [reflexivity|].
        apply elem_of_app. left. congruence.
      * exists hs0. split; assumption.
  - unfold seq, sendCommand. simpl. rewrite Hr. simpl.
    repeat split; try assumption.
    + exists [handler]. split; [apply lookup_insert_eq|].
      apply list_elem_of_singleton. reflexivity.
    + intros n hs0 h0 Hn Hin. rewrite lookup_insert.
      destruct (decide (name = n)) as [<-|Hne]; [congruence|].
      exists hs0. split; assumption.
Qed.

Lemma register_not_ready (env : Env) (l : list (string * Handler)) (p : Player) :
  ready p = false ->
  let r := for_each (fun nh => addEventListener env (fst nh) (snd nh)) l p in
  snd r = [] /\
  ready (fst r) = false /\
  pollReadiness (fst r) = pollReadiness p /\
  iframe (fst r) = iframe p /\
  (forall name handler,
     (name, handler) ∈ l ->
     exists hs, events (fst r) !! name = Some hs /\ handler ∈ hs) /\
  (forall n hs0 h0,
     events p !! n = Some hs0 -> h0 ∈ hs0 ->
     exists hs', events (fst r) !! n = Some hs' /\ h0 ∈ hs').
Proof.
  revert p. induction l as [|[name handler] l IH]; intros p Hr; cbv zeta.
  - simpl. repeat split; try assumption.
    + intros n h Hin. inversion Hin.
    + intros n hs0 h0 Hn Hin. exists hs0. split; assumption.
  - simpl for_each. unfold seq. cbn [fst snd].
    destruct (addEventListener_not_ready env name handler p Hr)
      as (E1 & R1 & P1 & F1 & (hs1 & Hhs1 & Hin1) & M1).
    destruct (IH _ R1) as (E2 & R2 & P2 & F2 & L2 & M2).
    rewrite E1, E2. split; [reflexivity|]. split; [exact R2|].
    split; [congruence|]. split; [congruence|]. split.
    + intros n h Hin. apply elem_of_cons in Hin. destruct Hin as [Heq|Hin].
      * inversion Heq. subst n h. apply (M2 name hs1 handler Hhs1 Hin1).
      * apply L2. exact Hin.
    + intros n hs0 h0 Hn Hin.
      destruct (M1 n hs0 h0 Hn Hin) as (hs' & Hhs' & Hin').
      apply (M2 n hs' h0 Hhs' Hin').
Qed.




(* ===================================================================== *)
(** ** Event subscription                                                 *)
(* ===================================================================== *)

Lemma remove_first_nil (h : Handler) (l : list Handler) :
  remove_first h l = [] -> l = [] \/ l = [h].
Proof.
  destruct l as [|x [|y r]]; simpl.
  - auto.
  - destruct (Nat.eqb_spec x h) as [->|Hne]; [auto|discriminate].
  - destruct (Nat.eqb x h); discriminate.
Qed.

Lemma sendCommand_events (env : Env) (func : string) (args : value)
    (m : gmap string (list Handler)) (p : Player) :
  sendCommand env func args (set_events m p) =
  (set_events m (fst (sendCommand env func args p)), snd (sendCommand env func args p)).
Proof.
  unfold sendCommand. simpl. destruct (ready p); [|reflexivity].
  rewrite !sendMessage_eq. reflexivity.
Qed.

Lemma flush_effects_no_call (env : Env) (p : Player) (h : Handler) (e : PlayerEvent) :
  CallHandler h e ∉ flush_effects env p.
Proof.
  unfold flush_effects. intros Hin. apply elem_of_app in Hin. destruct Hin as [Hin|Hin].
  - apply list_elem_of_fmap in Hin. destruct Hin as (m & Hm & _).
    unfold transmit in Hm. destruct (contentWindow env); discriminate.
  - destruct (pollReadiness p); [|inversion Hin].
    apply list_elem_of_singleton in Hin. discriminate.
Qed.

(** What a first [addEventListener] or a last [removeEventListener] does
    with its command, in the three situations of the player. *)
Lemma subscription_command (env : Env) (func name : string)
    (m : gmap string (list Handler)) (p : Player) :
  (ready p = false ->
   sendCommand env func (VArr [VStr name]) (set_events m p) =
   (set_events m
      (set_messageQueue
         (messageQueue p ++
          [VObj [("event", VStr "command"); ("func", VStr func);
                 ("args", VArr [VStr name])]]) p), [])) /\
  (ready p = true -> contentWindow env = true ->
   sendCommand env func (VArr [VStr name]) (set_events m p) =
   (set_events m p,
    [PostMessage
       (render (JObj [("event", JStr "command"); ("func", JStr func);
                      ("args", JArr [JStr name]);
                      ("id", JStr (player_id p)); ("channel", JStr "widget")]))
       (opt_host (options p))])) /\
  (ready p = true -> contentWindow env = false ->
   sendCommand env func (VArr [VStr name]) (set_events m p) = (set_events m p, [ConsoleLog])).
Proof.
  unfold sendCommand, sendMessage. simpl ready. simpl contentWindow.
  repeat split; intros Hr; try intros Hw; rewrite Hr; try rewrite Hw; reflexivity.
Qed.

(** C9, as the code has it.  For a player of a reachable page and an
    event name.  [addEventListener] on a name without handlers stores the
    handler and makes one subscribe command
    [{event: 'command', func: 'addEventListener', args: [name]}]: the
    command joins the queue when the player is not ready, is posted when
    the player is ready and its frame has a content window, and is lost
    (the frame is written to the console) when the player is ready and the
    frame has none.  On a name with handlers it appends the handler, also
    when it is there already, and makes no command.
    [removeEventListener] of the only handler of a name forgets the name
    and makes one unsubscribe command, which goes the same three ways;
    every other [removeEventListener] makes no command and leaves at least
    one handler under a name that has handlers.  A handler registered
    twice is called twice for a domain event of that name. *)
Theorem listeners_subscribe_on_first_and_unsubscribe_on_last
    (w : World) (a : nat) (p : Player) (env : Env) (name : string) (handler : Handler) :
  reachable w ->
  heap w !! a = Some p ->
  (events p !! name = None ->
   let stored := set_events (<[name := [handler]]> (events p)) in
   (ready p = false ->
    addEventListener env name handler p =
    (stored (set_messageQueue
               (messageQueue p ++
                [VObj [("event", VStr "command"); ("func", VStr "addEventListener");
                       ("args", VArr [VStr name])]]) p), [])) /\
   (ready p = true -> contentWindow env = true ->
    addEventListener env name handler p =
    (stored p,
     [PostMessage
        (render (JObj [("event", JStr "command"); ("func", JStr "addEventListener");
                       ("args", JArr [JStr name]);
                       ("id", JStr (player_id p)); ("channel", JStr "widget")]))
        (opt_host (options p))])) /\
   (ready p = true -> contentWindow env = false ->
    addEventListener env name handler p = (stored p, [ConsoleLog]))) /\
  (forall hs,
     events p !! name = Some hs ->
     addEventListener env name handler p =
     (set_events (<[name := hs ++ [handler]]> (events p)) p, [])) /\
  (events p !! name = Some [handler] ->
   let forgotten := set_events (delete name (events p)) in
   (ready p = false ->
    removeEventListener env name handler p =
    (forgotten (set_messageQueue
                  (messageQueue p ++
                   [VObj [("event", VStr "command"); ("func", VStr "removeEventListener");
                          ("args", VArr [VStr name])]]) p), [])) /\
   (ready p = true -> contentWindow env = true ->
    removeEventListener env name handler p =
    (forgotten p,
     [PostMessage
        (render (JObj [("event", JStr "command"); ("func", JStr "removeEventListener");
                       ("args", JArr [JStr name]);
                       ("id", JStr (player_id p)); ("channel", JStr "widget")]))
        (opt_host (options p))])) /\
   (ready p = true -> contentWindow env = false ->
    removeEventListener env name handler p = (forgotten p, [ConsoleLog]))) /\
  (forall hs,
     events p !! name = Some hs -> hs <> [handler] ->
     removeEventListener env name handler p =
     (set_events (<[name := remove_first handler hs]> (events p)) p, []) /\
     remove_first handler hs <> []) /\
  (events p !! name = None -> removeEventListener env name handler p = (p, [])) /\
  (events p !! name = None ->
   forall data,
     prop data "event" = VStr name ->
     name <> "initialDelivery" -> name <> "infoDelivery" -> name <> "apiInfoDelivery" ->
     let p2 := fst (addEventListener env name handler
                      (fst (addEventListener env name handler p))) in
     let event := {| target := this env; type := name; data := prop data "info" |} in
     events p2 !! name = Some [handler; handler] /\
     exists pre,
       snd (handleMessage env data p2) =
         pre ++ [CallHandler handler event; CallHandler handler event] /\
       forall h e, CallHandler h e ∉ pre).
Proof.
  intros Hw Hp.
  destruct (inv_players w (reachable_inv w Hw) a p Hp) as [_ Hwf].
  split; [|split; [|split; [|split; [|split]]]].
  - intros He. cbv zeta.
    assert (Hadd : addEventListener env name handler p =
                   sendCommand env "addEventListener" (VArr [VStr name])
                     (set_events (<[name := [handler]]> (events p)) p)).
    { unfold addEventListener. rewrite He. unfold seq, modify. simpl.
      destruct (sendCommand env "addEventListener" (VArr [VStr name])
                  (set_events (<[name := [handler]]> (events p)) p)); reflexivity. }
    rewrite Hadd.
    apply (subscription_command env "addEventListener" name).
  - intros hs He. unfold addEventListener. rewrite He. reflexivity.
  - intros He. cbv zeta.
    assert (Hdel : forall q : Player,
               events q = <[name := []]> (events p) ->
               set_events (delete name (events q)) q =
               set_events (delete name (events p)) q).
    { intros q Hq. rewrite Hq, delete_insert_eq. reflexivity. }
    assert (Hrem : removeEventListener env name handler p =
                   (set_events (delete name (events p))
                      (fst (sendCommand env "removeEventListener" (VArr [VStr name])
                              (set_events (<[name := []]> (events p)) p))),
                    snd (sendCommand env "removeEventListener" (VArr [VStr name])
                           (set_events (<[name := []]> (events p)) p)))).
    { unfold removeEventListener. rewrite He. simpl. rewrite Nat.eqb_refl.
      unfold seq, modify. simpl. rewrite app_nil_r. f_equal.
      apply Hdel. rewrite sendCommand_events. reflexivity. }
    rewrite Hrem.
    destruct (subscription_command env "removeEventListener" name
                (<[name := []]> (events p)) p) as (Q & P1 & P2).
    split; [|split].
    + intros Hr. rewrite (Q Hr). reflexivity.
    + intros Hr Hc. rewrite (P1 Hr Hc). reflexivity.
    + intros Hr Hc. rewrite (P2 Hr Hc). reflexivity.
  - intros hs He Hne.
    assert (Hrem : remove_first handler hs <> []).
    { intros Hnil. destruct (remove_first_nil _ _ Hnil) as [->| ->].
      - apply (Hwf name [] He). reflexivity.
      - apply Hne. reflexivity. }
    split; [|exact Hrem].
    unfold removeEventListener. rewrite He.
    destruct (remove_first handler hs) as [|x rest]; [congruence|]. reflexivity.
  - intros He. unfold removeEventListener. rewrite He. reflexivity.
  - intros He data Hev N1 N2 N3. cbv zeta.
    set (p1 := fst (addEventListener env name handler p)).
    assert (H1 : events p1 !! name = Some [handler]).
    { unfold p1, addEventListener. rewrite He. unfold seq. simpl.
      rewrite sendCommand_events. simpl. apply lookup_insert_eq. }
    assert (H2 : events (fst (addEventListener env name handler p1)) !! name =
                 Some [handler; handler]).
    { unfold addEventListener at 1. rewrite H1. simpl. apply lookup_insert_eq. }
    split; [exact H2|].
    exists (flush_effects env (fst (addEventListener env name handler p1))).
    split; [|intros h e; apply flush_effects_no_call].
    rewrite handleMessage_eq. simpl snd. f_equal.
    unfold deliver. rewrite Hev. simpl is_str.
    rewrite (proj2 (String.eqb_neq _ _) N1), (proj2 (String.eqb_neq _ _) N2),
            (proj2 (String.eqb_neq _ _) N3).
    unfold emit. simpl events. rewrite H2. rewrite for_each_tell. reflexivity.
Qed.

Lemma listeners_subscribe_on_first_and_unsubscribe_on_last_witness :
  addEventListener in_document "onStateChange" 7
    (set_pollReadiness (Some 0) (new_player (resolve_options 0 no_options) 0 1)) =
  (set_events (<["onStateChange" := [7]]> ∅)
     (set_messageQueue
        [VObj [("event", VStr "command"); ("func", VStr "addEventListener");
               ("args", VArr [VStr "onStateChange"])]]
        (set_pollReadiness (Some 0) (new_player (resolve_options 0 no_options) 0 1))),
   []).
Proof.
  apply (proj1 (proj1 (listeners_subscribe_on_first_and_unsubscribe_on_last
                         sample_page 0
                         (set_pollReadiness (Some 0)
                            (new_player (resolve_options 0 no_options) 0 1))
                         in_document "onStateChange" 7
                         sample_page_reachable sample_page_player) eq_refl)).
  reflexivity.
Defined.

(** C9 fails as stated: a player is made for a placeholder, the remote end
    answers, the player is destroyed (its frame leaves the document) and
    [addEventListener] is called for a name without handlers.  The handler
    is stored, but no subscribe command is issued: nothing is posted and
    nothing is queued, the frame is logged instead. *)
Lemma subscription_after_destroy_is_dropped :
  let w := run [New (TargetId "player") no_options;
                Message (remote_message "c0" "onReady" VNull);
                Destroy 0] (initial [placeholder]) in
  let w' := step w (AddEventListener 0 "onStateChange" 7) in
  ready <$> heap w !! 0 = Some true /\
  (fun p => events p !! "onStateChange") <$> heap w !! 0 = Some None /\
  (fun p => events p !! "onStateChange") <$> heap w' !! 0 = Some (Some [7]) /\
  messageQueue <$> heap w' !! 0 = Some [] /\
  trace w' = trace w ++ [Logged 1].
Proof. vm_compute. repeat split. Qed.

(* ===================================================================== *)
(** ** The load listener                                                  *)
(* ===================================================================== *)

Lemma set_trace_id (w : World) : set_trace (trace w) w = w.
Proof. destruct w; reflexivity. Qed.

Lemma run_on_emitListening (w : World) (a : nat) (p : Player) :
  heap w !! a = Some p ->
  run_on a emitListening w =
  set_trace (trace w ++ [if has_contentWindow w (iframe p)
                         then probe p else Logged (iframe p)]) w.
Proof.
  intros Hp. rewrite (run_on_eq _ _ _ _ Hp).
  unfold emitListening. rewrite sendMessage_eq. cbn [fst snd].
  rewrite list_insert_id by exact Hp.
  unfold transmit, probe. cbn [contentWindow].
  destruct (has_contentWindow w (iframe p)); destruct w; reflexivity.
Qed.






(* ===================================================================== *)
(** ** The frame that the constructor creates                             *)
(* ===================================================================== *)

Lemma createIframe_dimensions (counter : nat) (arg : PlayerOptions) :
  nullish (arg_width arg) = true ->
  nullish (arg_height arg) = true ->
  assoc_get "width" (attributes (createIframe (resolve_options counter arg))) = Some "640" /\
  assoc_get "height" (attributes (createIframe (resolve_options counter arg))) = Some "390".
Proof.
  intros Hw Hh. unfold createIframe, resolve_options. simpl.
  rewrite Hw, Hh. split; reflexivity.
Qed.

(** The frame made for a target that is not a frame: it is the next
    element of the store and, once named and put in place, it has the
    attributes that [createIframe] gave it and its [id]. *)
Lemma created_frame_prepared (options : Options) (element : nat) (old : Element)
    (val : string) (w : World) :
  document w !! element = Some old ->
  String.eqb (tagName old) "IFRAME" = false ->
  let fw := obtain_frame options element w in
  let wa := place_frame (fst fw) element (setAttribute (fst fw) "id" val (snd fw)) in
  fst fw = length (document w) /\
  exists fr,
    document wa !! fst fw = Some fr /\
    attributes fr = assoc_set "id" val (attributes (createIframe options)).
Proof.
  intros Hold Htag. cbv zeta. unfold obtain_frame. rewrite Hold, Htag. cbn [fst snd].
  split; [reflexivity|].
  set (frame := length (document w)).
  set (w1 := setAttribute frame "id" val
               (set_document (document w ++ [createIframe options]) w)).
  assert (Hlt : element < frame) by (apply lookup_lt_Some in Hold; exact Hold).
  assert (H1 : document w1 !! frame =
               Some (set_attributes (assoc_set "id" val (attributes (createIframe options)))
                       (createIframe options))).
  { unfold w1, setAttribute. rewrite update_element_document.
    rewrite decide_True by reflexivity. simpl.
    unfold frame. rewrite list_lookup_middle by reflexivity. reflexivity. }
  unfold place_frame.
  destruct (Nat.eqb_spec frame element) as [Heq|Hne]; [lia|].
  destruct (document w1 !! element) as [old1|] eqn:Hold1; [|eexists; split; [exact H1|reflexivity]].
  destruct (parentNode old1); [|eexists; split; [exact H1|reflexivity]].
  unfold replaceChild. rewrite Hold1.
  rewrite update_element_document. rewrite decide_False by exact Hne.
  rewrite update_element_document. rewrite decide_True by reflexivity.
  rewrite H1. simpl. eexists. split; reflexivity.
Qed.

(** C8, as the code has it.  When the target resolves to an element that
    is not a frame and the caller gives no width and no height (absent,
    [undefined] or [null]), the player made -- whether or not the
    constructor then throws for a taken identifier -- controls a new
    frame, and that frame carries the default dimensions:
    [width="640"] and [height="390"]. *)
Theorem created_frame_has_default_dimensions
    (target : Target) (arg : PlayerOptions) (w : World) (element : nat) (old : Element) :
  resolve_target w target = Some element ->
  document w !! element = Some old ->
  String.eqb (tagName old) "IFRAME" = false ->
  nullish (arg_width arg) = true ->
  nullish (arg_height arg) = true ->
  exists p fr,
    heap (fst (construct target arg w)) !! length (heap w) = Some p /\
    iframe p = length (document w) /\
    iframe p <> originalElement p /\
    document (fst (construct target arg w)) !! iframe p = Some fr /\
    assoc_get "width" (attributes fr) = Some "640" /\
    assoc_get "height" (attributes fr) = Some "390".
Proof.
  intros Ht Hold Htag Hw Hh. unfold construct.
  set (options := resolve_options (next_id w) arg).
  set (w0 := set_next_id (S (next_id w)) w).
  assert (Ht0 : resolve_target w0 target = Some element)
    by (unfold w0; rewrite resolve_target_next_id; exact Ht).
  rewrite Ht0.
  pose proof (resolve_target_some _ _ _ Ht0) as Hsome.
  destruct (frame_prepared options element "id" ("widget" +:+ opt_id options) w0 Hsome)
    as (A1 & _ & _ & _ & _ & _ & _ & _ & _ & _).
  destruct (created_frame_prepared options element old ("widget" +:+ opt_id options) w0
              Hold Htag) as (Hframe & fr & Hfr & Hattrs).
  set (frame := fst (obtain_frame options element w0)) in *.
  set (wa := place_frame frame element
               (setAttribute frame "id" ("widget" +:+ opt_id options)
                  (snd (obtain_frame options element w0)))) in *.
  rewrite (begin_handshake_eq options element frame fr wa Hfr).
  set (wh := handshaken options element frame fr wa).
  set (np := set_pollReadiness (Some (next_timer wa)) (new_player options element frame)).
  assert (Hnp : heap wh !! length (heap wa) = Some np).
  { unfold wh, handshaken. simpl. apply list_lookup_middle. reflexivity. }
  destruct (run_on_forward (length (heap wa))
              (fun env => for_each (fun nh => addEventListener env (fst nh) (snd nh))
                            (opt_events options))
              wh _ _ (polite_register (opt_events options)) Hnp)
    as (p & Hp & (_ & _ & Hi & Ho) & _).
  destruct (run_on_fields (length (heap wa))
              (fun env => for_each (fun nh => addEventListener env (fst nh) (snd nh))
                            (opt_events options)) wh) as (Hdoc & _).
  fold (register_events (length (heap wa)) (opt_events options) wh) in Hp, Hdoc.
  set (we := register_events (length (heap wa)) (opt_events options) wh) in *.
  destruct (attachGlobalListener_fields (opt_host options) we) as (G1 & G2 & _).
  assert (Hlen : length (heap w) = length (heap wa)) by (rewrite A1; reflexivity).
  exists p, (set_loadListeners (loadListeners fr ++ [length (heap wa)]) fr).
  assert (Hfinal :
    heap (attachGlobalListener (opt_host options) we) !! length (heap w) = Some p /\
    iframe p = length (document w) /\
    iframe p <> originalElement p /\
    document (attachGlobalListener (opt_host options) we) !! iframe p =
      Some (set_loadListeners (loadListeners fr ++ [length (heap wa)]) fr) /\
    assoc_get "width" (attributes (set_loadListeners (loadListeners fr ++ [length (heap wa)]) fr))
      = Some "640" /\
    assoc_get "height" (attributes (set_loadListeners (loadListeners fr ++ [length (heap wa)]) fr))
      = Some "390").
  { rewrite G1, G2, Hdoc, Hlen, Hi, Ho. simpl iframe. simpl originalElement.
    split; [exact Hp|]. split; [exact Hframe|].
    split; [rewrite Hframe; unfold w0; simpl; apply lookup_lt_Some in Hold; lia|].
    split; [unfold wh, handshaken; simpl; apply list_lookup_insert_eq;
            apply lookup_lt_Some in Hfr; exact Hfr|].
    simpl attributes. rewrite Hattrs, !assoc_get_set. simpl.
    apply createIframe_dimensions; assumption. }
  destruct (messageHandlers (attachGlobalListener (opt_host options) we) !! opt_id options);
    exact Hfinal.
Qed.

Lemma created_frame_has_default_dimensions_witness :
  exists p fr,
    heap (fst (construct (TargetId "player") no_options (initial [placeholder]))) !!
      length (heap (initial [placeholder])) = Some p /\
    iframe p = length (document (initial [placeholder])) /\
    iframe p <> originalElement p /\
    document (fst (construct (TargetId "player") no_options (initial [placeholder]))) !!
      iframe p = Some fr /\
    assoc_get "width" (attributes fr) = Some "640" /\
    assoc_get "height" (attributes fr) = Some "390".
Proof.
  apply (created_frame_has_default_dimensions
           (TargetId "player") no_options (initial [placeholder]) 0 placeholder);
    reflexivity.
Defined.

(* ===================================================================== *)
(** ** Further properties: the embed URL and the frame                    *)
(* ===================================================================== *)

Lemma filter_filter_same {A : Type} (f : A -> bool) (l : list A) :
  List.filter f (List.filter f l) = List.filter f l.
Proof.
  induction l as [|x l IH]; simpl; [reflexivity|].
  destruct (f x) eqn:E; simpl; rewrite ?E, IH; reflexivity.
Qed.

Lemma filter_filter_neg {A : Type} (f : A -> bool) (l : list A) :
  List.filter f (List.filter (fun x => negb (f x)) l) = [].
Proof.
  induction l as [|x l IH]; simpl; [reflexivity|].
  destruct (f x) eqn:E; simpl; rewrite ?E; exact IH.
Qed.

Lemma params_set_others (name val : string) (l : list (string * string)) :
  List.filter (fun kv => negb (String.eqb (fst kv) name)) (params_set name val l) =
  List.filter (fun kv => negb (String.eqb (fst kv) name)) l.
Proof.
  induction l as [|[k x] l IH]; simpl.
  - rewrite String.eqb_refl. reflexivity.
  - destruct (String.eqb k name) eqn:E; simpl; rewrite E; simpl.
    + apply filter_filter_same.
    + rewrite IH. reflexivity.
Qed.

Lemma params_set_one (name val : string) (l : list (string * string)) :
  List.filter (fun kv => String.eqb (fst kv) name) (params_set name val l) = [(name, val)].
Proof.
  induction l as [|[k x] l IH]; simpl.
  - rewrite String.eqb_refl. reflexivity.
  - destruct (String.eqb_spec k name) as [->|Hne]; simpl.
    + rewrite String.eqb_refl.
      rewrite (filter_filter_neg (fun kv => String.eqb (fst kv) name)). reflexivity.
    + rewrite (proj2 (String.eqb_neq _ _) Hne). exact IH.
Qed.

(** X1.  The embed URL is the host, [/embed/], the video id, [?] and the
    query.  The query has exactly one [enablejsapi] pair, with the value
    [1], whatever [playerVars] has under that name; every other pair is
    an entry of [Object.entries(options.playerVars)] whose value is neither
    [null] nor [undefined], written with [String(value)], and these pairs
    stand in the order in which [Object.entries] returns them. *)
Theorem embed_url_forces_enablejsapi (options : Options) :
  getEmbedUrl options =
    opt_host options +:+ "/embed/" +:+ opt_videoId options +:+ "?" +:+
    params_toString (embed_params options) /\
  List.filter (fun kv => String.eqb (fst kv) "enablejsapi") (embed_params options) =
    [("enablejsapi", "1")] /\
  List.filter (fun kv => negb (String.eqb (fst kv) "enablejsapi")) (embed_params options) =
    map (fun kv => (fst kv, to_String (snd kv)))
        (List.filter (fun kv => negb (nullish (snd kv)) &&
                                negb (String.eqb (fst kv) "enablejsapi"))
                     (opt_playerVars options)).
Proof.
  split; [reflexivity|]. split; [apply params_set_one|].
  unfold embed_params. rewrite params_set_others.
  induction (opt_playerVars options) as [|[k x] l IH]; simpl; [reflexivity|].
  destruct (nullish x); simpl; [exact IH|].
  destruct (String.eqb k "enablejsapi"); simpl; rewrite IH; reflexivity.
Qed.

(** X2.  The frame that [createIframe] makes for the options of a
    constructor call has no [width] attribute exactly when the caller gave
    a width that is not [null] or [undefined] and is falsy (0, the empty
    string, [false]); otherwise the attribute is [String] of the width
    given, or 640 when none was given.  The same holds for [height] and
    390. *)
Theorem dimension_omitted_only_for_falsy_value (counter : nat) (arg : PlayerOptions) :
  let frame := createIframe (resolve_options counter arg) in
  (assoc_get "width" (attributes frame) =
     if nullish (arg_width arg) then Some "640"
     else if truthy (arg_width arg) then Some (to_String (arg_width arg))
     else None) /\
  (assoc_get "height" (attributes frame) =
     if nullish (arg_height arg) then Some "390"
     else if truthy (arg_height arg) then Some (to_String (arg_height arg))
     else None).
Proof.
  cbv zeta. unfold createIframe, resolve_options. simpl.
  destruct (nullish (arg_width arg)); destruct (nullish (arg_height arg)); simpl;
    repeat match goal with
           | |- context [truthy ?v] => destruct (truthy v)
           end; split; reflexivity.
Qed.

(** The snapshot after a state-delivery message. *)
Lemma infoDelivery_merges_and_initialDelivery_replaces_aux
    (env : Env) (data : value) (p : Player) :
  (prop data "event" = VStr "infoDelivery" ->
   exists fs,
     info (fst (handleMessage env data p)) = VObj fs /\
     forall k,
       assoc_get k fs =
       match assoc_get k (own_props (prop data "info")) with
       | Some v => Some v
       | None => assoc_get k (own_props (info p))
       end) /\
  (prop data "event" = VStr "initialDelivery" ->
   info (fst (handleMessage env data p)) = prop data "info").
Proof.
  rewrite handleMessage_eq. simpl. unfold deliver. split; intros H; rewrite H; simpl.
  - eexists. split; [reflexivity|]. intros k.
    rewrite !assoc_get_spread. simpl.
    destruct (assoc_get k (own_props (prop data "info"))); [reflexivity|].
    destruct (assoc_get k (own_props (info p))); reflexivity.
  - reflexivity.
Qed.

(* ===================================================================== *)
(** ** Further properties: messages, snapshot and callbacks               *)
(* ===================================================================== *)

(** X3.  Whatever [data] is handed to [#sendMessage], the payload has the
    identifier of the player under [id] and ['widget'] under [channel],
    also when [data] has properties of these names; every other property
    is the one of [data]. *)
Theorem payload_identifies_the_player (p : Player) (data : value) :
  assoc_get "id" (payload p data) = Some (VStr (player_id p)) /\
  assoc_get "channel" (payload p data) = Some (VStr "widget") /\
  forall k, k <> "id" -> k <> "channel" ->
            assoc_get k (payload p data) = assoc_get k (own_props data).
Proof.
  unfold payload. split; [|split].
  - rewrite !assoc_get_set. reflexivity.
  - rewrite assoc_get_set. reflexivity.
  - intros k H1 H2. rewrite !assoc_get_set, assoc_get_spread.
    rewrite (proj2 (String.eqb_neq _ _) H1), (proj2 (String.eqb_neq _ _) H2).
    destruct (assoc_get k (own_props data)); reflexivity.
Qed.

Lemma payload_identifies_the_player_witness :
  assoc_get "func" (payload sample_player (command_message "playVideo" (VArr []))) =
  assoc_get "func" (own_props (command_message "playVideo" (VArr []))).
Proof.
  apply (proj2 (proj2 (payload_identifies_the_player sample_player
                         (command_message "playVideo" (VArr []))))); discriminate.
Defined.

(** X4.  An [initialDelivery] message without [info] (or with [null])
    leaves the snapshot [undefined] (or [null]): every getter then throws.
    The next [infoDelivery] puts an object back, and the getters return
    the fields of that message and [undefined] for every other name. *)
Theorem getters_throw_after_empty_initialDelivery
    (env : Env) (data data' : value) (p : Player) (key : string) :
  prop data "event" = VStr "initialDelivery" ->
  nullish (prop data "info") = true ->
  prop data' "event" = VStr "infoDelivery" ->
  let p1 := fst (handleMessage env data p) in
  let p2 := fst (handleMessage env data' p1) in
  getter key p1 = None /\
  getVideoId p1 = None /\
  getter key p2 =
    Some (match assoc_get key (own_props (prop data' "info")) with
          | Some v => v
          | None => VUndefined
          end).
Proof.
  intros He Hn He'. cbv zeta.
  destruct (infoDelivery_merges_and_initialDelivery_replaces_aux env data p) as [_ Hinit].
  destruct (infoDelivery_merges_and_initialDelivery_replaces_aux env data'
              (fst (handleMessage env data p))) as [Hmerge _].
  rewrite (Hinit He) in Hmerge.
  unfold getter, getVideoId. rewrite (Hinit He), Hn.
  split; [reflexivity|]. split; [reflexivity|].
  destruct (Hmerge He') as (fs & Hfs & Hget). rewrite Hfs. simpl.
  rewrite Hget.
  assert (Hown : own_props (prop data "info") = []).
  { destruct (prop data "info"); try discriminate; reflexivity. }
  rewrite Hown. simpl.
  destruct (assoc_get key (own_props (prop data' "info"))); reflexivity.
Qed.

Lemma getters_throw_after_empty_initialDelivery_witness :
  getter "volume"
    (fst (handleMessage in_document (VObj [("event", VStr "initialDelivery")])
            sample_player)) = None /\
  getVideoId
    (fst (handleMessage in_document (VObj [("event", VStr "initialDelivery")])
            sample_player)) = None /\
  getter "volume"
    (fst (handleMessage in_document
            (VObj [("event", VStr "infoDelivery"); ("info", VObj [("muted", VBool true)])])
            (fst (handleMessage in_document (VObj [("event", VStr "initialDelivery")])
                    sample_player)))) =
    Some (match assoc_get "volume" (own_props (prop
                   (VObj [("event", VStr "infoDelivery");
                          ("info", VObj [("muted", VBool true)])]) "info")) with
          | Some v => v
          | None => VUndefined
          end).
Proof.
  apply (getters_throw_after_empty_initialDelivery in_document
           (VObj [("event", VStr "initialDelivery")])
           (VObj [("event", VStr "infoDelivery"); ("info", VObj [("muted", VBool true)])])
           sample_player "volume"); reflexivity.
Defined.

(** X5.  A message whose [event] is a name with handlers, other than the
    three state-delivery names, calls every handler once per registration,
    in registration order, after the queue is flushed and the timer
    cleared, with an event that carries the player, the name and the
    [info] of the message. *)
Theorem callbacks_run_in_registration_order
    (env : Env) (data : value) (p : Player) (name : string) (hs : list Handler) :
  prop data "event" = VStr name ->
  name <> "initialDelivery" -> name <> "infoDelivery" -> name <> "apiInfoDelivery" ->
  events p !! name = Some hs ->
  snd (handleMessage env data p) =
  flush_effects env p ++
  map (fun h => CallHandler h {| target := this env; type := name;
                                 data := prop data "info" |}) hs.
Proof.
  intros Hev N1 N2 N3 He. rewrite handleMessage_eq. simpl snd. f_equal.
  unfold deliver. rewrite Hev. simpl is_str.
  rewrite (proj2 (String.eqb_neq _ _) N1), (proj2 (String.eqb_neq _ _) N2),
          (proj2 (String.eqb_neq _ _) N3).
  unfold emit. simpl events. rewrite He. rewrite for_each_tell. reflexivity.
Qed.

Lemma callbacks_run_in_registration_order_witness :
  snd (handleMessage in_document
         (VObj [("event", VStr "onStateChange"); ("info", VNum 1)])
         (set_events (<["onStateChange" := [3; 5]]> ∅) sample_player)) =
  flush_effects in_document (set_events (<["onStateChange" := [3; 5]]> ∅) sample_player) ++
  map (fun h => CallHandler h {| target := 0; type := "onStateChange"; data := VNum 1 |})
      [3; 5].
Proof.
  apply (callbacks_run_in_registration_order in_document
           (VObj [("event", VStr "onStateChange"); ("info", VNum 1)])
           (set_events (<["onStateChange" := [3; 5]]> ∅) sample_player)
           "onStateChange" [3; 5]);
    try reflexivity; discriminate.
Defined.

Lemma deliver_silent (env : Env) (data : value) (p : Player) :
  (prop data "event" = VStr "initialDelivery" \/
   prop data "event" = VStr "infoDelivery" \/
   prop data "event" = VStr "apiInfoDelivery" \/
   (forall name, prop data "event" = VStr name -> events p !! name = None)) ->
  snd (deliver env data p) = [].
Proof.
  unfold deliver. intros [H|[H|[H|H]]]; try (rewrite H; reflexivity).
  destruct (is_str (prop data "event") "initialDelivery"); [reflexivity|].
  destruct (is_str (prop data "event") "infoDelivery"); [reflexivity|].
  destruct (is_str (prop data "event") "apiInfoDelivery"); [reflexivity|].
  unfold emit. destruct (prop data "event") as [| | | |s| |]; try reflexivity.
  rewrite (H s eq_refl). reflexivity.
Qed.

(** X6.  A state-delivery message ([initialDelivery], [infoDelivery],
    [apiInfoDelivery]) never calls a handler, also when handlers are
    registered under that very name, and [apiInfoDelivery] leaves the
    snapshot as it is; a message for a name without handlers, or whose
    [event] is not a string, calls nothing either. *)
Theorem state_delivery_calls_no_handler (env : Env) (data : value) (p : Player) :
  (prop data "event" = VStr "initialDelivery" \/
   prop data "event" = VStr "infoDelivery" \/
   prop data "event" = VStr "apiInfoDelivery" \/
   (forall name, prop data "event" = VStr name -> events p !! name = None)) ->
  (forall h e, CallHandler h e ∉ snd (handleMessage env data p)) /\
  (prop data "event" = VStr "apiInfoDelivery" ->
   info (fst (handleMessage env data p)) = info p).
Proof.
  intros H. rewrite handleMessage_eq. simpl. split.
  - intros h e Hin. rewrite (deliver_silent env data (flushed p)) in Hin.
    + rewrite app_nil_r in Hin. exact (flush_effects_no_call env p h e Hin).
    + exact H.
  - intros Ha. unfold deliver. rewrite Ha. reflexivity.
Qed.

Lemma state_delivery_calls_no_handler_witness :
  CallHandler 3 {| target := 0; type := "infoDelivery"; data := VObj [("volume", VNum 3)] |} ∉
  snd (handleMessage in_document
         (VObj [("event", VStr "infoDelivery"); ("info", VObj [("volume", VNum 3)])])
         (set_events (<["infoDelivery" := [3]]> ∅) sample_player)).
Proof.
  apply (proj1 (state_delivery_calls_no_handler in_document
                  (VObj [("event", VStr "infoDelivery"); ("info", VObj [("volume", VNum 3)])])
                  (set_events (<["infoDelivery" := [3]]> ∅) sample_player)
                  (or_intror (or_introl eq_refl)))).
Defined.

Lemma remove_first_spec (h : Handler) (l : list Handler) :
  ((h ∉ l) /\ remove_first h l = l) \/
  (exists l1 l2, l = l1 ++ h :: l2 /\ (h ∉ l1) /\ remove_first h l = l1 ++ l2).
Proof.
  induction l as [|x l IH]; simpl.
  - left. split; [apply not_elem_of_nil|reflexivity].
  - destruct (Nat.eqb_spec x h) as [->|Hne].
    + right. exists [], l. split; [reflexivity|]. split; [apply not_elem_of_nil|reflexivity].
    + destruct IH as [[Hn Heq]|(l1 & l2 & Hl & Hn & Heq)].
      * left. split; [|rewrite Heq; reflexivity].
        intros Hin. apply elem_of_cons in Hin. destruct Hin as [Hin|Hin]; [congruence|auto].
      * right. exists (x :: l1), l2. subst l. split; [reflexivity|].
        split; [|rewrite Heq; reflexivity].
        intros Hin. apply elem_of_cons in Hin. destruct Hin as [Hin|Hin]; [congruence|auto].
Qed.

Lemma removeEventListener_events (env : Env) (name : string) (handler : Handler)
    (p : Player) (hs : list Handler) :
  events p !! name = Some hs ->
  events (fst (removeEventListener env name handler p)) =
  if Nat.eqb (length (remove_first handler hs)) 0
  then delete name (events p)
  else <[name := remove_first handler hs]> (events p).
Proof.
  intros He. unfold removeEventListener. rewrite He. unfold seq. simpl.
  destruct (Nat.eqb (length (remove_first handler hs)) 0); [|reflexivity].
  simpl. rewrite sendCommand_events. simpl. apply delete_insert_eq.
Qed.

(** X7.  [removeEventListener] takes away the first registration of the
    handler under the name and nothing else: later registrations of the
    same handler and all other handlers stay, in their order, and the
    other names are untouched.  A handler that is not registered under the
    name leaves the handlers as they are. *)
Theorem removeEventListener_removes_first_registration
    (env : Env) (name : string) (handler : Handler) (p : Player) (hs : list Handler) :
  events p !! name = Some hs ->
  let p' := fst (removeEventListener env name handler p) in
  (((handler ∉ hs) /\ handlers_of p' name = hs) \/
   (exists l1 l2, hs = l1 ++ handler :: l2 /\ (handler ∉ l1) /\
                  handlers_of p' name = l1 ++ l2)) /\
  (forall n, n <> name -> events p' !! n = events p !! n).
Proof.
  intros He. cbv zeta. unfold handlers_of.
  rewrite (removeEventListener_events env name handler p hs He).
  assert (Hh : default []
                 ((if Nat.eqb (length (remove_first handler hs)) 0
                   then delete name (events p)
                   else <[name := remove_first handler hs]> (events p)) !! name) =
               remove_first handler hs).
  { destruct (remove_first handler hs) as [|x r] eqn:E; simpl.
    - rewrite lookup_delete_eq. reflexivity.
    - rewrite lookup_insert_eq. reflexivity. }
  split.
  - rewrite Hh. destruct (remove_first_spec handler hs) as [[Hn Heq]|(l1 & l2 & Hl & Hn & Heq)].
    + left. split; [exact Hn|exact Heq].
    + right. exists l1, l2. auto.
  - intros n Hne.
    destruct (Nat.eqb (length (remove_first handler hs)) 0).
    + apply lookup_delete_ne. congruence.
    + apply lookup_insert_ne. congruence.
Qed.

Lemma removeEventListener_removes_first_registration_witness :
  events (fst (removeEventListener in_document "onReady" 3
                 (set_events (<["onReady" := [3; 5; 3]]> ∅) sample_player))) !! "onError" =
  events (set_events (<["onReady" := [3; 5; 3]]> ∅) sample_player) !! "onError".
Proof.
  apply (proj2 (removeEventListener_removes_first_registration in_document "onReady" 3
                  (set_events (<["onReady" := [3; 5; 3]]> ∅) sample_player) [3; 5; 3]
                  (lookup_insert_eq _ _ _))).
  discriminate.
Defined.

(** X8.  Registering the first handler of a name and removing it again
    leaves the table of handlers as it was.  When the player is not ready,
    nothing is sent meanwhile and the queue has grown by the subscribe
    command followed by the unsubscribe command. *)
Theorem add_then_remove_restores_handlers
    (env : Env) (name : string) (handler : Handler) (p : Player) :
  events p !! name = None ->
  let r1 := addEventListener env name handler p in
  let r2 := removeEventListener env name handler (fst r1) in
  events (fst r2) = events p /\
  (ready p = false ->
   snd r1 = [] /\ snd r2 = [] /\
   messageQueue (fst r2) =
   messageQueue p ++ [subscribe name;
                      command_message "removeEventListener" (VArr [VStr name])]).
Proof.
  intros He. cbv zeta.
  assert (H1 : events (fst (addEventListener env name handler p)) =
               <[name := [handler]]> (events p)).
  { unfold addEventListener. rewrite He. unfold seq. simpl.
    rewrite sendCommand_events. reflexivity. }
  split.
  - rewrite (removeEventListener_events env name handler _ [handler]).
    + simpl. rewrite Nat.eqb_refl. simpl. rewrite H1.
      rewrite delete_insert_eq. apply delete_id. exact He.
    + rewrite H1. apply lookup_insert_eq.
  - intros Hr.
    unfold removeEventListener. rewrite H1, lookup_insert_eq. simpl.
    rewrite Nat.eqb_refl.
    unfold addEventListener. rewrite He. unfold seq, sendCommand. simpl.
    rewrite Hr. simpl. rewrite Hr. simpl. rewrite <- app_assoc. repeat split.
Qed.

Lemma add_then_remove_restores_handlers_witness :
  events (fst (removeEventListener in_document "onReady" 3
                 (fst (addEventListener in_document "onReady" 3 sample_player)))) =
  events sample_player.
Proof.
  apply (proj1 (add_then_remove_restores_handlers in_document "onReady" 3 sample_player
                  (lookup_empty _))).
Defined.

(* ===================================================================== *)
(** ** Further properties: the router and the timer                       *)
(* ===================================================================== *)

(** X9.  On a reachable page the window has at most one [message]
    listener, and it has one exactly when some origin is trusted, however
    many players were constructed or destroyed. *)
Theorem window_listener_attached_at_most_once (w : World) :
  reachable w ->
  windowListeners w <= 1 /\
  (windowListeners w = 1 <-> attachedListeners w <> ∅).
Proof.
  intros Hw. rewrite (inv_window w (reachable_inv w Hw)).
  destruct (bool_decide (attachedListeners w = ∅)) eqn:E.
  - apply bool_decide_eq_true in E. split; [lia|]. split; [discriminate|congruence].
  - apply bool_decide_eq_false in E. split; [lia|]. split; auto.
Qed.

Lemma window_listener_attached_at_most_once_witness :
  windowListeners two_hosts_page <= 1 /\
  (windowListeners two_hosts_page = 1 <-> attachedListeners two_hosts_page <> ∅).
Proof.
  apply (window_listener_attached_at_most_once two_hosts_page).
  exists [placeholder; second_placeholder],
         [New (TargetId "player") with_callback; New (TargetId "other") other_host].
  split; [|reflexivity].
  constructor; [reflexivity|]. constructor; [reflexivity|constructor].
Defined.

Lemma iter_fixed {A : Type} (f : A -> A) (x : A) (n : nat) :
  f x = x -> Nat.iter n f x = x.
Proof. intros H. induction n as [|n IH]; simpl; [reflexivity|]. rewrite IH. exact H. Qed.

(** A message that the listener cannot hand to a player. *)
Lemma undeliverable_message (w : World) (event : MessageEvent) :
  (parsed event = None \/
   exists data,
     parsed event = Some data /\
     (nullish data = true \/
      (forall i, prop data "id" <> VStr i) \/
      (exists i, prop data "id" = VStr i /\ messageHandlers w !! i = None))) ->
  step w (Message event) = w.
Proof.
  intros H. simpl. unfold dispatch_message. apply iter_fixed.
  unfold listener.
  destruct (bool_decide (origin event ∈ attachedListeners w)); [|reflexivity].
  destruct H as [->|(data & -> & H)]; [reflexivity|].
  destruct (nullish data); [reflexivity|].
  destruct H as [H|[H|(i & -> & ->)]]; [discriminate| |reflexivity].
  destruct (prop data "id") as [| | | |s| |]; try reflexivity.
  exfalso. apply (H s). reflexivity.
Qed.

(** X10.  A message whose text does not parse, whose value is [null],
    whose [id] is not a string, or whose [id] is not registered (a late
    message for a destroyed player, say) changes nothing on the page: no
    player becomes ready, nothing is sent, no handler is called. *)
Theorem undeliverable_message_changes_nothing (w : World) (event : MessageEvent) :
  (parsed event = None \/
   exists data,
     parsed event = Some data /\
     (nullish data = true \/
      (forall i, prop data "id" <> VStr i) \/
      (exists i, prop data "id" = VStr i /\ messageHandlers w !! i = None))) ->
  step w (Message event) = w.
Proof. apply undeliverable_message. Qed.

Lemma undeliverable_message_changes_nothing_witness :
  step sample_page (Message {| origin := "https://www.youtube.com"; parsed := None |}) =
  sample_page.
Proof.
  apply (undeliverable_message_changes_nothing sample_page
           {| origin := "https://www.youtube.com"; parsed := None |}).
  left. reflexivity.
Defined.

(** X11.  A message handled by the player registered under its [id]
    leaves every other player as it is, and also the document, the router
    and the set of trusted origins. *)
Theorem message_reaches_only_its_addressee
    (w : World) (event : MessageEvent) (data : value) (i : string) (a : nat) :
  reachable w ->
  origin event ∈ attachedListeners w ->
  parsed event = Some data ->
  nullish data = false ->
  prop data "id" = VStr i ->
  messageHandlers w !! i = Some a ->
  (forall b, b <> a -> heap (step w (Message event)) !! b = heap w !! b) /\
  document (step w (Message event)) = document w /\
  messageHandlers (step w (Message event)) = messageHandlers w /\
  attachedListeners (step w (Message event)) = attachedListeners w.
Proof.
  intros Hw Ho Hd Hn Hi Hh.
  rewrite (message_delivery w event data i a (reachable_inv w Hw) Ho Hd Hn Hi Hh).
  destruct (run_on_fields a (fun env => handleMessage env data) w)
    as (F1 & F2 & F3 & _).
  split; [|auto].
  intros b Hb. rewrite run_on_heap.
  destruct (heap w !! b); [|reflexivity].
  rewrite decide_False by exact Hb. reflexivity.
Qed.

Lemma message_reaches_only_its_addressee_witness :
  heap (step two_hosts_page (Message (remote_message "c0" "onReady" VNull))) !! 1 =
  heap two_hosts_page !! 1.
Proof.
  apply (proj1 (message_reaches_only_its_addressee two_hosts_page
                  (remote_message "c0" "onReady" VNull)
                  (VObj [("id", VStr "c0"); ("event", VStr "onReady"); ("info", VNull)])
                  "c0" 0 two_hosts_page_reachable
                  ltac:(apply (bool_decide_unpack _); vm_compute; exact I)
                  eq_refl eq_refl eq_refl
                  ltac:(vm_compute; reflexivity))).
  discriminate.
Defined.

Lemma set_trace_set_trace (x y : list Output) (w : World) :
  set_trace x (set_trace y w) = set_trace x w.
Proof. reflexivity. Qed.

(** X12.  While its timer runs, every firing posts exactly one
    [listening] probe of the player (or, without content window, logs the
    frame once) and changes nothing else; a timer that is not running
    does nothing. *)
Theorem timer_posts_one_probe_per_firing (w : World) (t a : nat) (p : Player) :
  heap w !! a = Some p ->
  (intervals w !! t = Some a ->
   forall n,
     run (replicate n (Tick t)) w =
     set_trace (trace w ++ replicate n (probe_entry w p)) w) /\
  (intervals w !! t = None -> step w (Tick t) = w).
Proof.
  intros Hp. split.
  - intros Ht n.
    assert (H : forall tr,
               run (replicate n (Tick t)) (set_trace tr w) =
               set_trace (tr ++ replicate n (probe_entry w p)) w).
    { induction n as [|n IH]; intros tr.
      - simpl. rewrite app_nil_r. reflexivity.
      - simpl replicate. unfold run. simpl fold_left. unfold fire_timer.
        simpl intervals. rewrite Ht.
        assert (Hp' : heap (set_trace tr w) !! a = Some p) by exact Hp.
        rewrite (run_on_emitListening _ _ _ Hp').
        rewrite set_trace_set_trace. simpl trace.
        fold (run (replicate n (Tick t)) (set_trace (tr ++ [if has_contentWindow (set_trace tr w) (iframe p) then probe p else Logged (iframe p)]) w)).
        rewrite IH. rewrite <- app_assoc. reflexivity. }
    rewrite <- (set_trace_id w) at 1. apply H.
  - intros Ht. simpl. unfold fire_timer. rewrite Ht. reflexivity.
Qed.

Lemma timer_posts_one_probe_per_firing_witness :
  run (replicate 3 (Tick 0)) sample_page =
  set_trace (trace sample_page ++
             replicate 3 (probe_entry sample_page
                            (set_pollReadiness (Some 0)
                               (new_player (resolve_options 0 no_options) 0 1))))
            sample_page.
Proof.
  apply (proj1 (timer_posts_one_probe_per_firing sample_page 0 0
                  (set_pollReadiness (Some 0) (new_player (resolve_options 0 no_options) 0 1))
                  sample_page_player)).
  vm_compute. reflexivity.
Defined.

(* ===================================================================== *)
(** ** Further properties: destroy                                        *)
(* ===================================================================== *)

Lemma stopPolling_result (p : Player) :
  fst (stopPolling p) = set_pollReadiness None p /\
  (forall frame, outputs frame (snd (stopPolling p)) = []).
Proof.
  unfold stopPolling. destruct p as [o i oe fr q r pr inf evs]. simpl.
  destruct pr; simpl; split; reflexivity.
Qed.

Lemma replaceChild_counters (newChild oldChild : nat) (w : World) :
  next_id (replaceChild newChild oldChild w) = next_id w /\
  next_timer (replaceChild newChild oldChild w) = next_timer w.
Proof.
  unfold replaceChild. destruct (document w !! oldChild) as [old|]; [|split; reflexivity].
  match goal with
  | |- context [update_element ?e1 ?f1 (update_element ?e2 ?f2 ?w0)] =>
      destruct (update_element_fields e2 f2 w0) as (_ & _ & _ & _ & _ & B6 & B7 & _);
      destruct (update_element_fields e1 f1 (update_element e2 f2 w0))
        as (_ & _ & _ & _ & _ & C6 & C7 & _)
  end.
  split; congruence.
Qed.

(** What [destroy] leaves alone, whether it returns or throws. *)
Lemma destroy_fields (a : nat) (w : World) (p : Player) :
  heap w !! a = Some p ->
  heap (fst (destroy a w)) = heap (run_on a (fun _ => stopPolling) w) /\
  trace (fst (destroy a w)) = trace w /\
  intervals (fst (destroy a w)) = intervals (run_on a (fun _ => stopPolling) w) /\
  next_id (fst (destroy a w)) = next_id w /\
  attachedListeners (fst (destroy a w)) = attachedListeners w /\
  messageHandlers (fst (destroy a w)) =
    match snd (destroy a w) with
    | inr _ => delete (player_id p) (messageHandlers w)
    | inl _ => messageHandlers w
    end.
Proof.
  intros Hp. unfold destroy. rewrite Hp.
  destruct (run_on_fields a (fun _ => stopPolling) w) as (F1 & F2 & F3 & F4 & F5 & F6 & F7).
  assert (Htr : trace (run_on a (fun _ => stopPolling) w) = trace w).
  { rewrite (run_on_trace _ _ _ _ Hp).
    rewrite (proj2 (stopPolling_result p)). apply app_nil_r. }
  set (w1 := run_on a (fun _ => stopPolling) w) in *.
  destruct (Nat.eqb (iframe p) (originalElement p)); simpl.
  - rewrite F2. repeat split; assumption.
  - destruct (document w1 !! iframe p) as [el|]; [|repeat split; assumption].
    destruct (parentNode el); [|repeat split; assumption]. simpl.
    destruct (replaceChild_fields (originalElement p) (iframe p) w1)
      as (A1 & A2 & A3 & A4 & A5 & A6 & _).
    destruct (replaceChild_counters (originalElement p) (iframe p) w1) as (A7 & _).
    rewrite A1, A2, A3, A4, A6, A7, F2. repeat split; assumption.
Qed.

Lemma no_timer_without_field (w : World) (a : nat) (p : Player) :
  world_inv w -> heap w !! a = Some p -> pollReadiness p = None ->
  forall t, intervals w !! t <> Some a.
Proof.
  intros Hinv Hp Hn t Ht.
  destruct (inv_timers w Hinv t a Ht) as (p' & Hp' & Hpoll). congruence.
Qed.

(** X13.  [destroy()] of a player of a reachable page, whether it returns
    or throws: nothing is sent, the timer field of the player is empty
    and no running timer probes for it any more, while its readiness and
    its queue stay as they were.  When [destroy()] returns, nothing is
    registered under the identifier of the player, and a later message
    for that identifier changes nothing. *)
Theorem destroy_stops_probing_and_unregisters (w : World) (a : nat) (p : Player) :
  reachable w ->
  heap w !! a = Some p ->
  trace (fst (destroy a w)) = trace w /\
  heap (fst (destroy a w)) !! a = Some (set_pollReadiness None p) /\
  (forall t, intervals (fst (destroy a w)) !! t <> Some a) /\
  (snd (destroy a w) = inr tt ->
   messageHandlers (fst (destroy a w)) !! player_id p = None /\
   forall event data,
     parsed event = Some data ->
     prop data "id" = VStr (player_id p) ->
     step (fst (destroy a w)) (Message event) = fst (destroy a w)).
Proof.
  intros Hw Hp.
  destruct (destroy_fields a w p Hp) as (D1 & D2 & D3 & D4 & D5 & D6).
  assert (Hh : heap (fst (destroy a w)) !! a = Some (set_pollReadiness None p)).
  { rewrite D1, run_on_heap, Hp. rewrite decide_True by reflexivity.
    rewrite (proj1 (stopPolling_result p)). reflexivity. }
  split; [exact D2|]. split; [exact Hh|]. split.
  - apply (no_timer_without_field _ a (set_pollReadiness None p)); [|exact Hh|reflexivity].
    apply reachable_inv. apply (reachable_step w (Destroy a) Hw).
  - intros Hok. rewrite Hok in D6.
    assert (Hnone : messageHandlers (fst (destroy a w)) !! player_id p = None).
    { rewrite D6. apply lookup_delete_eq. }
    split; [exact Hnone|].
    intros event data Hd Hi.
    apply undeliverable_message.
    right. exists data. split; [exact Hd|]. right. right.
    exists (player_id p). split; assumption.
Qed.

Lemma destroy_stops_probing_and_unregisters_witness :
  trace (fst (destroy 0 sample_page)) = trace sample_page /\
  heap (fst (destroy 0 sample_page)) !! 0 =
    Some (set_pollReadiness None
            (set_pollReadiness (Some 0) (new_player (resolve_options 0 no_options) 0 1))) /\
  (forall t, intervals (fst (destroy 0 sample_page)) !! t <> Some 0).
Proof.
  destruct (destroy_stops_probing_and_unregisters sample_page 0
              (set_pollReadiness (Some 0) (new_player (resolve_options 0 no_options) 0 1))
              sample_page_reachable sample_page_player) as (H1 & H2 & H3 & _).
  split; [exact H1|]. split; [exact H2|exact H3].
Defined.

Lemma run_on_noop (a : nat) (method : Env -> Act) (w : World) (p : Player) :
  heap w !! a = Some p ->
  (forall env, method env p = (p, [])) ->
  run_on a method w = w.
Proof.
  intros Hp Hm. rewrite (run_on_eq _ _ _ _ Hp), Hm. simpl.
  rewrite list_insert_id by exact Hp. destruct w; reflexivity.
Qed.

(** [destroy()] of a player with a frame of its own that has a parent. *)
Lemma destroy_created (a : nat) (w : World) (p : Player) (el : Element) (parent : nat) :
  heap w !! a = Some p ->
  iframe p <> originalElement p ->
  document w !! iframe p = Some el ->
  parentNode el = Some parent ->
  destroy a w =
  (set_messageHandlers
     (delete (player_id p) (messageHandlers w))
     (replaceChild (originalElement p) (iframe p) (run_on a (fun _ => stopPolling) w)),
   inr tt).
Proof.
  intros Hp Hne Hel Hpar. unfold destroy. rewrite Hp.
  destruct (run_on_fields a (fun _ => stopPolling) w) as (F1 & F2 & _).
  rewrite (proj2 (Nat.eqb_neq _ _) Hne). rewrite F1, Hel, Hpar.
  destruct (replaceChild_fields (originalElement p) (iframe p)
              (run_on a (fun _ => stopPolling) w)) as (_ & _ & A3 & _).
  rewrite A3, F2. reflexivity.
Qed.

Lemma replaceChild_old (newChild oldChild : nat) (w : World) (old : Element) :
  document w !! oldChild = Some old ->
  newChild <> oldChild ->
  document (replaceChild newChild oldChild w) !! oldChild =
  Some (set_position None false old).
Proof.
  intros Hold Hne. unfold replaceChild. rewrite Hold.
  rewrite update_element_document, decide_True by reflexivity.
  rewrite update_element_document, decide_False by congruence.
  rewrite Hold. reflexivity.
Qed.

Lemma replaceChild_new (newChild oldChild : nat) (w : World) (old new : Element) :
  document w !! oldChild = Some old ->
  document w !! newChild = Some new ->
  newChild <> oldChild ->
  document (replaceChild newChild oldChild w) !! newChild =
  Some (set_position (parentNode old) (isConnected old) new).
Proof.
  intros Hold Hnew Hne. unfold replaceChild. rewrite Hold.
  rewrite update_element_document, decide_False by exact Hne.
  rewrite update_element_document, decide_True by reflexivity.
  rewrite Hnew. reflexivity.
Qed.

(** X14.  When [destroy()] has returned for a player whose frame the
    library created, a second [destroy()] throws a [TypeError] (the frame
    has no parent any more) and changes nothing. *)
Theorem second_destroy_throws (w : World) (a : nat) (p : Player) :
  heap w !! a = Some p ->
  iframe p <> originalElement p ->
  snd (destroy a w) = inr tt ->
  destroy a (fst (destroy a w)) = (fst (destroy a w), inl TypeError).
Proof.
  intros Hp Hne Hok.
  destruct (run_on_fields a (fun _ => stopPolling) w) as (F1 & _).
  assert (Hshape : exists el parent,
            document w !! iframe p = Some el /\ parentNode el = Some parent).
  { unfold destroy in Hok. rewrite Hp in Hok.
    rewrite (proj2 (Nat.eqb_neq _ _) Hne), F1 in Hok.
    destruct (document w !! iframe p) as [el|]; [|discriminate].
    destruct (parentNode el) as [parent|] eqn:Hpar; [|discriminate].
    exists el, parent. split; [reflexivity|exact Hpar]. }
  destruct Hshape as (el & parent & Hel & Hpar).
  rewrite (destroy_created a w p el parent Hp Hne Hel Hpar). cbn [fst].
  set (w1 := run_on a (fun _ => stopPolling) w) in *.
  set (w2 := set_messageHandlers (delete (player_id p) (messageHandlers w))
               (replaceChild (originalElement p) (iframe p) w1)).
  assert (Hh : heap w2 !! a = Some (set_pollReadiness None p)).
  { unfold w2. simpl.
    destruct (replaceChild_fields (originalElement p) (iframe p) w1) as (A1 & _).
    rewrite A1. unfold w1. rewrite run_on_heap, Hp, decide_True by reflexivity.
    rewrite (proj1 (stopPolling_result p)). reflexivity. }
  assert (Hd : document w2 !! iframe p = Some (set_position None false el)).
  { unfold w2. simpl. apply replaceChild_old; [|congruence].
    rewrite F1. exact Hel. }
  unfold destroy. rewrite Hh. cbn [iframe originalElement set_pollReadiness player_id].
  rewrite (proj2 (Nat.eqb_neq _ _) Hne).
  assert (Hnoop : run_on a (fun _ => stopPolling) w2 = w2).
  { apply (run_on_noop a _ w2 _ Hh). intros env. reflexivity. }
  rewrite Hnoop, Hd. reflexivity.
Qed.

Lemma second_destroy_throws_witness :
  destroy 0 (fst (destroy 0 sample_page)) = (fst (destroy 0 sample_page), inl TypeError).
Proof.
  apply (second_destroy_throws sample_page 0
           (set_pollReadiness (Some 0) (new_player (resolve_options 0 no_options) 0 1))
           sample_page_player).
  - discriminate.
  - vm_compute. reflexivity.
Defined.

(* ===================================================================== *)
(** ** Further properties: the constructor                                *)
(* ===================================================================== *)

(** The player and the document that the constructor leaves once its
    target is resolved, whether it then returns or throws for a taken
    identifier. *)
Lemma construct_document (target : Target) (arg : PlayerOptions) (w : World)
    (element : nat) :
  resolve_target w target = Some element ->
  let options := resolve_options (next_id w) arg in
  let w0 := set_next_id (S (next_id w)) w in
  let frame := fst (obtain_frame options element w0) in
  let wa := place_frame frame element
              (setAttribute frame "id" ("widget" +:+ opt_id options)
                 (snd (obtain_frame options element w0))) in
  exists el env,
    document wa !! frame = Some el /\
    document (fst (construct target arg w)) =
      <[frame := set_loadListeners (loadListeners el ++ [length (heap w)]) el]>
        (document wa) /\
    heap (fst (construct target arg w)) !! length (heap w) =
      Some (fst (for_each (fun nh => addEventListener env (fst nh) (snd nh))
                   (opt_events options)
                   (set_pollReadiness (Some (next_timer w))
                      (new_player options element frame)))) /\
    next_id (fst (construct target arg w)) = S (next_id w).
Proof.
  intros Ht. cbv zeta. unfold construct.
  set (options := resolve_options (next_id w) arg).
  set (w0 := set_next_id (S (next_id w)) w).
  assert (Ht0 : resolve_target w0 target = Some element)
    by (unfold w0; rewrite resolve_target_next_id; exact Ht).
  rewrite Ht0.
  pose proof (resolve_target_some _ _ _ Ht0) as Hsome.
  destruct (frame_prepared options element "id" ("widget" +:+ opt_id options) w0 Hsome)
    as (A1 & _ & _ & _ & _ & A6 & A7 & _ & _ & [el Hel]).
  set (frame := fst (obtain_frame options element w0)) in *.
  set (wa := place_frame frame element
               (setAttribute frame "id" ("widget" +:+ opt_id options)
                  (snd (obtain_frame options element w0)))) in *.
  rewrite (begin_handshake_eq options element frame el wa Hel).
  set (wh := handshaken options element frame el wa).
  set (np := set_pollReadiness (Some (next_timer wa)) (new_player options element frame)).
  assert (Hnp : heap wh !! length (heap wa) = Some np).
  { unfold wh, handshaken. simpl. apply list_lookup_middle. reflexivity. }
  set (m := fun env : Env => for_each (fun nh => addEventListener env (fst nh) (snd nh))
                               (opt_events options)).
  destruct (run_on_fields (length (heap wa)) m wh) as (Hdoc & _ & _ & _ & Hid & _).
  pose proof (run_on_heap (length (heap wa)) m wh (length (heap wa))) as Hheap.
  rewrite Hnp, decide_True in Hheap by reflexivity.
  change (register_events (length (heap wa)) (opt_events options) wh)
    with (run_on (length (heap wa)) m wh).
  set (we := run_on (length (heap wa)) m wh) in *.
  destruct (attachGlobalListener_fields (opt_host options) we)
    as (G1 & G2 & _ & _ & _ & G6 & _).
  assert (Hlen : length (heap w) = length (heap wa)) by (rewrite A1; reflexivity).
  exists el, {| this := length (heap wa); contentWindow := has_contentWindow wh (iframe np) |}.
  assert (Hfinal :
    document wa !! frame = Some el /\
    document (attachGlobalListener (opt_host options) we) =
      <[frame := set_loadListeners (loadListeners el ++ [length (heap w)]) el]>
        (document wa) /\
    heap (attachGlobalListener (opt_host options) we) !! length (heap w) =
      Some (fst (m {| this := length (heap wa);
                      contentWindow := has_contentWindow wh (iframe np) |}
                   (set_pollReadiness (Some (next_timer w))
                      (new_player options element frame)))) /\
    next_id (attachGlobalListener (opt_host options) we) = S (next_id w)).
  { rewrite G1, G2, G6, Hdoc, Hid, Hlen.
    split; [exact Hel|]. split; [reflexivity|]. split; [|exact A6].
    rewrite Hheap. unfold np. rewrite A7. reflexivity. }
  destruct (messageHandlers (attachGlobalListener (opt_host options) we) !! opt_id options);
    exact Hfinal.
Qed.

(** The new frame and the placeholder once the frame has taken the place
    of the placeholder. *)
Lemma created_frame_placed (options : Options) (element : nat) (old : Element)
    (parent : nat) (val : string) (w : World) :
  document w !! element = Some old ->
  String.eqb (tagName old) "IFRAME" = false ->
  parentNode old = Some parent ->
  let fw := obtain_frame options element w in
  let wa := place_frame (fst fw) element (setAttribute (fst fw) "id" val (snd fw)) in
  fst fw = length (document w) /\
  document wa !! element = Some (set_position None false old) /\
  exists fr,
    document wa !! fst fw = Some fr /\
    parentNode fr = Some parent /\ isConnected fr = isConnected old.
Proof.
  intros Hold Htag Hpar. cbv zeta. unfold obtain_frame. rewrite Hold, Htag. cbn [fst snd].
  split; [reflexivity|].
  set (frame := length (document w)).
  set (w1 := setAttribute frame "id" val
               (set_document (document w ++ [createIframe options]) w)).
  assert (Hlt : element < frame) by (apply lookup_lt_Some in Hold; exact Hold).
  assert (H1 : exists fr0, document w1 !! frame = Some fr0).
  { unfold w1, setAttribute. rewrite update_element_document.
    rewrite decide_True by reflexivity. simpl.
    unfold frame. rewrite list_lookup_middle by reflexivity. simpl. eauto. }
  destruct H1 as [fr0 H1].
  assert (H2 : document w1 !! element = Some old).
  { unfold w1, setAttribute. rewrite update_element_document.
    rewrite decide_False by lia. simpl. apply lookup_app_l_Some. exact Hold. }
  unfold place_frame.
  destruct (Nat.eqb_spec frame element) as [Heq|Hne]; [lia|].
  rewrite H2, Hpar.
  split; [apply replaceChild_old; [exact H2|exact Hne]|].
  eexists. split; [apply (replaceChild_new frame element w1 old fr0 H2 H1 Hne)|].
  split; [exact Hpar|reflexivity].
Qed.

(** X15.  A player made for a placeholder that is not a frame and has a
    parent, and destroyed right away: [destroy()] returns, the placeholder
    is in the document exactly as it was before the construction (same
    attributes, same parent, same position in the document), and the
    frame that the library made is out of the document. *)
Theorem destroy_restores_the_placeholder
    (target : Target) (arg : PlayerOptions) (w : World) (element : nat)
    (old : Element) (parent : nat) :
  resolve_target w target = Some element ->
  document w !! element = Some old ->
  String.eqb (tagName old) "IFRAME" = false ->
  parentNode old = Some parent ->
  let w1 := fst (construct target arg w) in
  let w2 := fst (destroy (length (heap w)) w1) in
  snd (destroy (length (heap w)) w1) = inr tt /\
  document w2 !! element = Some old /\
  exists fr,
    document w2 !! length (document w) = Some fr /\
    parentNode fr = None /\ isConnected fr = false.
Proof.
  intros Ht Hold Htag Hpar. cbv zeta.
  destruct (construct_document target arg w element Ht) as (el & env & Hel & Hdoc & Hheap & _).
  cbv zeta in Hel, Hdoc, Hheap.
  destruct (created_frame_placed (resolve_options (next_id w) arg) element old parent
              ("widget" +:+ opt_id (resolve_options (next_id w) arg))
              (set_next_id (S (next_id w)) w) Hold Htag Hpar)
    as (Hframe & Helem & fr & Hfr & Hfp & Hfc).
  cbv zeta in Hframe, Helem, Hfr.
  set (options := resolve_options (next_id w) arg) in *.
  set (w0 := set_next_id (S (next_id w)) w) in *.
  set (frame := fst (obtain_frame options element w0)) in *.
  set (wa := place_frame frame element
               (setAttribute frame "id" ("widget" +:+ opt_id options)
                  (snd (obtain_frame options element w0)))) in *.
  assert (Heq : el = fr) by congruence. subst el.
  set (w1 := fst (construct target arg w)) in *.
  set (p := fst (for_each (fun nh => addEventListener env (fst nh) (snd nh))
                   (opt_events options)
                   (set_pollReadiness (Some (next_timer w))
                      (new_player options element frame)))) in *.
  assert (Hlt : element < frame).
  { rewrite Hframe. apply lookup_lt_Some in Hold. exact Hold. }
  destruct (polite_register (opt_events options) env
              (set_pollReadiness (Some (next_timer w)) (new_player options element frame)))
    as ((_ & _ & Hi & Ho) & _).
  fold p in Hi, Ho. simpl in Hi, Ho.
  assert (Hne : iframe p <> originalElement p) by (rewrite Hi, Ho; lia).
  set (fr1 := set_loadListeners (loadListeners fr ++ [length (heap w)]) fr) in *.
  assert (Hd1 : document w1 !! iframe p = Some fr1).
  { rewrite Hdoc, Hi. apply list_lookup_insert_eq. apply lookup_lt_Some in Hfr. exact Hfr. }
  assert (Hd2 : document w1 !! originalElement p = Some (set_position None false old)).
  { rewrite Hdoc, Ho. rewrite list_lookup_insert_ne by lia. exact Helem. }
  rewrite (destroy_created (length (heap w)) w1 p fr1 parent Hheap Hne Hd1 Hfp).
  cbn [fst snd set_messageHandlers document].
  destruct (run_on_fields (length (heap w)) (fun _ => stopPolling) w1) as (F1 & _).
  split; [reflexivity|]. split.
  - rewrite <- Ho.
    rewrite (replaceChild_new (originalElement p) (iframe p) _ fr1
               (set_position None false old));
      [|rewrite F1; exact Hd1|rewrite F1; exact Hd2|congruence].
    simpl. rewrite Hfp, Hfc. rewrite <- Hpar. destruct old; reflexivity.
  - exists (set_position None false fr1).
    change (length (document w)) with (length (document w0)).
    rewrite <- Hframe, <- Hi.
    split; [apply replaceChild_old; [rewrite F1; exact Hd1|congruence]|].
    split; reflexivity.
Qed.

Lemma destroy_restores_the_placeholder_witness :
  snd (destroy (length (heap (initial [placeholder])))
         (fst (construct (TargetId "player") no_options (initial [placeholder])))) = inr tt /\
  document (fst (destroy (length (heap (initial [placeholder])))
                   (fst (construct (TargetId "player") no_options (initial [placeholder])))))
    !! 0 = Some placeholder.
Proof.
  destruct (destroy_restores_the_placeholder (TargetId "player") no_options
              (initial [placeholder]) 0 placeholder 100
              eq_refl eq_refl eq_refl eq_refl) as (H1 & H2 & _).
  split; [exact H1|exact H2].
Defined.

Lemma register_fresh (env : Env) (l : list (string * Handler)) (p : Player) :
  NoDup (map fst l) ->
  (forall n, n ∈ map fst l -> events p !! n = None) ->
  ready p = false ->
  let r := for_each (fun nh => addEventListener env (fst nh) (snd nh)) l p in
  messageQueue (fst r) = messageQueue p ++ map (fun nh => subscribe (fst nh)) l /\
  (forall name h, (name, h) ∈ l -> events (fst r) !! name = Some [h]) /\
  (forall n, n ∉ map fst l -> events (fst r) !! n = events p !! n).
Proof.
  revert p. induction l as [|[name h] l IH]; intros p Hnd Hfresh Hr; cbv zeta.
  - simpl. rewrite app_nil_r. repeat split. intros n x Hin. inversion Hin.
  - simpl in Hnd. apply NoDup_cons in Hnd. destruct Hnd as [Hnotin Hnd].
    simpl for_each. unfold seq. cbn [fst snd].
    assert (He : events p !! name = None).
    { apply Hfresh. simpl. apply elem_of_cons. left. reflexivity. }
    assert (H1 : addEventListener env name h p =
                 (set_messageQueue (messageQueue p ++ [subscribe name])
                    (set_events (<[name := [h]]> (events p)) p), [])).
    { unfold addEventListener. rewrite He. unfold seq, sendCommand. simpl.
      rewrite Hr. reflexivity. }
    rewrite H1. cbn [fst snd].
    set (p1 := set_messageQueue (messageQueue p ++ [subscribe name])
                 (set_events (<[name := [h]]> (events p)) p)).
    destruct (IH p1 Hnd) as (Q & E & O).
    { intros n Hn. unfold p1. simpl. rewrite lookup_insert_ne.
      - apply Hfresh. simpl. apply elem_of_cons. right. exact Hn.
      - intros ->. contradiction. }
    { exact Hr. }
    split; [|split].
    + rewrite Q. unfold p1. simpl. rewrite <- app_assoc. reflexivity.
    + intros n x Hin. apply elem_of_cons in Hin. destruct Hin as [Heq|Hin].
      * inversion Heq. subst n x. rewrite (O name Hnotin).
        unfold p1. simpl. apply lookup_insert_eq.
      * apply E. exact Hin.
    + intros n Hn. simpl in Hn. apply not_elem_of_cons in Hn. destruct Hn as [Hne Hn].
      rewrite (O n Hn). unfold p1. simpl. apply lookup_insert_ne. congruence.
Qed.

(** The player that a successful construction leaves. *)
Lemma construct_registers_and_queues_initial_callbacks_aux
    (target : Target) (arg : PlayerOptions) (w : World) (element : nat) :
  resolve_target w target = Some element ->
  messageHandlers w !! opt_id (resolve_options (next_id w) arg) = None ->
  NoDup (map fst (opt_events (resolve_options (next_id w) arg))) ->
  let options := resolve_options (next_id w) arg in
  let self := length (heap w) in
  snd (construct target arg w) = inr self /\
  messageHandlers (fst (construct target arg w)) =
    <[opt_id options := self]> (messageHandlers w) /\
  exists p,
    heap (fst (construct target arg w)) !! self = Some p /\
    ready p = false /\
    player_id p = opt_id options /\
    messageQueue p = map (fun nh => subscribe (fst nh)) (opt_events options) /\
    (forall name h, (name, h) ∈ opt_events options -> events p !! name = Some [h]) /\
    Instance.options p = options.
Proof.
  intros Ht Hfree Hnd. cbv zeta.
  destruct (construct_document target arg w element Ht) as (el & env & _ & _ & Hheap & _).
  cbv zeta in Hheap.
  destruct (construct_resolved target arg w element Ht)
    as (wa & frame & el' & _ & _ & _ & _ & _ & _ & _ & _ & _ & Hc).
  cbv zeta in Hc. rewrite Hfree in Hc.
  rewrite Hc in *. cbn [fst snd] in *.
  split; [reflexivity|]. split; [reflexivity|].
  eexists. split; [exact Hheap|].
  match goal with
  | |- context [for_each ?f ?l ?np] =>
      destruct (register_fresh env l np Hnd) as (Q & E & _);
        [intros n _; apply lookup_empty | reflexivity |];
      destruct (register_not_ready env l np eq_refl) as (_ & R & _);
      destruct (polite_register l env np) as ((O & I & _) & _)
  end.
  cbv zeta in R.
  split; [exact R|]. split; [exact I|]. split; [exact Q|]. split; [exact E|exact O].
Qed.

(** X16.  A construction whose target resolves and whose identifier is
    free returns the new player and registers it under the identifier.
    The player is not ready, and its queue holds one subscribe command
    for each initial callback of [options.events], in the order of
    [options.events], each callback being the only handler of its
    name. *)
Theorem construct_registers_and_queues_initial_callbacks
    (target : Target) (arg : PlayerOptions) (w : World) (element : nat) :
  resolve_target w target = Some element ->
  messageHandlers w !! opt_id (resolve_options (next_id w) arg) = None ->
  NoDup (map fst (opt_events (resolve_options (next_id w) arg))) ->
  let options := resolve_options (next_id w) arg in
  let self := length (heap w) in
  snd (construct target arg w) = inr self /\
  messageHandlers (fst (construct target arg w)) =
    <[opt_id options := self]> (messageHandlers w) /\
  exists p,
    heap (fst (construct target arg w)) !! self = Some p /\
    ready p = false /\
    player_id p = opt_id options /\
    messageQueue p = map (fun nh => subscribe (fst nh)) (opt_events options) /\
    forall name h, (name, h) ∈ opt_events options -> events p !! name = Some [h].
Proof.
  intros Ht Hfree Hnd.
  destruct (construct_registers_and_queues_initial_callbacks_aux target arg w element
              Ht Hfree Hnd) as (H1 & H2 & p & H3 & H4 & H5 & H6 & H7 & _).
  split; [exact H1|]. split; [exact H2|]. exists p. auto.
Qed.

Lemma construct_registers_and_queues_initial_callbacks_witness :
  snd (construct (TargetId "player") with_callback (initial [placeholder])) = inr 0 /\
  messageHandlers (fst (construct (TargetId "player") with_callback (initial [placeholder]))) =
    <["c0" := 0]> (messageHandlers (initial [placeholder])).
Proof.
  destruct (construct_registers_and_queues_initial_callbacks
              (TargetId "player") with_callback (initial [placeholder]) 0
              eq_refl eq_refl) as (H1 & H2 & _).
  - simpl. apply NoDup_singleton.
  - split; [exact H1|exact H2].
Defined.

(** *** Identifiers handed out by the library *)

Lemma to_uint_nonnil (n : nat) : Nat.to_uint n <> Decimal.Nil.
Proof.
  rewrite <- (DecimalNat.Unsigned.of_to n) at 1.
  rewrite DecimalNat.Unsigned.to_of. apply DecimalFacts.unorm_nonnil.
Qed.

Lemma dec_nat_inj (n m : nat) : dec_nat n = dec_nat m -> n = m.
Proof.
  unfold dec_nat. intros H.
  apply DecimalNat.Unsigned.to_uint_inj.
  pose proof (NilZero.usu (Nat.to_uint n) (to_uint_nonnil n)) as Hn.
  pose proof (NilZero.usu (Nat.to_uint m) (to_uint_nonnil m)) as Hm.
  rewrite H in Hn. congruence.
Qed.

Lemma listener_router (event : MessageEvent) (w : World) :
  next_id (listener event w) = next_id w /\
  messageHandlers (listener event w) = messageHandlers w.
Proof.
  unfold listener.
  destruct (bool_decide (origin event ∈ attachedListeners w)); [|split; reflexivity].
  destruct (parsed event) as [data|]; [|split; reflexivity].
  destruct (nullish data); [split; reflexivity|].
  destruct (prop data "id"); try (split; reflexivity).
  destruct (messageHandlers w !! s); [|split; reflexivity].
  destruct (run_on_fields n (fun env => handleMessage env data) w)
    as (_ & F2 & _ & _ & F5 & _).
  split; assumption.
Qed.

(** Apart from the constructor, nothing hands out an identifier or adds
    to the router. *)
Lemma step_router (w : World) (ev : Event) :
  (forall target arg, ev <> New target arg) ->
  next_id (step w ev) = next_id w /\
  forall i x, messageHandlers (step w ev) !! i = Some x -> messageHandlers w !! i = Some x.
Proof.
  intros Hnew.
  assert (Hsame : forall w', next_id w' = next_id w ->
                             messageHandlers w' = messageHandlers w ->
                             next_id w' = next_id w /\
                             forall i x, messageHandlers w' !! i = Some x ->
                                         messageHandlers w !! i = Some x).
  { intros w' H1 H2. split; [exact H1|]. rewrite H2. auto. }
  destruct ev as [target arg|a|a c|a name handler|a name handler|a width height
                  |event|t|e|e parent connected]; simpl.
  - exfalso. apply (Hnew target arg). reflexivity.
  - destruct (heap w !! a) as [p|] eqn:Hp.
    + destruct (destroy_fields a w p Hp) as (_ & _ & _ & D4 & _ & D6).
      split; [exact D4|]. rewrite D6. intros i x.
      destruct (snd (destroy a w)); [auto|].
      rewrite lookup_delete. case_decide; [discriminate|auto].
    + unfold destroy. rewrite Hp. simpl. auto.
  - apply Hsame; apply run_on_fields.
  - apply Hsame; apply run_on_fields.
  - apply Hsame; apply run_on_fields.
  - unfold setSize. destruct (heap w !! a); [|auto].
    unfold setAttribute.
    match goal with
    | |- context [update_element ?e1 ?f1 (update_element ?e2 ?f2 ?w0)] =>
        destruct (update_element_fields e2 f2 w0) as (_ & _ & B3 & _ & _ & B6 & _);
        destruct (update_element_fields e1 f1 (update_element e2 f2 w0))
          as (_ & _ & C3 & _ & _ & C6 & _)
    end.
    apply Hsame; congruence.
  - unfold dispatch_message. generalize (windowListeners w). intros n.
    assert (H : next_id (Nat.iter n (listener event) w) = next_id w /\
                messageHandlers (Nat.iter n (listener event) w) = messageHandlers w).
    { induction n as [|n IH]; simpl; [split; reflexivity|].
      destruct (listener_router event (Nat.iter n (listener event) w)) as [L1 L2].
      destruct IH as [I1 I2]. split; congruence. }
    destruct H as [H1 H2]. apply Hsame; assumption.
  - unfold fire_timer. destruct (intervals w !! t); [|auto].
    apply Hsame; apply run_on_fields.
  - unfold dispatch_load.
    destruct (document w !! e) as [el|]; [|auto].
    destruct (isConnected el); [|auto].
    generalize (loadListeners el). intros l.
    assert (H : forall w0, next_id w0 = next_id w /\ messageHandlers w0 = messageHandlers w ->
                next_id (fold_left (fun w' a => run_on a emitListening w') l w0) = next_id w /\
                messageHandlers (fold_left (fun w' a => run_on a emitListening w') l w0) =
                  messageHandlers w).
    { induction l as [|a l IH]; intros w0 H0; simpl; [exact H0|].
      apply IH. destruct H0 as [H1 H2].
      destruct (run_on_fields a emitListening w0) as (_ & F2 & _ & _ & F5 & _).
      split; congruence. }
    destruct (H w (conj eq_refl eq_refl)) as [H1 H2]. apply Hsame; assumption.
  - apply Hsame; apply update_element_fields.
Qed.

Lemma construct_router (target : Target) (arg : PlayerOptions) (w : World) :
  next_id (fst (construct target arg w)) = S (next_id w) /\
  forall i x,
    messageHandlers (fst (construct target arg w)) !! i = Some x ->
    messageHandlers w !! i = Some x \/
    i = opt_id (resolve_options (next_id w) arg).
Proof.
  destruct (resolve_target w target) as [element|] eqn:Ht.
  - destruct (construct_document target arg w element Ht) as (_ & _ & _ & _ & _ & Hid).
    split; [exact Hid|].
    destruct (construct_resolved target arg w element Ht)
      as (wa & frame & el & _ & _ & A3 & _ & _ & _ & _ & _ & _ & ->).
    cbv zeta.
    match goal with
    | |- context [attachGlobalListener ?h ?we] =>
        destruct (attachGlobalListener_fields h we) as (_ & _ & _ & G & _)
    end.
    match goal with
    | |- context [register_events ?a ?l ?wh] =>
        destruct (run_on_fields a
                    (fun env => for_each (fun nh => addEventListener env (fst nh) (snd nh)) l) wh)
          as (_ & R & _)
    end.
    unfold register_events in *.
    intros i x.
    destruct (messageHandlers w !! opt_id (resolve_options (next_id w) arg));
      cbn [fst messageHandlers set_messageHandlers].
    + rewrite G, R. cbn [messageHandlers handshaken]. rewrite A3. auto.
    + rewrite lookup_insert. case_decide; [auto|auto].
  - rewrite (construct_unresolved _ _ _ Ht). simpl. auto.
Qed.

Lemma ids_handed_out_run (evs : list Event) (w : World) :
  default_ids evs -> ids_handed_out w -> ids_handed_out (run evs w).
Proof.
  revert w. induction evs as [|ev evs IH]; intros w Hd Hw; simpl; [exact Hw|].
  apply Forall_cons in Hd. destruct Hd as [Hev Hd].
  apply IH; [exact Hd|].
  destruct ev as [target arg| | | | | | | | | ];
    try (match goal with
         | |- ids_handed_out (step w ?e) =>
             destruct (step_router w e ltac:(intros; discriminate)) as [H1 H2];
             intros i x Hi; rewrite H1; apply (Hw i x); apply H2; exact Hi
         end).
  simpl. destruct (construct_router target arg w) as [H1 H2].
  intros i x Hi. rewrite H1.
  destruct (H2 i x Hi) as [Hold | ->].
  - destruct (Hw i x Hold) as (n & Hn & ->). exists n. split; [lia|reflexivity].
  - exists (next_id w). split; [lia|].
    unfold resolve_options. simpl. rewrite Hev. reflexivity.
Qed.

(** X17.  As long as every construction leaves the identifier to the
    library, the identifiers handed out ([c0], [c1], ...) never collide:
    after any run of the page from its start, a construction without an
    identifier does not throw the duplicate error. *)
Theorem default_identifiers_never_collide
    (doc : list Element) (evs : list Event) (target : Target) (arg : PlayerOptions)
    (i : string) :
  default_ids evs ->
  arg_id arg = None ->
  snd (construct target arg (run evs (initial doc))) <> inl (DuplicateError i).
Proof.
  intros Hd Harg.
  assert (Hids : ids_handed_out (run evs (initial doc))).
  { apply ids_handed_out_run; [exact Hd|].
    intros j x Hj. simpl in Hj. rewrite lookup_empty in Hj. discriminate. }
  set (w := run evs (initial doc)) in *.
  destruct (resolve_target w target) as [element|] eqn:Ht.
  - destruct (construct_resolved target arg w element Ht)
      as (wa & frame & el & _ & _ & _ & _ & _ & _ & _ & _ & _ & ->).
    cbv zeta.
    destruct (messageHandlers w !! opt_id (resolve_options (next_id w) arg)) as [x|] eqn:E;
      [|discriminate].
    exfalso. destruct (Hids _ _ E) as (n & Hn & Heq).
    unfold resolve_options in Heq. simpl in Heq. rewrite Harg in Heq. simpl in Heq.
    inversion Heq as [Hdec]. apply dec_nat_inj in Hdec. lia.
  - rewrite (construct_unresolved _ _ _ Ht). discriminate.
Qed.

Lemma default_identifiers_never_collide_witness :
  snd (construct (TargetId "other") no_options
         (run [New (TargetId "player") no_options; Destroy 0]
              (initial [placeholder; second_placeholder]))) <>
  inl (DuplicateError "c0").
Proof.
  apply (default_identifiers_never_collide [placeholder; second_placeholder]
           [New (TargetId "player") no_options; Destroy 0]
           (TargetId "other") no_options "c0").
  - repeat constructor.
  - reflexivity.
Defined.

(* ===================================================================== *)
(** ** Further properties: size, silence before readiness, first answer   *)
(* ===================================================================== *)

(** X18.  [setSize(width, height)] writes [String(width)] and
    [String(height)] into the [width] and [height] attributes of the
    frame, leaves its other attributes alone, and sends nothing: no
    player and no entry of the trace changes. *)
Theorem setSize_sets_the_frame_attributes
    (w : World) (a : nat) (p : Player) (el : Element) (width height : value) :
  heap w !! a = Some p ->
  document w !! iframe p = Some el ->
  heap (setSize a width height w) = heap w /\
  trace (setSize a width height w) = trace w /\
  exists el',
    document (setSize a width height w) !! iframe p = Some el' /\
    assoc_get "width" (attributes el') = Some (to_String width) /\
    assoc_get "height" (attributes el') = Some (to_String height) /\
    forall k, k <> "width" -> k <> "height" ->
              assoc_get k (attributes el') = assoc_get k (attributes el).
Proof.
  intros Hp Hel. unfold setSize. rewrite Hp. unfold setAttribute.
  match goal with
  | |- context [update_element ?e1 ?f1 (update_element ?e2 ?f2 ?w0)] =>
      destruct (update_element_fields e2 f2 w0) as (B1 & _ & _ & _ & _ & _ & _ & B8 & _);
      destruct (update_element_fields e1 f1 (update_element e2 f2 w0))
        as (C1 & _ & _ & _ & _ & _ & _ & C8 & _)
  end.
  split; [congruence|]. split; [congruence|].
  rewrite update_element_document, decide_True by reflexivity.
  rewrite update_element_document, decide_True by reflexivity.
  rewrite Hel. simpl. eexists. split; [reflexivity|]. simpl.
  split; [|split].
  - rewrite !assoc_get_set. reflexivity.
  - rewrite assoc_get_set. reflexivity.
  - intros k H1 H2. rewrite !assoc_get_set.
    rewrite (proj2 (String.eqb_neq _ _) H1), (proj2 (String.eqb_neq _ _) H2). reflexivity.
Qed.

Lemma setSize_sets_the_frame_attributes_witness :
  heap (setSize 0 (VNum 800) (VNum 600) sample_page) = heap sample_page /\
  trace (setSize 0 (VNum 800) (VNum 600) sample_page) = trace sample_page.
Proof.
  destruct (setSize_sets_the_frame_attributes sample_page 0
              (set_pollReadiness (Some 0) (new_player (resolve_options 0 no_options) 0 1))
              (set_loadListeners [0]
                 (set_position (Some 100) true
                    (set_attributes
                       (assoc_set "id" "widgetc0"
                          (attributes (createIframe (resolve_options 0 no_options))))
                       (createIframe (resolve_options 0 no_options)))))
              (VNum 800) (VNum 600) sample_page_player
              ltac:(vm_compute; reflexivity)) as (H1 & H2 & _).
  split; [exact H1|exact H2].
Defined.

Lemma removeEventListener_not_ready (env : Env) (name : string) (handler : Handler)
    (p : Player) :
  ready p = false ->
  snd (removeEventListener env name handler p) = [] /\
  ready (fst (removeEventListener env name handler p)) = false.
Proof.
  intros Hr. unfold removeEventListener.
  destruct (events p !! name) as [hs|]; [|split; [reflexivity|exact Hr]].
  unfold seq. simpl.
  destruct (Nat.eqb (length (remove_first handler hs)) 0); simpl.
  - unfold sendCommand. simpl. rewrite Hr. simpl. split; [reflexivity|exact Hr].
  - split; [reflexivity|exact Hr].
Qed.

Lemma api_call_not_ready (w : World) (a : nat) (p : Player) (ev : Event) :
  heap w !! a = Some p -> ready p = false -> api_call a ev ->
  trace (step w ev) = trace w /\
  exists p', heap (step w ev) !! a = Some p' /\ ready p' = false.
Proof.
  intros Hp Hr Hev.
  destruct ev as [target arg|b|b c|b name handler|b name handler|b width height
                  |event|t|e|e parent connected]; simpl in Hev; try contradiction;
    subst b; simpl.
  - rewrite (run_on_trace _ _ _ _ Hp), run_on_heap, Hp, decide_True by reflexivity.
    unfold command.
    rewrite (proj1 (sendCommand_cases _ (func_of c) (args_of c) p) Hr).
    simpl. split; [apply app_nil_r|]. eexists. split; [reflexivity|exact Hr].
  - rewrite (run_on_trace _ _ _ _ Hp), run_on_heap, Hp, decide_True by reflexivity.
    destruct (addEventListener_not_ready
                {| this := a; contentWindow := has_contentWindow w (iframe p) |}
                name handler p Hr) as (E & R & _).
    rewrite E. simpl. split; [apply app_nil_r|]. eexists. split; [reflexivity|exact R].
  - rewrite (run_on_trace _ _ _ _ Hp), run_on_heap, Hp, decide_True by reflexivity.
    destruct (removeEventListener_not_ready
                {| this := a; contentWindow := has_contentWindow w (iframe p) |}
                name handler p Hr) as (E & R).
    rewrite E. simpl. split; [apply app_nil_r|]. eexists. split; [reflexivity|exact R].
Qed.

(** X19.  Before a player is ready, nothing it is asked to do is sent:
    any sequence of commands, [addEventListener] and
    [removeEventListener] calls on a player that is not ready leaves the
    trace as it is and the player not ready. *)
Theorem nothing_is_sent_before_readiness
    (evs : list Event) (w : World) (a : nat) (p : Player) :
  heap w !! a = Some p ->
  ready p = false ->
  Forall (api_call a) evs ->
  trace (run evs w) = trace w /\
  exists p', heap (run evs w) !! a = Some p' /\ ready p' = false.
Proof.
  revert w p. induction evs as [|ev evs IH]; intros w p Hp Hr Hall.
  - simpl. split; [reflexivity|]. exists p. split; assumption.
  - apply Forall_cons in Hall. destruct Hall as [Hev Hall].
    destruct (api_call_not_ready w a p ev Hp Hr Hev) as (Ht & p1 & Hp1 & Hr1).
    destruct (IH (step w ev) p1 Hp1 Hr1 Hall) as (Ht' & p' & Hp' & Hr').
    simpl. split; [congruence|]. exists p'. split; assumption.
Qed.

Lemma nothing_is_sent_before_readiness_witness :
  trace (run [Invoke 0 playVideo; AddEventListener 0 "onReady" 3;
              RemoveEventListener 0 "onReady" 3; Invoke 0 mute] sample_page) =
  trace sample_page.
Proof.
  apply (proj1 (nothing_is_sent_before_readiness
                  [Invoke 0 playVideo; AddEventListener 0 "onReady" 3;
                   RemoveEventListener 0 "onReady" 3; Invoke 0 mute]
                  sample_page 0
                  (set_pollReadiness (Some 0) (new_player (resolve_options 0 no_options) 0 1))
                  sample_page_player eq_refl
                  ltac:(repeat constructor))).
Defined.

(** X20.  From construction to the first answer: a player is constructed
    on a reachable page with a free identifier, and a message comes from
    its host for its identifier.  Then the subscribe commands of its
    initial callbacks go to [#sendMessage] in the order of
    [options.events] -- posted when the frame has a content window --
    before any callback runs, and the player is ready. *)
Theorem first_answer_flushes_initial_subscriptions
    (target : Target) (arg : PlayerOptions) (w : World) (element : nat)
    (event : MessageEvent) (data : value) :
  reachable w ->
  resolve_target w target = Some element ->
  messageHandlers w !! opt_id (resolve_options (next_id w) arg) = None ->
  NoDup (map fst (opt_events (resolve_options (next_id w) arg))) ->
  origin event = opt_host (resolve_options (next_id w) arg) ->
  parsed event = Some data ->
  nullish data = false ->
  prop data "id" = VStr (opt_id (resolve_options (next_id w) arg)) ->
  let options := resolve_options (next_id w) arg in
  let w1 := step w (New target arg) in
  let w2 := step w1 (Message event) in
  exists p p' calls,
    heap w1 !! length (heap w) = Some p /\
    heap w2 !! length (heap w) = Some p' /\
    ready p' = true /\ messageQueue p' = [] /\
    trace w2 =
      trace w1 ++
      map (fun nh => if has_contentWindow w1 (iframe p)
                     then Posted (iframe p)
                            (stringify_object (payload p (subscribe (fst nh))))
                            (opt_host options)
                     else Logged (iframe p)) (opt_events options) ++
      calls /\
    forall o, o ∈ calls -> exists handler ev, o = Called handler ev.
Proof.
  intros Hw Ht Hfree Hnd Ho Hd Hn Hi. cbv zeta.
  destruct (construct_registers_and_queues_initial_callbacks_aux target arg w element
              Ht Hfree Hnd) as (Hres & Hmh & p & Hp & Hr & Hpid & Hq & _ & Hopt).
  cbv zeta in Hres, Hmh, Hp, Hpid, Hq, Hopt.
  set (options := resolve_options (next_id w) arg) in *.
  change (step w (New target arg)) with (fst (construct target arg w)).
  set (w1 := fst (construct target arg w)) in *.
  assert (Hw1 : reachable w1) by (apply (reachable_step w (New target arg) Hw)).
  assert (Htrust : origin event ∈ attachedListeners w1).
  { unfold w1. rewrite (construct_attached target arg w element Ht), Ho.
    apply elem_of_union. left. apply elem_of_singleton. reflexivity. }
  assert (Hreg : messageHandlers w1 !! opt_id options = Some (length (heap w))).
  { rewrite Hmh. apply lookup_insert_eq. }
  rewrite (message_delivery w1 event data (opt_id options) (length (heap w))
             (reachable_inv w1 Hw1) Htrust Hd Hn Hi Hreg).
  destruct (handled_player w1 (length (heap w)) p data Hp) as (p' & Hp' & Hr' & _ & Hq' & _).
  destruct (handled_trace w1 (length (heap w)) p data Hp) as (calls & Htr & Hcalls).
  exists p, p', calls.
  split; [exact Hp|]. split; [exact Hp'|]. split; [exact Hr'|]. split; [exact Hq'|].
  split; [|exact Hcalls].
  rewrite Htr, Hq, Hopt. rewrite map_map. reflexivity.
Qed.

Lemma initial_reachable (doc : list Element) : no_listeners doc -> reachable (initial doc).
Proof. intros H. exists doc, []. split; [exact H|reflexivity]. Qed.

Lemma first_answer_flushes_initial_subscriptions_witness :
  exists p',
    heap (step (step (initial [placeholder]) (New (TargetId "player") with_callback))
               (Message (remote_message "c0" "onReady" VNull))) !! 0 = Some p' /\
    ready p' = true /\ messageQueue p' = [].
Proof.
  destruct (first_answer_flushes_initial_subscriptions
              (TargetId "player") with_callback (initial [placeholder]) 0
              (remote_message "c0" "onReady" VNull)
              (VObj [("id", VStr "c0"); ("event", VStr "onReady"); ("info", VNull)])
              (initial_reachable [placeholder]
                 ltac:(constructor; [reflexivity|constructor]))
              eq_refl eq_refl ltac:(simpl; apply NoDup_singleton)
              eq_refl eq_refl eq_refl eq_refl)
    as (p & p' & calls & _ & Hp' & Hr & Hq & _).
  exists p'. split; [exact Hp'|]. split; [exact Hr|exact Hq].
Defined.
